(** * The decision assistant's extraction core, embedded and verified

    A shallow embedding of
      - [src/utils/instantMindMap.ts]   (heuristic extractor),
      - [src/services/deepseekService.ts] ([cleanAndParseJSON],
        [sendMessageStream], the seven generation calls),
      - [src/components/SWOTView.tsx]   (the [MindMap] component's merge of a
        new tree against the nodes already on screen, [sanitizeData],
        [flattenGraph]),
      - the application component       ([safeGenerate], [handleAnalyze],
        [handleSend], [handleQuickAction]),
    followed by theorems about them.

    Conventions of the embedding.
      - A JavaScript string is a [string]: a sequence of 8-bit code units,
        read as Latin-1 text.  Character classes, [trim] and [toLowerCase]
        are those of ECMAScript restricted to that range.
      - A JavaScript number that the code only ever uses as an integer
        (weights, indices, timestamps) is a [Z] or a [nat].
      - An optional field [f?: T] is an [option T]; [None] is "absent".
      - [Date.now()] is read from a clock that is a parameter of the extractor.
      - An object that the source mutates through an alias (the element
        returned by [find], the element [options[0]] of a filtered copy) is
        modelled by updating that element in the list that owns it. *)

From Stdlib Require Import ZArith Lia List Ascii String DecimalString Bool.
From Stdlib Require DecimalNat.
From stdpp Require Import gmap strings list.
Set Warnings "-register-all".
Import ListNotations.
Open Scope string_scope.
Open Scope list_scope.
Open Scope nat_scope.

(* ===================================================================== *)
(** * JavaScript strings *)
(* ===================================================================== *)

Module JS.

Definition code (c : ascii) : N := N_of_ascii c.

Definition inRange (lo hi : N) (c : ascii) : bool :=
  ((lo <=? code c) && (code c <=? hi))%N.

(** [\s], which is also what [trim] removes: TAB, LF, VT, FF, CR, SP, NBSP. *)
Definition isSpace (c : ascii) : bool :=
  existsb (N.eqb (code c)) [9; 10; 11; 12; 13; 32; 160]%N.

Definition isDigit : ascii -> bool := inRange 48 57.
Definition isUpper : ascii -> bool := inRange 65 90.
Definition isLower : ascii -> bool := inRange 97 122.

(** [\w] *)
Definition isWord (c : ascii) : bool :=
  isUpper c || isLower c || isDigit c || (c =? "_")%char.

(** [toLowerCase] on one Latin-1 code unit: A-Z and the accented capitals
    U+00C0..U+00DE (the multiplication sign U+00D7 apart) move up by 32. *)
Definition lowerChar (c : ascii) : ascii :=
  if isUpper c || (inRange 192 222 c && negb (code c =? 215)%N)
  then ascii_of_N (code c + 32) else c.

(** [toUpperCase] on one code unit of the ASCII range (the only place the
    source uses it is the first character of a [[\w\s]+] capture). *)
Definition upperChar (c : ascii) : ascii :=
  if isLower c then ascii_of_N (code c - 32) else c.

Fixpoint smap (f : ascii -> ascii) (s : string) : string :=
  match s with
  | "" => ""
  | String c s' => String (f c) (smap f s')
  end.

Definition toLowerCase : string -> string := smap lowerChar.

Fixpoint take (n : nat) (s : string) : string :=
  match n, s with
  | S n', String c s' => String c (take n' s')
  | _, _ => ""
  end.

Fixpoint drop (n : nat) (s : string) : string :=
  match n, s with
  | S n', String _ s' => drop n' s'
  | _, _ => s
  end.

Fixpoint trimStart (s : string) : string :=
  match s with
  | String c s' => if isSpace c then trimStart s' else s
  | "" => ""
  end.

Fixpoint trimEnd (s : string) : string :=
  match s with
  | "" => ""
  | String c s' =>
      match trimEnd s' with
      | "" => if isSpace c then "" else String c ""
      | t => String c t
      end
  end.

Definition trim (s : string) : string := trimEnd (trimStart s).

(** [s.includes(sub)] *)
Fixpoint includes (s sub : string) : bool :=
  String.prefix sub s ||
  match s with
  | "" => false
  | String _ s' => includes s' sub
  end.

(** [s.indexOf(c)] for a one-character needle; [-1] when absent. *)
Fixpoint indexOf (c : ascii) (s : string) : Z :=
  match s with
  | "" => -1
  | String d s' =>
      if (d =? c)%char then 0
      else let i := indexOf c s' in if (i =? -1)%Z then -1 else (i + 1)%Z
  end.

(** [s.lastIndexOf(c)] *)
Fixpoint lastIndexOf (c : ascii) (s : string) : Z :=
  match s with
  | "" => -1
  | String d s' =>
      let i := lastIndexOf c s' in
      if (i =? -1)%Z then (if (d =? c)%char then 0 else -1) else (i + 1)%Z
  end.

(** [s.substring(a)] and [s.substring(a, b)]; negative bounds count as 0. *)
Definition substringFrom (a : Z) (s : string) : string := drop (Z.to_nat a) s.
Definition substring (a b : Z) (s : string) : string :=
  let a' := Z.to_nat (Z.min a b) in
  let b' := Z.to_nat (Z.max a b) in
  take (b' - a') (drop a' s).

(** [s.slice(0, n)] for [n >= 0] *)
Definition slice0 (n : nat) (s : string) : string := take n s.

(** [s.split(c)] for a one-character separator *)
Fixpoint splitChar (c : ascii) (s : string) : list string :=
  match s with
  | "" => [""]
  | String d s' =>
      if (d =? c)%char then "" :: splitChar c s'
      else match splitChar c s' with
           | w :: ws => String d w :: ws
           | [] => [String d ""]
           end
  end.

(** [s.split(/\s+/)]: the pieces between maximal runs of white space; a run
    at either end leaves an empty piece there. *)
Fixpoint splitSpaces (s : string) : list string :=
  match s with
  | "" => [""]
  | String d s' =>
      if isSpace d then
        match s' with
        | String e _ => if isSpace e then splitSpaces s' else "" :: splitSpaces s'
        | "" => ["" ; ""]
        end
      else match splitSpaces s' with
           | w :: ws => String d w :: ws
           | [] => [String d ""]
           end
  end.

(** [parts.join(sep)] *)
Fixpoint join (sep : string) (parts : list string) : string :=
  match parts with
  | [] => ""
  | [p] => p
  | p :: ps => p +:+ sep +:+ join sep ps
  end.

(** Template-literal rendering of integers. *)
Definition showZ (z : Z) : string := NilZero.string_of_int (Z.to_int z).
Definition showNat (n : nat) : string := NilZero.string_of_uint (Nat.to_uint n).

End JS.

(* ===================================================================== *)
(** * Regular expressions *)
(* ===================================================================== *)

(** The fragment of ECMAScript regular expressions that the sources use:
    literals, classes, greedy quantifiers on a one-character atom,
    alternation, capture groups, [^] and [$] (no [m] flag anywhere).
    Matching is the backtracking semantics of the language: alternatives
    left to right, quantifiers longest first. *)

Module Regex.

Inductive regex : Type :=
| Eps
| Bol
| Eol
| Chr (c : ascii)
| Cls (p : ascii -> bool)
| Seq (r1 r2 : regex)
| Alt (r1 r2 : regex)
| Rep (p : ascii -> bool) (lo : nat) (hi : option nat)
| Grp (i : nat) (r : regex).

Definition Cat (rs : list regex) : regex := fold_right Seq Eps rs.

Fixpoint Lit (s : string) : regex :=
  match s with
  | "" => Eps
  | String c s' => Seq (Chr c) (Lit s')
  end.

Definition AltL (rs : list regex) : regex :=
  match rs with
  | [] => Eps
  | r :: rs' => fold_left Alt rs' r
  end.

(** [x*], [x+], [x?], [x{a,b}] on a class [x] *)
Definition Star (p : ascii -> bool) : regex := Rep p 0 None.
Definition Plus (p : ascii -> bool) : regex := Rep p 1 None.
Definition OptC (c : ascii) : regex := Rep (Ascii.eqb c) 0 (Some 1).
(** [(?:r)?] *)
Definition Opt (r : regex) : regex := Alt r Eps.

Definition isNot (cs : list ascii) (c : ascii) : bool :=
  negb (existsb (Ascii.eqb c) cs).

Definition caps : Type := list (nat * string).

Definition cap (i : nat) (cs : caps) : option string :=
  snd <$> List.find (fun p => fst p =? i) cs.

(** A continuation receives the position reached, the text still to read and
    the captures made so far. *)
Definition cont (R : Type) : Type := nat -> string -> caps -> option R.

Definition orElse {R} (a b : option R) : option R :=
  match a with Some x => Some x | None => b end.

Definition hiLeft (hi : option nat) : bool :=
  match hi with Some 0 => false | _ => true end.

Fixpoint rep {R} (p : ascii -> bool) (k : cont R) (lo : nat) (hi : option nat)
    (pos : nat) (cs : caps) (rest : string) {struct rest} : option R :=
  let stop := match lo with 0 => k pos rest cs | S _ => None end in
  match rest with
  | String c rest' =>
      if p c && hiLeft hi
      then orElse (rep p k (pred lo) (pred <$> hi) (S pos) cs rest') stop
      else stop
  | "" => stop
  end.

(** Under the [i] flag a literal character matches modulo case (on Latin-1,
    two code units have the same canonical form exactly when they have the
    same lower-case form). *)
Definition chrMatch (ic : bool) (c d : ascii) : bool :=
  if ic then (JS.lowerChar c =? JS.lowerChar d)%char else (c =? d)%char.

Fixpoint run {R} (ic : bool) (r : regex) (k : cont R)
    (pos : nat) (rest : string) (cs : caps) {struct r} : option R :=
  match r with
  | Eps => k pos rest cs
  | Bol => if pos =? 0 then k pos rest cs else None
  | Eol => match rest with "" => k pos rest cs | _ => None end
  | Chr c =>
      match rest with
      | String d rest' => if chrMatch ic c d then k (S pos) rest' cs else None
      | "" => None
      end
  | Cls p =>
      match rest with
      | String d rest' => if p d then k (S pos) rest' cs else None
      | "" => None
      end
  | Seq r1 r2 => run ic r1 (fun pos' rest' cs' => run ic r2 k pos' rest' cs') pos rest cs
  | Alt r1 r2 => orElse (run ic r1 k pos rest cs) (run ic r2 k pos rest cs)
  | Rep p lo hi => rep p k lo hi pos cs rest
  | Grp i r1 =>
      run ic r1 (fun pos' rest' cs' => k pos' rest' ((i, JS.take (pos' - pos) rest) :: cs'))
          pos rest cs
  end.

Record Match : Type := mkMatch {
  index : nat;          (** where the match starts *)
  lastIndex : nat;      (** where it ends *)
  matched : string;     (** [m[0]] *)
  groups : caps;        (** [m[1]], [m[2]], ... *)
  after : string        (** the text that follows the match *)
}.

(** The match that starts exactly at [pos], if there is one. *)
Definition execAt (ic : bool) (r : regex) (pos : nat) (rest : string) : option Match :=
  run ic r (fun e rest' cs => Some (mkMatch pos e (JS.take (e - pos) rest) cs rest'))
      pos rest [].

(** [re.exec(s)] / [s.match(re)] without the [g] flag: the leftmost match. *)
Fixpoint searchFrom (ic : bool) (r : regex) (pos : nat) (rest : string) : option Match :=
  match execAt ic r pos rest with
  | Some m => Some m
  | None =>
      match rest with
      | String _ rest' => searchFrom ic r (S pos) rest'
      | "" => None
      end
  end.

Definition search (ic : bool) (r : regex) (s : string) : option Match :=
  searchFrom ic r 0 s.

(** All matches, left to right, each search resuming where the previous match
    ended ([s.match(re)] with the [g] flag, and the [while (re.exec(s))] loop).
    [skip] counts the characters of the previous match still to step over. *)
Fixpoint scan (ic : bool) (r : regex) (skip pos : nat) (rest : string) : list Match :=
  let next (k : nat) : list Match :=
    match rest with
    | String _ rest' => scan ic r k (S pos) rest'
    | "" => []
    end in
  match skip with
  | S k => next k
  | 0 =>
      match execAt ic r pos rest with
      | Some m => m :: next (lastIndex m - pos - 1)
      | None => next 0
      end
  end.

Definition matchAll (ic : bool) (r : regex) (s : string) : list Match :=
  scan ic r 0 0 s.

(** [s.replace(re, repl)] without the [g] flag: the leftmost match only. *)
Definition replaceFirst (ic : bool) (r : regex) (repl s : string) : string :=
  match search ic r s with
  | Some m => JS.take (index m) s +:+ repl +:+ after m
  | None => s
  end.

(** [s.replace(re, repl)] with the [g] flag. *)
Fixpoint replaceScan (ic : bool) (r : regex) (repl : string)
    (skip pos : nat) (rest : string) : string :=
  match skip with
  | S k =>
      match rest with
      | String _ rest' => replaceScan ic r repl k (S pos) rest'
      | "" => ""
      end
  | 0 =>
      match execAt ic r pos rest with
      | Some m =>
          repl +:+
          match rest with
          | String c rest' =>
              if lastIndex m =? pos
              then String c (replaceScan ic r repl 0 (S pos) rest')
              else replaceScan ic r repl (lastIndex m - pos - 1) (S pos) rest'
          | "" => ""
          end
      | None =>
          match rest with
          | String c rest' => String c (replaceScan ic r repl 0 (S pos) rest')
          | "" => ""
          end
      end
  end.

Definition replaceAll (ic : bool) (r : regex) (repl s : string) : string :=
  replaceScan ic r repl 0 0 s.

(** The least number of characters a match of [r] reads. *)
Fixpoint minLen (r : regex) : nat :=
  match r with
  | Eps | Bol | Eol => 0
  | Chr _ | Cls _ => 1
  | Seq r1 r2 => minLen r1 + minLen r2
  | Alt r1 r2 => Nat.min (minLen r1) (minLen r2)
  | Rep _ lo _ => lo
  | Grp _ r1 => minLen r1
  end.


(** A successful run hands its continuation a position further on, by the
    least length of the expression or more, and the text from there. *)
Definition handsOn {R} (k : cont R) (r : regex) (pos : nat) (rest : string) (x : R)
  : Prop :=
  exists pos' cs',
    k pos' (JS.drop (pos' - pos) rest) cs' = Some x /\ pos + minLen r <= pos'.


(** What follows a run of characters of a class: the end of the text, or a
    character outside the class. *)
Definition stopsAt (p : ascii -> bool) (rest : string) : Prop :=
  match rest with
  | "" => True
  | String d _ => p d = false
  end.

End Regex.

(* ===================================================================== *)
(** * The shared types ([types.ts]) *)
(* ===================================================================== *)

Module Types.

Inductive Role : Type := user | model.

(** [Message]: [timestamp] and [isStreaming] are read by none of the
    functions below and are left out. *)
Record Message : Type := mkMessage { role : Role; text : string }.

(** ['root' | 'topic' | 'option' | 'outcome' | 'pro' | 'con'] *)
Inductive NodeType : Type := TRoot | TTopic | TOption | TOutcome | TPro | TCon.

Inductive MindMapNode : Type := mkNode {
  id : string;
  name : string;
  type : NodeType;
  children : option (list MindMapNode);
  weight : option Z;
  isRecommendation : option bool;
  collapsed : option bool
}.

Definition NodeType_eqb (a b : NodeType) : bool :=
  match a, b with
  | TRoot, TRoot | TTopic, TTopic | TOption, TOption
  | TOutcome, TOutcome | TPro, TPro | TCon, TCon => true
  | _, _ => false
  end.

Definition Role_eqb (a b : Role) : bool :=
  match a, b with
  | user, user | model, model => true
  | _, _ => false
  end.

End Types.

(* ===================================================================== *)
(** * The heuristic extractor ([src/utils/instantMindMap.ts]) *)
(* ===================================================================== *)

Module InstantMindMap.
Import JS Regex Types.

Definition LF : ascii := "010"%char.

(** An object literal [{id, name, type, weight}]. *)
Definition leaf (i n : string) (t : NodeType) (w : Z) : MindMapNode :=
  {| id := i; name := n; type := t; children := None; weight := Some w;
     isRecommendation := None; collapsed := None |}.

(** [n.isRecommendation = true; n.weight = 10] *)
Definition promote (n : MindMapNode) : MindMapNode :=
  {| id := id n; name := name n; type := type n; children := children n;
     weight := Some 10%Z; isRecommendation := Some true; collapsed := collapsed n |}.

(** Mutation, through an alias, of the first element that satisfies [p]. *)
Fixpoint updateFirst {A} (p : A -> bool) (f : A -> A) (l : list A) : list A :=
  match l with
  | [] => []
  | x :: l' => if p x then f x :: l' else x :: updateFirst p f l'
  end.

Definition named (s : string) (n : MindMapNode) : bool := (name n =? s)%string.

(** [nodes.some(n => n.name === s)] *)
Definition someNamed (s : string) (nodes : list MindMapNode) : bool :=
  existsb (named s) nodes.

(** ** [extractMainTopic] *)

Definition wordOrSpace (c : ascii) : bool := isWord c || isSpace c.

Definition patterns : list regex :=
  [ (* /should i ([\w\s]+)\??/i *)
    Cat [Lit "should i "; Grp 1 (Plus wordOrSpace); OptC "?"];
    (* /help me (decide|choose|pick) (?:on |about )?([\w\s]+)/i *)
    Cat [Lit "help me "; Grp 1 (AltL [Lit "decide"; Lit "choose"; Lit "pick"]);
         Chr " "; Opt (AltL [Lit "on "; Lit "about "]); Grp 2 (Plus wordOrSpace)];
    (* /choosing between ([\w\s]+)/i *)
    Cat [Lit "choosing between "; Grp 1 (Plus wordOrSpace)];
    (* /what ([\w\s]+) should/i *)
    Cat [Lit "what "; Grp 1 (Plus wordOrSpace); Lit " should"];
    (* /best ([\w\s]+) for/i *)
    Cat [Lit "best "; Grp 1 (Plus wordOrSpace); Lit " for"] ].

(** [match[2] || match[1]]: an absent or empty second group gives the first
    (which takes part in every match of every pattern). *)
Definition group2or1 (m : Match) : string :=
  match cap 2 (groups m) with
  | Some (String c s) => String c s
  | _ => default "" (cap 1 (groups m))
  end.

(** [topic.charAt(0).toUpperCase() + topic.slice(1)] *)
Definition capitalize (topic : string) : string :=
  match topic with
  | "" => ""
  | String c s => String (upperChar c) s
  end.

(** The [for (const pattern of patterns)] loop: the first pattern that
    matches decides. *)
Fixpoint firstPattern (ps : list regex) (firstMsg : string) : option string :=
  match ps with
  | [] => None
  | pattern :: ps' =>
      match search true pattern firstMsg with
      | Some m => Some (capitalize (trim (group2or1 m)))
      | None => firstPattern ps' firstMsg
      end
  end.

Definition extractMainTopic (userMessages : list Message) : string :=
  match userMessages with
  | [] => "Decision"
  | first :: _ =>
      let firstMsg := text first in
      match firstPattern patterns firstMsg with
      | Some topic => topic
      | None =>
          let words := join " " (firstn 4 (splitSpaces firstMsg)) in
          if 30 <? String.length words then slice0 30 words +:+ "..." else words
      end
  end.

(** ** [extractFromAIMessage] *)

(** [/\[OPTIONS:\s*([^\]]+)\]/gi] *)
Definition optionsRe : regex :=
  Cat [Lit "[OPTIONS:"; Star isSpace; Grp 1 (Plus (isNot ["]"%char])); Chr "]"].
(** [/\[OPTIONS:\s*/i] *)
Definition optionsHeadRe : regex := Cat [Lit "[OPTIONS:"; Star isSpace].
(** [/\]$/] *)
Definition closingRe : regex := Cat [Chr "]"; Eol].
(** [/\*\*([^*]+)\*\*:/g] *)
Definition boldRe : regex :=
  Cat [Lit "**"; Grp 1 (Plus (isNot ["*"%char])); Lit "**"; Chr ":"].
(** [/\*\*/g] *)
Definition starsRe : regex := Lit "**".
(** [/:$/] *)
Definition colonEndRe : regex := Cat [Chr ":"; Eol].

(** The class [[-*â€¢]] as the source file has it: hyphen, asterisk and the
    three characters U+00E2, U+20AC, U+00A2; the middle one lies outside
    Latin-1 and so outside every text of this model. *)
Definition bulletGlyph (c : ascii) : bool :=
  existsb (N.eqb (code c)) [45; 42; 226; 162]%N.

(** [[A-Z][^.\n]{2,40}] *)
Definition itemRe : regex :=
  Cat [Cls isUpper; Rep (isNot ["."%char; LF]) 2 (Some 40)].

(** [/(?:^|\n)\s*[-*â€¢]\s+([A-Z][^.\n]{2,40})(?:\n|$)/g] *)
Definition bulletPattern : regex :=
  Cat [Alt Bol (Chr LF); Star isSpace; Cls bulletGlyph; Plus isSpace;
       Grp 1 itemRe; Alt (Chr LF) Eol].

(** [/(?:^|\n)\s*\d+\.\s+\*?\*?([A-Z][^.\n]{2,40})\*?\*?/g] *)
Definition numberedPattern : regex :=
  Cat [Alt Bol (Chr LF); Star isSpace; Plus isDigit; Chr "."; Plus isSpace;
       OptC "*"; OptC "*"; Grp 1 itemRe; OptC "*"; OptC "*"].

(** [/(?:recommend|suggest|best option|my choice)[:\s]+\*?\*?([^.\n]+)/i] *)
Definition recPattern : regex :=
  Cat [AltL [Lit "recommend"; Lit "suggest"; Lit "best option"; Lit "my choice"];
       Plus (fun c => (c =? ":")%char || isSpace c); OptC "*"; OptC "*";
       Grp 1 (Plus (isNot ["."%char; LF]))].

(** [m[1]] of a pattern whose first group takes part in every match. *)
Definition group1 (m : Match) : string := default "" (cap 1 (groups m)).

(** Step 1.  The choices of one [[OPTIONS: ...]] match. *)
Definition choicesOf (m : string) : list string :=
  let optionsStr :=
    replaceFirst false closingRe "" (replaceFirst true optionsHeadRe "" m) in
  List.filter (fun o => negb (o =? "")%string) (map trim (splitChar "|" optionsStr)).

Definition optionNodes (timestamp : Z) (i : nat) (m : string) : list MindMapNode :=
  imap (fun j choice =>
          leaf ("option-" +:+ showZ timestamp +:+ "-" +:+ showNat i +:+ "-" +:+ showNat j)
               choice TOption (7 - Z.of_nat j))
       (choicesOf m).

Definition step1 (timestamp : Z) (text : string) : list MindMapNode :=
  concat (imap (optionNodes timestamp) (map matched (matchAll true optionsRe text))).

(** Step 2.  The kind of a bold header. *)
Definition classify (label : string) : NodeType :=
  let lowerLabel := toLowerCase label in
  if includes lowerLabel "pro" || includes lowerLabel "advantage"
     || includes lowerLabel "benefit" then TPro
  else if includes lowerLabel "con" || includes lowerLabel "disadvantage"
          || includes lowerLabel "risk" then TCon
  else TOption.

Definition labelOf (m : string) : string :=
  trim (replaceFirst false colonEndRe "" (replaceAll false starsRe "" m)).

Definition pushBold (timestamp : Z) (nodes : list MindMapNode) (im : nat * string)
  : list MindMapNode :=
  let label := labelOf (snd im) in
  if (String.length label <? 40) && negb (someNamed label nodes)
  then nodes ++ [leaf ("bold-" +:+ showZ timestamp +:+ "-" +:+ showNat (fst im))
                      label (classify label) 6]
  else nodes.

Definition indexed {A} (l : list A) : list (nat * A) := imap pair l.

Definition step2 (timestamp : Z) (text : string) (nodes : list MindMapNode)
  : list MindMapNode :=
  fold_left (pushBold timestamp) (indexed (map matched (matchAll false boldRe text))) nodes.

(** Step 3.  One turn of the [while (bulletPattern.exec(text))] loop. *)
Definition pushBullet (timestamp : Z) (nodes : list MindMapNode) (m : Match)
  : list MindMapNode :=
  let item := trim (group1 m) in
  let wordCount := length (splitSpaces item) in
  if (wordCount <=? 5) && negb (someNamed item nodes)
  then nodes ++ [leaf ("bullet-" +:+ showZ timestamp +:+ "-" +:+ showNat (length nodes))
                      item TOption 5]
  else nodes.

Definition step3 (timestamp : Z) (text : string) (nodes : list MindMapNode)
  : list MindMapNode :=
  fold_left (pushBullet timestamp) (matchAll false bulletPattern text) nodes.

(** Step 4.  One turn of the [while (numberedPattern.exec(text))] loop. *)
Definition pushNumbered (timestamp : Z) (nodes : list MindMapNode) (m : Match)
  : list MindMapNode :=
  let item := trim (replaceAll false starsRe "" (group1 m)) in
  let wordCount := length (splitSpaces item) in
  if (wordCount <=? 6) && negb (someNamed item nodes)
  then nodes ++ [leaf ("num-" +:+ showZ timestamp +:+ "-" +:+ showNat (length nodes))
                      item TOption 6]
  else nodes.

Definition step4 (timestamp : Z) (text : string) (nodes : list MindMapNode)
  : list MindMapNode :=
  fold_left (pushNumbered timestamp) (matchAll false numberedPattern text) nodes.

(** Step 5.  The recommendation phrase. *)
Definition recNameOf (m : Match) : string :=
  slice0 40 (trim (replaceAll false starsRe "" (group1 m))).

Definition fuzzy (recName : string) (n : MindMapNode) : bool :=
  includes (toLowerCase (name n)) (toLowerCase recName)
  || includes (toLowerCase recName) (toLowerCase (name n)).

Definition recNode (timestamp : Z) (recName : string) : MindMapNode :=
  {| id := "rec-" +:+ showZ timestamp; name := recName; type := TOption;
     children := None; weight := Some 10%Z; isRecommendation := Some true;
     collapsed := None |}.

Definition step5 (timestamp : Z) (text : string) (nodes : list MindMapNode)
  : list MindMapNode :=
  match search true recPattern text with
  | None => nodes
  | Some recMatch =>
      let recName := recNameOf recMatch in
      if (recName =? "")%string then nodes
      else if existsb (fuzzy recName) nodes
           then updateFirst (fuzzy recName) promote nodes
           else nodes ++ [recNode timestamp recName]
  end.

(** [timestamp] is the value that [Date.now()] returns on entry. *)
Definition extractFromAIMessage (timestamp : Z) (text : string) (msgIndex : nat)
  : list MindMapNode :=
  step5 timestamp text
    (step4 timestamp text
       (step3 timestamp text
          (step2 timestamp text
             (step1 timestamp text)))).

(** ** [generateInstantMindMap] *)

Definition rootWith (kids : list MindMapNode) : MindMapNode :=
  {| id := "root-instant"; name := "Thought Space"; type := TRoot;
     children := Some kids; weight := Some 10%Z;
     isRecommendation := None; collapsed := None |}.

Definition isOption (n : MindMapNode) : bool := NodeType_eqb (type n) TOption.

(** The [aiMessages.forEach] loop.  [now k] is what the [k]-th reading of
    [Date.now()] during the call returns: reading 0 stamps the topic node,
    reading [1 + idx] is made on entry to [extractFromAIMessage] for the
    assistant message of index [idx]. *)
Definition mineAll (now : nat -> Z) (aiMessages : list Message) : list MindMapNode :=
  concat (imap (fun idx msg => extractFromAIMessage (now (S idx)) (text msg) idx)
               aiMessages).

Definition generateInstantMindMap (now : nat -> Z) (messages : list Message)
  : MindMapNode :=
  if length messages =? 0 then rootWith [] else
  let aiMessages := List.filter (fun m => Role_eqb (role m) model) messages in
  let userMessages := List.filter (fun m => Role_eqb (role m) user) messages in
  let mainTopic := extractMainTopic userMessages in
  if (mainTopic =? "")%string then rootWith [] else
  let mined := mineAll now aiMessages in
  (* options[0].isRecommendation = true; options[0].weight = 10 *)
  let kids := updateFirst isOption promote mined in
  rootWith
    [ {| id := "topic-" +:+ showZ (now 0); name := mainTopic; type := TTopic;
         children := Some kids; weight := Some 8%Z;
         isRecommendation := None; collapsed := None |} ].

End InstantMindMap.

(* ===================================================================== *)
(** * The decoder ([src/services/deepseekService.ts]) *)
(* ===================================================================== *)

Module DeepseekService.
Import JS Regex.

(** What a [throw] carries: [new Error(message)]. *)
Record Error : Type := mkError { message : string }.

(** The error that leaves [cleanAndParseJSON]: the [catch] block rethrows
    every failure of the [try] block under this one message. *)
Definition ParseError : Error := mkError "Failed to parse AI response structure.".

(** [/```json/g] and [/```/g] *)
Definition fenceJsonRe : regex := Lit "```json".
Definition fenceRe : regex := Lit "```".

Definition stripFences (text : string) : string :=
  replaceAll false fenceRe "" (replaceAll false fenceJsonRe "" text).

(** The structural start chosen among [firstBrace] and [firstBracket]. *)
Definition startOf (firstBrace firstBracket : Z) : Z :=
  if negb (firstBrace =? -1)%Z
     && ((firstBracket =? -1)%Z || (firstBrace <? firstBracket)%Z)
  then firstBrace else firstBracket.

(** The text handed to [JSON.parse], or the [Error] thrown before that. *)
Definition sliceOf (text : string) : string + Error :=
  let cleaned := stripFences text in
  let firstBrace := indexOf "{" cleaned in
  let firstBracket := indexOf "[" cleaned in
  if (firstBrace =? -1)%Z && (firstBracket =? -1)%Z
  then inr (mkError "No JSON structure found in response")
  else
    let start := startOf firstBrace firstBracket in
    let cleaned := substringFrom start cleaned in
    let lastBrace := lastIndexOf "}" cleaned in
    let lastBracket := lastIndexOf "]" cleaned in
    let end_ := Z.max lastBrace lastBracket in
    inl (if negb (end_ =? -1)%Z then substring 0 (end_ + 1) cleaned else cleaned).

Section Decoder.
(** [JSON.parse] is the platform's: [None] stands for its [SyntaxError]. *)
Context {J : Type} (JSON_parse : string -> option J).

Definition cleanAndParseJSON (text : string) : J + Error :=
  let attempt : J + Error :=                       (* try { ... } *)
    match sliceOf text with
    | inr e => inr e
    | inl cleaned =>
        match JSON_parse cleaned with
        | Some v => inl v
        | None => inr (mkError "SyntaxError")
        end
    end in
  match attempt with                               (* catch (e) { throw ... } *)
  | inl v => inl v
  | inr _ => inr ParseError
  end.
End Decoder.

(** ** A reference [JSON.parse]

    Values as ECMA-404 describes them.  A number is kept as it is written
    (its conversion to a double is not modelled); the members of an object
    are kept in source order. *)

Inductive json : Type :=
| JNull
| JBool (b : bool)
| JNum (lexeme : string)
| JStr (s : string)
| JArr (items : list json)
| JObj (members : list (string * json)).

Definition isJsonSpace (c : ascii) : bool :=
  existsb (N.eqb (code c)) [32; 9; 10; 13]%N.

Fixpoint skipWs (s : string) : string :=
  match s with
  | String c s' => if isJsonSpace c then skipWs s' else s
  | "" => ""
  end.

Definition hexVal (c : ascii) : option N :=
  if isDigit c then Some (code c - 48)%N
  else if inRange 97 102 c then Some (code c - 87)%N
  else if inRange 65 70 c then Some (code c - 55)%N
  else None.

Definition DQ : ascii := "034"%char.   (* the double quote *)
Definition BS : ascii := "092"%char.   (* the backslash *)

Definition unescape (e : ascii) : option ascii :=
  if (e =? DQ)%char then Some DQ
  else if (e =? BS)%char then Some BS
  else if (e =? "/")%char then Some "/"%char
  else if (e =? "b")%char then Some "008"%char
  else if (e =? "f")%char then Some "012"%char
  else if (e =? "n")%char then Some "010"%char
  else if (e =? "r")%char then Some "013"%char
  else if (e =? "t")%char then Some "009"%char
  else None.

(** The characters of a string literal, after its opening quote.  [esc]
    tells how many characters of a pending escape are still to be read:
    1 after a backslash, 4 down to 1 inside a u-escape (whose value so far
    is [acc]). *)
Inductive strState : Type :=
| Plain
| Escaped
| Hex (left : nat) (acc : N).

Fixpoint parseString (st : strState) (s : string) : option (string * string) :=
  match s with
  | "" => None
  | String c rest =>
      let cons (ch : ascii) :=
        match parseString Plain rest with
        | Some (str, rest') => Some (String ch str, rest')
        | None => None
        end in
      match st with
      | Plain =>
          if (c =? DQ)%char then Some ("", rest)
          else if (c =? BS)%char then parseString Escaped rest
          else if (code c <? 32)%N then None
          else cons c
      | Escaped =>
          if (c =? "u")%char then parseString (Hex 4 0) rest
          else match unescape c with Some ch => cons ch | None => None end
      | Hex n acc =>
          match hexVal c with
          | None => None
          | Some h =>
              let acc' := (16 * acc + h)%N in
              match n with
              | 0 => None
              | 1 => if (acc' <? 256)%N then cons (ascii_of_N acc') else None
              | S n' => parseString (Hex n' acc') rest
              end
          end
      end
  end.

(** A number: an optional minus sign, an integer part without a leading
    zero, an optional fraction, an optional exponent. *)
Definition numberRe : regex :=
  Cat [OptC "-";
       Alt (Chr "0") (Cat [Cls (inRange 49 57); Star isDigit]);
       Opt (Cat [Chr "."; Plus isDigit]);
       Opt (Cat [Cls (fun c => (c =? "e")%char || (c =? "E")%char);
                 Opt (Cls (fun c => (c =? "+")%char || (c =? "-")%char));
                 Plus isDigit])].

Definition parseLiteral (s : string) : option (json * string) :=
  if String.prefix "true" s then Some (JBool true, drop 4 s)
  else if String.prefix "false" s then Some (JBool false, drop 5 s)
  else if String.prefix "null" s then Some (JNull, drop 4 s)
  else match execAt false numberRe 0 s with
       | Some m => Some (JNum (matched m), after m)
       | None => None
       end.

Fixpoint parseValue (fuel : nat) (s : string) : option (json * string) :=
  match fuel with
  | 0 => None
  | S fuel' =>
      match skipWs s with
      | "" => None
      | String c rest =>
          if (c =? "[")%char then
            match skipWs rest with
            | "" => None
            | String d rest' =>
                if (d =? "]")%char then Some (JArr [], rest')
                else match parseElements fuel' rest with
                     | Some (items, rest'') => Some (JArr items, rest'')
                     | None => None
                     end
            end
          else if (c =? "{")%char then
            match skipWs rest with
            | "" => None
            | String d rest' =>
                if (d =? "}")%char then Some (JObj [], rest')
                else match parseMembers fuel' rest with
                     | Some (members, rest'') => Some (JObj members, rest'')
                     | None => None
                     end
            end
          else if (c =? DQ)%char then
            match parseString Plain rest with
            | Some (str, rest') => Some (JStr str, rest')
            | None => None
            end
          else parseLiteral (String c rest)
      end
  end
with parseElements (fuel : nat) (s : string) : option (list json * string) :=
  match fuel with
  | 0 => None
  | S fuel' =>
      match parseValue fuel' s with
      | None => None
      | Some (v, rest) =>
          match skipWs rest with
          | "" => None
          | String c rest' =>
              if (c =? ",")%char then
                match parseElements fuel' rest' with
                | Some (vs, rest'') => Some (v :: vs, rest'')
                | None => None
                end
              else if (c =? "]")%char then Some ([v], rest')
              else None
          end
      end
  end
with parseMembers (fuel : nat) (s : string) : option (list (string * json) * string) :=
  match fuel with
  | 0 => None
  | S fuel' =>
      match skipWs s with
      | "" => None
      | String q rest =>
          if negb (q =? DQ)%char then None else
          match parseString Plain rest with
          | None => None
          | Some (key, rest1) =>
              match skipWs rest1 with
              | "" => None
              | String c rest2 =>
                  if negb (c =? ":")%char then None else
                  match parseValue fuel' rest2 with
                  | None => None
                  | Some (v, rest3) =>
                      match skipWs rest3 with
                      | "" => None
                      | String d rest4 =>
                          if (d =? ",")%char then
                            match parseMembers fuel' rest4 with
                            | Some (ms, rest5) => Some ((key, v) :: ms, rest5)
                            | None => None
                            end
                          else if (d =? "}")%char then Some ([(key, v)], rest4)
                          else None
                      end
                  end
              end
          end
      end
  end.

(** Every recursive call is made after at least one character has been read,
    so twice the length of the text (plus one) is fuel enough. *)
Definition JSON_parse (s : string) : option json :=
  match parseValue (S (2 * String.length s)) s with
  | Some (v, rest) => match skipWs rest with "" => Some v | _ => None end
  | None => None
  end.

End DeepseekService.

(* ===================================================================== *)
(** * The mind-map component ([MindMap] in [src/components/SWOTView.tsx]) *)
(* ===================================================================== *)

Module MindMap.
Import JS Regex Types.

Record MindMapLink : Type := mkLink { source : string; target : string }.

(** [/\s+/g] *)
Definition spacesRe : regex := Plus isSpace.

(** [sanitizeData(node, depth = 0, index = 0, parentId = 'root')].  The
    argument is a [MindMapNode], so the guards against [null] nodes and
    [null] children have nothing to reject. *)
Fixpoint sanitizeData (node : MindMapNode) (depth index : nat) (parentId : string)
  {struct node} : MindMapNode :=
  match node with
  | mkNode id0 name0 type0 children0 weight0 rec0 collapsed0 =>
      let newId :=
        if (id0 =? "")%string then
          let safeName :=
            toLowerCase (replaceAll false spacesRe "-"
                           (if (name0 =? "")%string then "node" else name0)) in
          parentId +:+ "-" +:+ safeName +:+ "-" +:+ showNat depth +:+ "-" +:+ showNat index
        else id0 in
      let newWeight :=
        match weight0 with
        | Some w => if (w =? 0)%Z then 1%Z else w
        | None => 1%Z
        end in
      let newChildren :=
        match children0 with
        | Some cs =>
            (fix each (cs : list MindMapNode) (idx : nat) : list MindMapNode :=
               match cs with
               | [] => []
               | child :: cs' => sanitizeData child (S depth) idx newId :: each cs' (S idx)
               end) cs 0
        | None => []
        end in
      mkNode newId name0 type0 (Some newChildren) (Some newWeight) rec0 collapsed0
  end.

(** [flattenGraph]: the nodes in the order [traverse] pushes them ... *)
Fixpoint flatNodes (currentNode : MindMapNode) : list MindMapNode :=
  match currentNode with
  | mkNode _ _ _ children0 _ _ _ =>
      currentNode ::
      match children0 with
      | Some cs => flat_map flatNodes cs
      | None => []
      end
  end.

(** ... and the links, one per parent and child that both have an id. *)
Fixpoint flatLinks (currentNode : MindMapNode) : list MindMapLink :=
  match currentNode with
  | mkNode sourceId _ _ children0 _ _ _ =>
      match children0 with
      | Some cs =>
          flat_map (fun child =>
                      (if negb (sourceId =? "")%string && negb (id child =? "")%string
                       then [mkLink sourceId (id child)] else [])
                      ++ flatLinks child) cs
      | None => []
      end
  end.

Definition flattenGraph (node : MindMapNode) : list MindMapNode * list MindMapLink :=
  (flatNodes node, flatLinks node).

Section Simulation.
(** The numbers of the force simulation; the merge only copies them. *)
Context {number : Type}.

(** A node of the working set: the data of the tree node and the physical
    state that the simulation keeps on the same object. *)
Record SimNode : Type := mkSim {
  node : MindMapNode;
  x : option number;
  y : option number;
  vx : option number;
  vy : option number
}.

(** A node as [flattenGraph] makes it: no physical state yet. *)
Definition fresh (newNode : MindMapNode) : SimNode :=
  mkSim newNode None None None None.

Definition key (n : SimNode) : string := id (node n).

(** [new Map(nodesRef.current.filter(n => n && n.id).map(n => [n.id, n]))]:
    of two entries with one key the later stays. *)
Definition oldNodesMap (nodesRef : list SimNode) : gmap string SimNode :=
  fold_left (fun m n => <[key n := n]> m)
            (List.filter (fun n => negb (key n =? "")%string) nodesRef) ∅.

(** The body of [nodes.map(newNode => ...)]. *)
Definition mergeNode (old : gmap string SimNode) (newNode : MindMapNode) : SimNode :=
  if (id newNode =? "")%string then fresh newNode
  else match old !! id newNode with
       | Some oldNode => mkSim newNode (x oldNode) (y oldNode) (vx oldNode) (vy oldNode)
       | None => fresh newNode
       end.

Definition mergeNodes (nodesRef : list SimNode) (nodes : list MindMapNode)
  : list SimNode :=
  map (mergeNode (oldNodesMap nodesRef)) nodes.

(** [selection.data(nodes, d => d.id).exit()] of d3-selection: an element
    already on screen leaves when a preceding element has its key, or when
    no datum of the new data has it. *)
Fixpoint exitFrom (seen dataKeys : list string) (elements : list SimNode)
  : list SimNode :=
  match elements with
  | [] => []
  | e :: es =>
      if bool_decide (key e ∈ seen) || negb (bool_decide (key e ∈ dataKeys))
      then e :: exitFrom (key e :: seen) dataKeys es
      else exitFrom (key e :: seen) dataKeys es
  end.

Definition exitSelection (elements data : list SimNode) : list SimNode :=
  exitFrom [] (map key data) elements.

(** What the component holds between two runs of its drawing effect:
    [nodesRef.current], which lives as long as the component, and the data
    bound to the [g] elements of the [.nodes] layer of the svg, in document
    order.  [screen] is [None] while no svg is rendered. *)
Record View : Type := mkView {
  nodesRef : list SimNode;
  screen : option (list SimNode)
}.

(** The render that precedes a run of the effect.  Without data the
    component returns its placeholder, and the svg goes with everything in
    it; with data it returns the svg: the one already there, with its
    elements, or a new and empty one. *)
Definition render (rawData : option MindMapNode) (v : View) : View :=
  mkView (nodesRef v)
         (match rawData with
          | None => None
          | Some _ => Some (default [] (screen v))
          end).

(** What one run of the effect computes. *)
Record Drawn : Type := mkDrawn {
  reconciled : list SimNode;      (** [nodes] as the merge returns them and
                                      [nodesRef.current = nodes] stores them,
                                      before [simulation.nodes(nodes)] seeds
                                      those that have no position *)
  links : list MindMapLink;
  exiting : list SimNode          (** the data of the elements of
                                      [node.exit()], which are animated out
                                      and removed 500 ms later *)
}.

(** The data part of the main effect.  [if (!svgRef.current ||
    !wrapperRef.current) return]: without an svg nothing is done ([None]).
    Otherwise: sanitize, flatten, merge with the nodes that [nodesRef] holds,
    join with the elements on screen.  (The tree layout of the organized
    mode and the forces do not enter the merge; what the simulation does to
    the nodes after the run is not part of it.) *)
Definition mainEffect (rawData : option MindMapNode) (v : View) : option Drawn :=
  match screen v with
  | None => None
  | Some elements =>
      let flat :=
        match rawData with
        | Some d => flattenGraph (sanitizeData d 0 0 "root")
        | None => ([], [])
        end in
      let nodes := mergeNodes (nodesRef v) (fst flat) in
      Some (mkDrawn nodes (snd flat) (exitSelection elements nodes))
  end.

End Simulation.
Arguments SimNode : clear implicits.
Arguments View : clear implicits.
Arguments Drawn : clear implicits.

End MindMap.

(* ===================================================================== *)
(** * The application component ([safeGenerate], [handleAnalyze]) *)
(* ===================================================================== *)

Module App.
Import Types DeepseekService.

(** A promise once settled. *)
Inductive Promise (T : Type) : Type :=
| Resolved (value : T)
| Rejected (reason : Error).
Arguments Resolved {T} value.
Arguments Rejected {T} reason.

(** [safeGenerate]: [await] the promise, [null] in place of a rejection. *)
Definition safeGenerate {T} (promise : Promise T) : option T :=
  match promise with
  | Resolved value => Some value
  | Rejected _ => None
  end.

Section Handler.
(** The shapes of the other six analyses; the handler only stores them. *)
Context {ProjectionScenario ComparisonData DecisionTreeData
         SWOTAnalysis CostBenefitAnalysis TimelineData : Type}.

(** The [useState] cells that [handleAnalyze] reads or writes. *)
Record State : Type := mkState {
  messages : list Message;
  mindMapData : option MindMapNode;
  projectionData : list ProjectionScenario;
  comparisonData : option ComparisonData;
  decisionTreeData : option DecisionTreeData;
  swotData : option SWOTAnalysis;
  costBenefitData : option CostBenefitAnalysis;
  timelineData : option TimelineData;
  isVisLoading : bool;
  visError : option string
}.

(** How the seven generation calls of one run settle. *)
Record Generations : Type := mkGenerations {
  generateMindMapData : Promise MindMapNode;
  generateProjectionData : Promise (list ProjectionScenario);
  generateComparisonData : Promise ComparisonData;
  generateDecisionTree : Promise DecisionTreeData;
  generateSWOTAnalysis : Promise SWOTAnalysis;
  generateCostBenefit : Promise CostBenefitAnalysis;
  generateTimelineData : Promise TimelineData
}.

Definition setIsVisLoading (b : bool) (s : State) : State :=
  mkState (messages s) (mindMapData s) (projectionData s) (comparisonData s)
          (decisionTreeData s) (swotData s) (costBenefitData s) (timelineData s)
          b (visError s).

Definition setVisError (e : option string) (s : State) : State :=
  mkState (messages s) (mindMapData s) (projectionData s) (comparisonData s)
          (decisionTreeData s) (swotData s) (costBenefitData s) (timelineData s)
          (isVisLoading s) e.

(** The seven setters of the success path, in one step. *)
Definition setData (mapData : option MindMapNode)
    (projData : list ProjectionScenario) (compData : option ComparisonData)
    (treeData : option DecisionTreeData) (swotResult : option SWOTAnalysis)
    (cbData : option CostBenefitAnalysis) (tlData : option TimelineData)
    (s : State) : State :=
  mkState (messages s) mapData projData compData treeData swotResult cbData tlData
          (isVisLoading s) (visError s).

(** Truthiness of [T | null] for an object type [T]. *)
Definition truthy {T} (o : option T) : bool :=
  match o with Some _ => true | None => false end.

(** [projData && projData.length > 0] *)
Definition nonEmpty {T} (o : option (list T)) : bool :=
  match o with Some l => 0 <? length l | None => false end.

(** [err.message || "Failed to analyze conversation."] *)
Definition messageOf (err : Error) : string :=
  if (message err =? "")%string then "Failed to analyze conversation."
  else message err.

Definition handleAnalyze (gens : Generations) (s : State) : State :=
  if length (messages s) <? 2 then s else
  let s := setVisError None (setIsVisLoading true s) in
  let attempt : State + Error :=                           (* try { ... } *)
    let mapData := safeGenerate (generateMindMapData gens) in
    let projData := safeGenerate (generateProjectionData gens) in
    let compData := safeGenerate (generateComparisonData gens) in
    let treeData := safeGenerate (generateDecisionTree gens) in
    let swotResult := safeGenerate (generateSWOTAnalysis gens) in
    let cbData := safeGenerate (generateCostBenefit gens) in
    let tlData := safeGenerate (generateTimelineData gens) in
    let anySuccess :=
      truthy mapData || nonEmpty projData || truthy compData || truthy treeData
      || truthy swotResult || truthy cbData || truthy tlData in
    if negb anySuccess
    then inr (mkError
                "Could not generate analysis. Please try elaborating on your situation.")
    else inl (setData mapData (default [] projData) compData treeData
                      swotResult cbData tlData s) in
  let s :=
    match attempt with
    | inl s' => s'
    | inr err => setVisError (Some (messageOf err)) s     (* catch (err) *)
    end in
  setIsVisLoading false s.                                 (* finally *)

End Handler.
Arguments State : clear implicits.
Arguments Generations : clear implicits.

End App.

(* ===================================================================== *)
(** * Vocabulary of the properties *)
(* ===================================================================== *)

Module Props.
Import JS Regex Types InstantMindMap DeepseekService MindMap App.

(** ** Trees *)

(** A tree with every id blanked: what is left is names, kinds, weights,
    flags and the nesting and order of the children. *)
Fixpoint eraseIds (n : MindMapNode) : MindMapNode :=
  match n with
  | mkNode _ name0 type0 children0 weight0 rec0 collapsed0 =>
      mkNode "" name0 type0
             (match children0 with
              | Some cs => Some (map eraseIds cs)
              | None => None
              end)
             weight0 rec0 collapsed0
  end.

(** All nodes of a tree, parents before children. *)
Definition nodesOf (t : MindMapNode) : list MindMapNode := flatNodes t.

Definition optionsOf (t : MindMapNode) : list MindMapNode :=
  List.filter isOption (nodesOf t).

Definition recommended (n : MindMapNode) : bool :=
  match isRecommendation n with Some true => true | _ => false end.

(** What an observer of a mined node sees besides its id. *)
Definition look (n : MindMapNode) : string * NodeType * option Z * option bool :=
  (name n, type n, weight n, isRecommendation n).

(** A mined node: no [children] field. *)
Definition leafy (n : MindMapNode) : Prop := children n = None.

(** The first and the last character of a word are no white space. *)
Definition startsClean (w : string) : bool :=
  match w with
  | "" => false
  | String c _ => negb (isSpace c)
  end.

Fixpoint endsClean (w : string) : bool :=
  match w with
  | "" => false
  | String c "" => negb (isSpace c)
  | String _ w' => endsClean w'
  end.



(** Two lists of mined nodes that differ in their ids at most. *)
Definition alike (l l' : list MindMapNode) : Prop := map eraseIds l = map eraseIds l'.

(** A test on nodes that does not look at the id. *)
Definition blind (p : MindMapNode -> bool) : Prop :=
  forall n n', eraseIds n = eraseIds n' -> p n = p n'.

(** The nodes that the main effect hands to the merge. *)
Definition flatOf (rawData : option MindMapNode) : list MindMapNode :=
  match rawData with
  | Some d => flatNodes (sanitizeData d 0 0 "root")
  | None => []
  end.

(** A node of the list has the name [label] and the kind that step 2 gives
    to that label. *)
Definition holds (label : string) (nodes : list MindMapNode) : Prop :=
  exists n, n ∈ nodes /\ name n = label /\ type n = classify label.


(** ** The decoder, in the words of the specification *)

(** The earlier of two [indexOf] results, [-1] meaning "absent". *)
Definition earlier (a b : Z) : Z :=
  if (a =? -1)%Z then b else if (b =? -1)%Z then a else Z.min a b.

(** From the earlier of the first brace and the first bracket to the later
    of the last closing brace and the last closing bracket, both taken in the
    text without its fences. *)
Definition specSlice (text : string) : string :=
  let cleaned := stripFences text in
  let start := earlier (indexOf "{" cleaned) (indexOf "[" cleaned) in
  let stop := Z.max (lastIndexOf "}" cleaned) (lastIndexOf "]" cleaned) in
  substring start (stop + 1) cleaned.

(** The text left by a parser holds no character that the text read did not. *)
Definition keeps (rest s : string) : Prop :=
  forall c, indexOf c s = (-1)%Z -> indexOf c rest = (-1)%Z.

(** ** The orchestrator *)

Section Orchestrator.
Context {P C D S B L : Type}.

Definition rejected {T} (p : Promise T) : Prop := exists e, p = Rejected e.

(** Every call failed or returned empty. *)
Definition allFailedOrEmpty (gens : Generations P C D S B L) : Prop :=
  rejected (generateMindMapData gens)
  /\ (rejected (generateProjectionData gens)
      \/ generateProjectionData gens = Resolved [])
  /\ rejected (generateComparisonData gens)
  /\ rejected (generateDecisionTree gens)
  /\ rejected (generateSWOTAnalysis gens)
  /\ rejected (generateCostBenefit gens)
  /\ rejected (generateTimelineData gens).

(** The flag that decides between the two paths of the [try] block. *)
Definition anySuccess (gens : Generations P C D S B L) : bool :=
  truthy (safeGenerate (generateMindMapData gens))
  || nonEmpty (safeGenerate (generateProjectionData gens))
  || truthy (safeGenerate (generateComparisonData gens))
  || truthy (safeGenerate (generateDecisionTree gens))
  || truthy (safeGenerate (generateSWOTAnalysis gens))
  || truthy (safeGenerate (generateCostBenefit gens))
  || truthy (safeGenerate (generateTimelineData gens)).

(** The seven visualization cells of a state. *)
Definition dataOf (s : State P C D S B L) :=
  (mindMapData s, projectionData s, comparisonData s, decisionTreeData s,
   swotData s, costBenefitData s, timelineData s).
End Orchestrator.

End Props.

(* ===================================================================== *)
(** * Concrete runs *)
(* ===================================================================== *)

Module Examples.
Import JS Regex Types InstantMindMap DeepseekService MindMap App Props.

Definition NL : string := String LF "".
Definition QUOTE : string := String DQ "".

(** ** Orchestrator *)

Definition network : Error := mkError "network".


(** ... and one in which nothing does (the projection resolves, empty). *)
Definition noneBack : Generations nat nat nat nat nat nat :=
  mkGenerations (Rejected network) (Resolved []) (Rejected network)
                (Rejected network) (Rejected network) (Rejected network)
                (Rejected network).

Definition twoMessages : list Message :=
  [mkMessage user "Should I move?"; mkMessage model "It depends."].

(** A state with an analysis on display. *)
Definition onDisplay : State nat nat nat nat nat nat :=
  mkState twoMessages (Some (rootWith [])) [1; 2] (Some 3) (Some 4)
          (Some 5) (Some 6) (Some 7) false None.

(** ** Extractor *)

(** A clock that shows the same millisecond at every reading of one call. *)
Definition sameMs : nat -> Z := fun _ => 1700000000000%Z.

(** A bracket list followed by a recommendation phrase. *)
Definition listAndAdvice : string :=
  "[OPTIONS: Stay | Switch | Negotiate] I recommend Switch.".

Definition jobTalk : list Message :=
  [mkMessage user "Should I switch jobs?"; mkMessage model listAndAdvice].






(** Two assistant messages, a bracket list in each. *)
Definition twoLists : list Message :=
  [mkMessage user "Should I move?";
   mkMessage model "[OPTIONS: A | B]";
   mkMessage model "[OPTIONS: C | D]"].

(** A header with the colon inside the bold markers, as the comment of step 2
    writes it, and one with the colon after them. *)
Definition colonInside : string := "**Risk Factors:** Market volatility".
Definition colonOutside : string := "**Risk Factors**: Market volatility".

Definition investTalk : list Message :=
  [mkMessage user "Should I invest?"; mkMessage model colonInside].

(** A text whose bracket list already has the choice "Risk Factors" when the
    header of that name comes, and a header whose label holds both "risk"
    and "pro". *)
Definition listThenHeader : string :=
  "[OPTIONS: Risk Factors | Other] **Risk Factors**: high".
Definition riskProfile : string := "**Risk Profile**: moderate".

(** ** Decoder *)

(** A reply that wraps its JSON in a fence and in prose. *)
Definition fencedReply : string :=
  "Sure! ```json" +:+ NL +:+ "{" +:+ QUOTE +:+ "a" +:+ QUOTE +:+ ":1}" +:+ NL
  +:+ "``` thanks".

(** A reply cut short: a bracket closes before the brace opens, and nothing
    closes after it. *)
Definition unclosedReply : string := "Done ] and {" +:+ QUOTE +:+ "a" +:+ QUOTE +:+ ": 1".

(** The object with the one member [a], of value 1. *)
Definition objectA1 : json := JObj [("a", JNum "1")].

(** ** Mind-map component *)

(** The nodes of an earlier drawing, where the simulation has left them. *)
Definition placed (i : string) (px py : Z) : SimNode Z :=
  mkSim (leaf i i TOption 5) (Some px) (Some py) (Some 0%Z) (Some 0%Z).

Definition earlierView : View Z :=
  let nodes := [placed "keep" 120 (-40); placed "gone" 7 9] in
  mkView nodes (Some nodes).

(** A new tree that keeps the node "keep", drops "gone" and brings "new". *)
Definition laterTree : MindMapNode :=
  mkNode "keep" "Keep" TTopic
         (Some [leaf "new" "New" TOption 3]) (Some 8%Z) None None.

(** The data goes away and the placeholder is shown; then a tree comes. *)
Definition hiddenView : View Z := render None earlierView.
Definition shownAgain : View Z := render (Some laterTree) hiddenView.

End Examples.
(* ===================================================================== *)
(** * src/services/deepseekService.ts: [sendMessageStream] *)
(* ===================================================================== *)

Module ChatStream.
Import JS DeepseekService.

Definition LF : ascii := "010"%char.

(** [type ChatMessage = { role: string; content: string }] *)
Record ChatMessage : Type := mkChat { role : string; content : string }.

(** [s.split('\n\n')]: the pieces between the blank lines, found from the
    left; a text without one is its own single piece. *)
Fixpoint splitBlank (s : string) : list string :=
  match s with
  | "" => [""]
  | String c s' =>
      match s' with
      | String d rest =>
          if (c =? LF)%char && (d =? LF)%char then "" :: splitBlank rest
          else match splitBlank s' with
               | w :: ws => String c w :: ws
               | [] => [String c ""]
               end
      | "" => [String c ""]
      end
  end.

(** Own property [key] of an object that [JSON.parse] has made: of two
    members with one key the later stays. *)
Fixpoint member (key : string) (members : list (string * json)) : option json :=
  match members with
  | [] => None
  | (k, v) :: members' =>
      match member key members' with
      | Some v' => Some v'
      | None => if (k =? key)%string then Some v else None
      end
  end.

(** [v.key] for the names that the code reads ([choices], [delta],
    [message], [content]); no prototype defines them, so only an object can
    have them.  [None] stands for [undefined]. *)
Definition prop (key : string) (v : json) : option json :=
  match v with
  | JObj members => member key members
  | _ => None
  end.

(** [v[0]]: the first element of an array, the first character of a string,
    the property [0] of an object. *)
Definition first (v : json) : option json :=
  match v with
  | JObj members => member "0" members
  | JArr items => head items
  | JStr (String c _) => Some (JStr (String c ""))
  | _ => None
  end.

(** [x?.f]: [undefined] when [x] is [undefined] or [null]. *)
Definition chain (f : json -> option json) (x : option json) : option json :=
  match x with
  | None | Some JNull => None
  | Some v => f v
  end.

Section Stream.
(** The platform's part: [JSON.parse] ([None] for its [SyntaxError]),
    whether a number, as it is written, is zero once converted, and the
    string that [+=] makes of a value that is no string. *)
Context (JSON_parse : string -> option json).
Context (isZero : string -> bool) (show : json -> string).

(** [if (v)] *)
Definition truthy (v : json) : bool :=
  match v with
  | JNull => false
  | JBool b => b
  | JNum lexeme => negb (isZero lexeme)
  | JStr s => negb (s =? "")%string
  | JArr _ | JObj _ => true
  end.

Definition truthyU (x : option json) : bool :=
  match x with
  | Some v => truthy v
  | None => false
  end.

(** [fullResponse += v] *)
Definition toStr (v : json) : string :=
  match v with
  | JStr s => s
  | _ => show v
  end.

(** The [try] block on [data]: the content that is yielded, if any.  A
    [SyntaxError] of the parser and the [TypeError] of reading [choices] off
    [null] are caught and skipped; so is a content that is falsy. *)
Definition contentOf (data : string) : option json :=
  match JSON_parse data with
  | None => None
  | Some JNull => None
  | Some parsed =>
      let delta :=       (* parsed.choices?.[0]?.delta?.content *)
        chain (prop "content") (chain (prop "delta")
          (chain first (prop "choices" parsed))) in
      let message :=     (* parsed.choices?.[0]?.message?.content *)
        chain (prop "content") (chain (prop "message")
          (chain first (prop "choices" parsed))) in
      if truthyU delta then delta
      else if truthyU message then message
      else None
  end.

(** [event.split('\n').map(line => line.trim())
         .find(line => line.startsWith('data: '))] *)
Definition dataLineOf (event : string) : option string :=
  List.find (String.prefix "data: ") (map trim (splitChar LF event)).

(** The body of [for (const event of events)]. *)
Definition eventContent (event : string) : option json :=
  match dataLineOf event with
  | None => None
  | Some dataLine =>
      let data := trim (drop 6 dataLine) in
      if (data =? "[DONE]")%string then None else contentOf data
  end.

(** The variables of the reading loop, and what it has yielded so far. *)
Record Reading : Type := mkReading {
  buffer : string;
  fullResponse : string;
  yielded : list json
}.

Definition deliver (r : Reading) (event : string) : Reading :=
  match eventContent event with
  | Some c => mkReading (buffer r) (fullResponse r +:+ toStr c) (yielded r ++ [c])
  | None => r
  end.

(** One turn of [while (true)] on the text [chunk] that the decoder makes of
    the value read: [events.pop()] takes the last piece back as the new
    buffer, the pieces before it are delivered. *)
Definition onChunk (r : Reading) (chunk : string) : Reading :=
  let events := splitBlank (buffer r +:+ chunk) in
  fold_left deliver (removelast events)
            (mkReading (List.last events "") (fullResponse r) (yielded r)).

Definition readAll (chunks : list string) : Reading :=
  fold_left onChunk chunks (mkReading "" "" []).

(** What [callDeepSeek] and the reader do: the call throws, the response has
    no body, or the body is read chunk by chunk until it is done or a read
    fails. *)
Inductive Response : Type :=
| Refused (e : Error)
| NoBody
| Body (chunks : list string) (broken : option Error).

(** A generator run to its end: the values yielded, the error thrown if any,
    and [conversationHistory] as it is left. *)
Record Sent : Type := mkSent {
  yields : list json;
  thrown : option Error;
  history : list ChatMessage
}.

Definition sendMessageStream (callDeepSeek : list ChatMessage -> Response)
    (conversationHistory : list ChatMessage) (message : string) : Sent :=
  let conversationHistory := conversationHistory ++ [mkChat "user" message] in
  match callDeepSeek conversationHistory with
  | Refused e => mkSent [] (Some e) conversationHistory
  | NoBody => mkSent [] (Some (mkError "No response body")) conversationHistory
  | Body chunks (Some e) => mkSent (yielded (readAll chunks)) (Some e) conversationHistory
  | Body chunks None =>
      let r := readAll chunks in
      mkSent (yielded r) None
             (conversationHistory ++ [mkChat "assistant" (fullResponse r)])
  end.

End Stream.

End ChatStream.

(* ===================================================================== *)
(** * The application component: [handleSend], [handleQuickAction] *)
(* ===================================================================== *)

Module Chat.
Import JS Types DeepseekService App.

(** [Message], with the two fields that the chat handlers write besides the
    role and the text; [timestamp] is the reading of the clock that
    [new Date()] takes. *)
Record Entry : Type := mkEntry {
  role : Role;
  text : string;
  timestamp : Z;
  isStreaming : option bool
}.

(** The [useState] cells that the chat handlers read or write. *)
Record State : Type := mkState {
  messages : list Entry;
  input : string;
  isChatLoading : bool;
  mindMapData : option MindMapNode
}.

(** [prev.map((msg, idx) => idx === prev.length - 1 ? f(msg) : msg)] *)
Fixpoint mapLast {A} (f : A -> A) (prev : list A) : list A :=
  match prev with
  | [] => []
  | [msg] => [f msg]
  | msg :: prev' => msg :: mapLast f prev'
  end.

(** [{ ...msg, text: fullResponse }] and [{ ...msg, isStreaming: false }] *)
Definition withText (fullResponse : string) (msg : Entry) : Entry :=
  mkEntry (role msg) fullResponse (timestamp msg) (isStreaming msg).
Definition notStreaming (msg : Entry) : Entry :=
  mkEntry (role msg) (text msg) (timestamp msg) (Some false).

(** [error?.message || "Sorry, I encountered an error. Please try again."] *)
Definition errorMessageOf (error : Error) : string :=
  if (message error =? "")%string
  then "Sorry, I encountered an error. Please try again."
  else message error.

(** One turn of [for await (const chunk of stream)]: the variable
    [fullResponse] and the messages. *)
Definition onPiece (acc : string * list Entry) (chunk : string) : string * list Entry :=
  let fullResponse := fst acc +:+ chunk in
  (fullResponse, mapLast (withText fullResponse) (snd acc)).

(** [handleSend].  [now k] is the [k]-th reading of the clock; [mindMap] is
    how the parallel call [generateMindMapData(updatedMessages)] settles;
    [pieces] are the strings that the generator [sendMessageStream(input)]
    yields before it ends ([thrown = None]) or throws.  No other event is
    taken to write the cells while the handler runs. *)
Definition handleSend (now : nat -> Z) (mindMap : Promise MindMapNode)
    (pieces : list string) (thrown : option Error) (s : State) : State :=
  if (trim (input s) =? "")%string then s else
  let userMsg := mkEntry user (input s) (now 0) None in
  let updatedMessages := messages s ++ [userMsg] in
  (* try { ... } *)
  let started := updatedMessages ++ [mkEntry model "" (now 1) (Some true)] in
  let streamed := snd (fold_left onPiece pieces ("", started)) in
  let final :=
    match thrown with
    | None => mapLast notStreaming streamed
    | Some error =>                                   (* catch (error) *)
        streamed ++ [mkEntry model ("Error: " +:+ errorMessageOf error) (now 2) None]
    end in
  mkState final "" false
          (match mindMap with
           | Resolved mapData => Some mapData
           | Rejected _ => mindMapData s
           end).

(** [handleQuickAction(prompt)], once its timer has fired: the same steps on
    [prompt], with no test of it. *)
Definition handleQuickAction (now : nat -> Z) (mindMap : Promise MindMapNode)
    (pieces : list string) (thrown : option Error) (prompt : string) (s : State)
  : State :=
  let userMsg := mkEntry user prompt (now 0) None in
  let updatedMessages := messages s ++ [userMsg] in
  let started := updatedMessages ++ [mkEntry model "" (now 1) (Some true)] in
  let streamed := snd (fold_left onPiece pieces ("", started)) in
  let final :=
    match thrown with
    | None => mapLast notStreaming streamed
    | Some error =>
        streamed ++ [mkEntry model ("Error: " +:+ errorMessageOf error) (now 2) None]
    end in
  mkState final "" false
          (match mindMap with
           | Resolved mapData => Some mapData
           | Rejected _ => mindMapData s
           end).

(** A send from the input box, with the generator that the service runs on
    it: what is left on screen and what is left in the conversation history
    of the service. *)
Definition sendAndRecord (JSON_parse : string -> option json)
    (isZero : string -> bool) (show : json -> string)
    (callDeepSeek : list ChatStream.ChatMessage -> ChatStream.Response)
    (conversationHistory : list ChatStream.ChatMessage)
    (now : nat -> Z) (mindMap : Promise MindMapNode) (s : State)
  : State * list ChatStream.ChatMessage :=
  let sent :=
    ChatStream.sendMessageStream JSON_parse isZero show callDeepSeek
                                 conversationHistory (input s) in
  (handleSend now mindMap (map (ChatStream.toStr show) (ChatStream.yields sent))
              (ChatStream.thrown sent) s,
   ChatStream.history sent).

End Chat.

(* ===================================================================== *)
(** * src/services/deepseekService.ts: the seven generation calls *)
(* ===================================================================== *)

Module Generation.
Import JS Types DeepseekService App ChatStream.

(** [m.role.toUpperCase()] *)
Definition upperRole (r : Role) : string :=
  match r with
  | user => "USER"
  | model => "MODEL"
  end.

(** [history.slice(-10)] *)
Definition recentHistory {A} (history : list A) : list A :=
  skipn (length history - 10) history.

(** The line that [generateMindMapData] makes of a message,
    [`${m.role.toUpperCase()}: ${m.text.slice(0, 200)}`], and the line that
    the six other calls make of it (the whole text). *)
Definition shortLine (m : Message) : string :=
  upperRole (Types.role m) +:+ ": " +:+ slice0 200 (text m).
Definition fullLine (m : Message) : string :=
  upperRole (Types.role m) +:+ ": " +:+ text m.

(** [context] in [generateMindMapData] and in the six other calls. *)
Definition mindMapContext (history : list Message) : string :=
  join (String LF "") (map shortLine (recentHistory history)).
Definition context (history : list Message) : string :=
  join (String LF "") (map fullLine history).

Section Tail.
(** The platform's part: whether a number is zero once converted, and the
    [TypeError] of reading a property off [null]. *)
Context (isZero : string -> bool) (typeError : Error).

(** What the seven calls do once the prompt is sent.  [reply] is how
    [await callDeepSeek(...)] followed by [await response.json()] settles;
    [noData] is the message of the call ("No data generated", ...).  A
    content that is truthy and no string has no [replace] method: the
    [TypeError] is thrown inside the [try] of [cleanAndParseJSON]. *)
Definition generate (noData : string) (reply : Promise json) : json + Error :=
  match reply with
  | Rejected reason => inr reason
  | Resolved JNull => inr typeError
  | Resolved data =>
      let text :=        (* data.choices?.[0]?.message?.content *)
        chain (prop "content") (chain (prop "message")
          (chain first (prop "choices" data))) in
      if negb (truthyU isZero text) then inr (mkError noData)
      else match text with
           | Some (JStr s) => cleanAndParseJSON JSON_parse s
           | _ => inr ParseError
           end
  end.

Definition generateMindMapData := generate "No data generated".
Definition generateProjectionData := generate "No projection generated".
Definition generateComparisonData := generate "No comparison data generated".
Definition generateDecisionTree := generate "No decision tree generated".
Definition generateSWOTAnalysis := generate "No SWOT analysis generated".
Definition generateCostBenefit := generate "No cost-benefit analysis generated".
Definition generateTimelineData := generate "No timeline data generated".

End Tail.

End Generation.
(* ===================================================================== *)
(** * Vocabulary of the further theorems *)
(* ===================================================================== *)

Module TreeProps.
Import JS Regex Types MindMap Props.

(** A node as the drawing code needs it: an id, a [children] array and a
    weight that is neither missing nor zero. *)
Definition usable (n : MindMapNode) : Prop :=
  id n <> ""
  /\ (exists cs, children n = Some cs)
  /\ (exists w, weight n = Some w /\ w <> 0%Z).

(** What [sanitizeData] leaves alone in every node. *)
Definition content (n : MindMapNode) : string * NodeType * option bool * option bool :=
  (name n, type n, isRecommendation n, collapsed n).

(** A tree with the fields that [sanitizeData] may fill left out: the ids
    and the weights are blanked, and a missing [children] reads as an empty
    array.  Two trees with the same [bare] tree have the same nesting, and
    node for node the same name, kind and flags. *)
Fixpoint bare (t : MindMapNode) : MindMapNode :=
  match t with
  | mkNode _ name0 type0 children0 _ rec0 collapsed0 =>
      mkNode "" name0 type0
             (Some (match children0 with
                    | Some cs => map bare cs
                    | None => []
                    end))
             None rec0 collapsed0
  end.

(** The edges of a tree: every node with each of its children, a child's
    edge before the edges below that child. *)
Fixpoint edgesOf (t : MindMapNode) : list (MindMapNode * MindMapNode) :=
  match t with
  | mkNode _ _ _ children0 _ _ _ =>
      match children0 with
      | Some cs => flat_map (fun child => (t, child) :: edgesOf child) cs
      | None => []
      end
  end.

(** The link that [flattenGraph] draws for an edge. *)
Definition linkOf (e : MindMapNode * MindMapNode) : MindMapLink :=
  mkLink (id (fst e)) (id (snd e)).

(** The fields of an input node that [sanitizeData] only fills when they are
    missing: they stay when they are there. *)
Definition keptIn (old new : MindMapNode) : Prop :=
  (id old <> "" -> id new = id old)
  /\ (forall w, weight old = Some w -> w <> 0%Z -> weight new = Some w).

(** The three steps of [sanitizeData] on one node, by name: the children as
    the [map] callback numbers them, the id, the weight. *)
Definition eachFrom (depth : nat) (newId : string) :=
  fix each (cs : list MindMapNode) (idx : nat) : list MindMapNode :=
    match cs with
    | [] => []
    | child :: cs' => sanitizeData child (S depth) idx newId :: each cs' (S idx)
    end.

Definition newIdOf (id0 name0 parentId : string) (depth index : nat) : string :=
  if (id0 =? "")%string then
    parentId +:+ "-"
    +:+ toLowerCase (replaceAll false spacesRe "-"
                       (if (name0 =? "")%string then "node" else name0))
    +:+ "-" +:+ showNat depth +:+ "-" +:+ showNat index
  else id0.

Definition newWeightOf (weight0 : option Z) : Z :=
  match weight0 with
  | Some w => if (w =? 0)%Z then 1%Z else w
  | None => 1%Z
  end.

End TreeProps.

Module MiningProps.
Import JS Regex Types InstantMindMap MindMap Props.

(** A node as the extractor mines it: a leaf of kind option, pro or con,
    with an id and a weight of at most 10. *)
Definition minedLeaf (n : MindMapNode) : Prop :=
  children n = None
  /\ (type n = TOption \/ type n = TPro \/ type n = TCon)
  /\ id n <> ""
  /\ (exists w, weight n = Some w /\ (w <= 10)%Z).

(** The topic node of a tree, over the mined nodes. *)
Definition topicOver (topic : MindMapNode) (mined : list MindMapNode) : Prop :=
  type topic = TTopic /\ weight topic = Some 8%Z /\ children topic = Some mined.


(** The user's messages of a conversation, as [generateInstantMindMap]
    filters them. *)
Definition userMessagesOf (messages : list Message) : list Message :=
  List.filter (fun m => Role_eqb (role m) user) messages.

(** The names of [l] are those of [base] followed by new ones, each of them
    once. *)
Definition grows (base : list string) (l : list MindMapNode) : Prop :=
  exists added,
    map name l = base ++ added /\ NoDup added /\ Forall (fun x => x ∉ base) added.

End MiningProps.

Module IdProps.
Import JS Regex Types InstantMindMap Props.

(** The ids that [extractFromAIMessage] writes, by the step that writes them
    and the numbers that enter them. *)
Inductive idKey : Type :=
| KOption (i j : nat)
| KBold (i : nat)
| KBullet (n : nat)
| KNum (n : nat)
| KRec.

Definition render (timestamp : Z) (k : idKey) : string :=
  match k with
  | KOption i j =>
      "option-" +:+ showZ timestamp +:+ "-" +:+ showNat i +:+ "-" +:+ showNat j
  | KBold i => "bold-" +:+ showZ timestamp +:+ "-" +:+ showNat i
  | KBullet n => "bullet-" +:+ showZ timestamp +:+ "-" +:+ showNat n
  | KNum n => "num-" +:+ showZ timestamp +:+ "-" +:+ showNat n
  | KRec => "rec-" +:+ showZ timestamp
  end.

(** The first two characters of an id tell its step. *)
Definition stepOf (k : idKey) : string :=
  match k with
  | KOption _ _ => "op"
  | KBold _ => "bo"
  | KBullet _ => "bu"
  | KNum _ => "nu"
  | KRec => "re"
  end.

(** The ids of [nodes] are those of [keys], which are pairwise distinct;
    the header ids come from matches before the [k]-th, the bullet and
    numbered ids from lengths that the list has outgrown, and the
    recommendation id is not among them. *)
Definition tracked (timestamp : Z) (k : nat) (nodes : list MindMapNode)
    (keys : list idKey) : Prop :=
  map id nodes = map (render timestamp) keys
  /\ NoDup keys
  /\ (forall i, KBold i ∈ keys -> i < k)
  /\ (forall n, KBullet n ∈ keys -> n < length keys)
  /\ (forall n, KNum n ∈ keys -> n < length keys)
  /\ KRec ∉ keys.

(** The assistant's messages of a conversation, as [generateInstantMindMap]
    filters them. *)
Definition aiMessagesOf (messages : list Message) : list Message :=
  List.filter (fun m => Role_eqb (role m) model) messages.

End IdProps.

Module TopicProps.
Import JS Regex Types InstantMindMap.

(** Every character of [s] is in the class [p]. *)
Fixpoint allOf (p : ascii -> bool) (s : string) : bool :=
  match s with
  | "" => true
  | String c s' => p c && allOf p s'
  end.

(** The words of a question: letters, digits, underscores and white space,
    one character or more, followed by the end of the text or by a character
    that is none of these. *)
Definition wordsThen (w rest : string) : Prop :=
  w <> "" /\ allOf wordOrSpace w = true /\ stopsAt wordOrSpace rest.

End TopicProps.

Module StreamProps.
Import JS DeepseekService ChatStream Props.

(** The text of a stream, whatever the chunks it comes in. *)
Definition whole (chunks : list string) : string := fold_right String.append "" chunks.

(** A payload as a server writes it after [data: ]: one line, not empty and
    with no white space at either end. *)
Definition payload (d : string) : Prop :=
  startsClean d = true /\ endsClean d = true /\ indexOf LF d = (-1)%Z.

(** The event that carries a payload, with the blank line that ends it. *)
Definition eventOf (d : string) : string :=
  "data: " +:+ d +:+ String LF (String LF "").

(** A character put before the first piece of a split. *)
Definition onHead (c : ascii) (l : list string) : list string :=
  match l with
  | w :: ws => String c w :: ws
  | [] => [String c ""]
  end.

End StreamProps.

Module GenerationProps.
Import JS Types DeepseekService App.

(** An object or an array: the values that are truthy whatever they hold. *)
Definition structured (v : json) : Prop :=
  (exists members, v = JObj members) \/ (exists items, v = JArr items).

End GenerationProps.
(* ===================================================================== *)
(** * Further concrete runs *)
(* ===================================================================== *)

Module StreamExamples.
Import JS DeepseekService ChatStream StreamProps.

Definition Q : string := String DQ "".

(** The payload of a streamed piece of the answer:
    [{"choices":[{"delta":{"content":"..."}}]}]. *)
Definition deltaOf (piece : string) : string :=
  "{" +:+ Q +:+ "choices" +:+ Q +:+ ":[{" +:+ Q +:+ "delta" +:+ Q +:+ ":{"
  +:+ Q +:+ "content" +:+ Q +:+ ":" +:+ Q +:+ piece +:+ Q +:+ "}}]}".

(** A stream of two pieces and the end marker, followed by the beginning of
    an event that no blank line ends. *)
Definition helloPayloads : list string := [deltaOf "Hel"; deltaOf "lo"; "[DONE]"].
Definition helloTail : string := "data: {" +:+ Q +:+ "cho".
Definition helloText : string := whole (map eventOf helloPayloads) +:+ helloTail.

(** The same stream, cut after its first 40 characters and again after the
    first line feed of a blank line. *)
Definition helloChunks : list string :=
  [take 40 helloText;
   drop 40 (take (String.length (eventOf (deltaOf "Hel")) - 1) helloText);
   drop (String.length (eventOf (deltaOf "Hel")) - 1) helloText].

(** The runs above read no number and append no value that is not a string:
    any choice of the two platform functions serves. *)
Definition noZero : string -> bool := fun _ => false.
Definition showNothing : json -> string := fun _ => "".

End StreamExamples.

Module ChatExamples.
Import JS Types DeepseekService App Chat.

(** A conversation of one exchange, and a new question in the input box. *)
Definition askingAgain : State :=
  mkState [mkEntry user "Hi" 1 None; mkEntry model "Hello." 2 (Some false)]
          "Should I move?" false None.

(** A clock that ticks once per reading. *)
Definition ticking : nat -> Z := fun k => (100 + Z.of_nat k)%Z.

Definition timeout : Error := mkError "timeout".

End ChatExamples.

(* ===================================================================== *)
(** * Strings *)
(* ===================================================================== *)

Module StringFacts.
Import JS.

(** ** Concatenation *)

Lemma append_cons x a b : String x a +:+ b = String x (a +:+ b).
Proof. reflexivity. Qed.

Lemma append_nil_l b : "" +:+ b = b.
Proof. reflexivity. Qed.

Lemma append_assoc a b c : (a +:+ b) +:+ c = a +:+ (b +:+ c).
Proof.
  induction a as [|x a IH]; [reflexivity|]. by rewrite !append_cons, IH.
Qed.

Lemma append_nil_r a : a +:+ "" = a.
Proof. induction a as [|x a IH]; [reflexivity|]. by rewrite append_cons, IH. Qed.

Lemma length_append a b : String.length (a +:+ b) = String.length a + String.length b.
Proof.
  induction a as [|x a IH]; [reflexivity|]. rewrite append_cons. simpl. by rewrite IH.
Qed.

Lemma take_append a b : take (String.length a) (a +:+ b) = a.
Proof.
  induction a as [|x a IH]; [by destruct b|]. rewrite append_cons. simpl. by rewrite IH.
Qed.

Lemma drop_append a b : drop (String.length a) (a +:+ b) = b.
Proof. induction a as [|x a IH]; [by destruct b|]. rewrite append_cons. apply IH. Qed.

Lemma drop_drop a s : forall b, drop a (drop b s) = drop (b + a) s.
Proof.
  induction s as [|c s IH]; intros [|b]; simpl; try reflexivity.
  - by destruct a.
  - apply IH.
Qed.

(** ** [indexOf] and [lastIndexOf] *)

Lemma indexOf_absent_cons c d s :
  indexOf c (String d s) = (-1)%Z <-> d <> c /\ indexOf c s = (-1)%Z.
Proof.
  simpl. destruct (Ascii.eqb_spec d c) as [->|Hne].
  - split; [discriminate|]. intros [H _]. by destruct H.
  - destruct (Z.eqb_spec (indexOf c s) (-1)) as [E|E].
    + by split.
    + split; [|tauto]. intros H.
      assert (Hge : (-1 <= indexOf c s)%Z).
      { clear. induction s as [|e s IH]; simpl; [lia|].
        destruct (e =? c)%char; [lia|].
        destruct (indexOf c s =? -1)%Z; lia. }
      lia.
Qed.

Lemma indexOf_lower c s : (-1 <= indexOf c s)%Z.
Proof.
  induction s as [|e s IH]; simpl; [lia|].
  destruct (e =? c)%char; [lia|]. destruct (indexOf c s =? -1)%Z; lia.
Qed.

Lemma lastIndexOf_lower c s : (-1 <= lastIndexOf c s)%Z.
Proof.
  induction s as [|e s IH]; simpl; [lia|].
  destruct (lastIndexOf c s =? -1)%Z; [destruct (e =? c)%char|]; lia.
Qed.

Lemma absent_drop c s : forall n, indexOf c s = (-1)%Z -> indexOf c (drop n s) = (-1)%Z.
Proof.
  induction s as [|d s IH]; intros [|n] H; simpl drop; try exact H.
  apply indexOf_absent_cons in H as [_ H]. by apply IH.
Qed.

Lemma lastIndexOf_absent c s : lastIndexOf c s = (-1)%Z <-> indexOf c s = (-1)%Z.
Proof.
  induction s as [|d s IH]; [done|].
  rewrite indexOf_absent_cons, <- IH. simpl.
  pose proof (lastIndexOf_lower c s).
  destruct (Z.eqb_spec (lastIndexOf c s) (-1)), (Ascii.eqb_spec d c); split; intros; try lia;
    intuition congruence.
Qed.


Lemma absent_append c a b :
  indexOf c (a +:+ b) = (-1)%Z <-> indexOf c a = (-1)%Z /\ indexOf c b = (-1)%Z.
Proof.
  induction a as [|x a IH]; [rewrite append_nil_l; simpl; tauto|].
  rewrite append_cons, !indexOf_absent_cons, IH. tauto.
Qed.

End StringFacts.

(* ===================================================================== *)
(** * Regular expressions: every match advances *)
(* ===================================================================== *)

Module RegexFacts.
Import JS Regex StringFacts.

Lemma orElse_Some {R} (a b : option R) x :
  orElse a b = Some x -> a = Some x \/ (a = None /\ b = Some x).
Proof. destruct a; simpl; intros H; [left|right]; auto. Qed.

Lemma rep_advances {R} p (k : cont R) rest :
  forall lo hi pos cs x,
    rep p k lo hi pos cs rest = Some x -> handsOn k (Rep p lo hi) pos rest x.
Proof.
  unfold handsOn. simpl minLen.
  induction rest as [|c rest IH]; intros lo hi pos cs x H; simpl in H.
  - destruct lo; [|discriminate]. exists pos, cs.
    rewrite Nat.sub_diag. split; [exact H|lia].
  - assert (Hstop : match lo with 0 => k pos (String c rest) cs | S _ => None end = Some x ->
                    exists pos' cs',
                      k pos' (drop (pos' - pos) (String c rest)) cs' = Some x
                      /\ pos + lo <= pos').
    { destruct lo; [|discriminate]. intros Hk.
      exists pos, cs. rewrite Nat.sub_diag. split; [exact Hk|lia]. }
    destruct (p c && hiLeft hi); [|auto].
    apply orElse_Some in H as [H|[_ H]]; [|auto].
    apply IH in H as (pos' & cs' & Hk & Hle).
    exists pos', cs'. split; [|lia].
    replace (pos' - pos) with (S (pos' - S pos)) by lia. exact Hk.
Qed.

Lemma run_advances {R} ic r :
  forall (k : cont R) pos rest cs x,
    run ic r k pos rest cs = Some x -> handsOn k r pos rest x.
Proof.
  unfold handsOn.
  induction r as [| | |c|p|r1 IH1 r2 IH2|r1 IH1 r2 IH2|p lo hi|i r1 IH1];
    intros k pos rest cs x H; simpl in H |- *.
  - exists pos, cs. rewrite Nat.sub_diag. split; [exact H|lia].
  - destruct (pos =? 0); [|discriminate].
    exists pos, cs. rewrite Nat.sub_diag. split; [exact H|lia].
  - destruct rest; [|discriminate].
    exists pos, cs. rewrite Nat.sub_diag. split; [exact H|lia].
  - destruct rest as [|d rest]; [discriminate|].
    destruct (chrMatch ic c d); [|discriminate].
    exists (S pos), cs. replace (S pos - pos) with 1 by lia. split; [exact H|lia].
  - destruct rest as [|d rest]; [discriminate|].
    destruct (p d); [|discriminate].
    exists (S pos), cs. replace (S pos - pos) with 1 by lia. split; [exact H|lia].
  - apply IH1 in H as (pos1 & cs1 & H & Hle1).
    apply IH2 in H as (pos2 & cs2 & H & Hle2).
    exists pos2, cs2. split; [|lia].
    rewrite drop_drop in H. replace (pos2 - pos) with (pos1 - pos + (pos2 - pos1)) by lia.
    exact H.
  - apply orElse_Some in H as [H|[_ H]].
    + apply IH1 in H as (pos1 & cs1 & H & Hle).
      exists pos1, cs1. split; [exact H|lia].
    + apply IH2 in H as (pos1 & cs1 & H & Hle).
      exists pos1, cs1. split; [exact H|lia].
  - apply (rep_advances p k rest lo hi pos cs x H).
  - apply IH1 in H as (pos1 & cs1 & H & Hle).
    exists pos1, ((i, take (pos1 - pos) rest) :: cs1). split; [exact H|exact Hle].
Qed.

Lemma execAt_advances ic r pos rest m :
  execAt ic r pos rest = Some m ->
  index m = pos /\ pos + minLen r <= lastIndex m
  /\ after m = drop (lastIndex m - pos) rest.
Proof.
  unfold execAt. intros H.
  apply run_advances in H as (pos' & cs' & H & Hle).
  injection H as <-. simpl. split; [reflexivity|]. split; [exact Hle|reflexivity].
Qed.

(** Each turn of the two [while (pattern.exec(text))] loops of the extractor
    moves [lastIndex] forward, by five characters or more. *)
Lemma exec_loops_advance pos rest m :
  execAt false InstantMindMap.bulletPattern pos rest = Some m
  \/ execAt false InstantMindMap.numberedPattern pos rest = Some m ->
  pos + 5 <= lastIndex m.
Proof.
  intros [H|H]; apply execAt_advances in H as (_ & H & _); simpl in H; lia.
Qed.

End RegexFacts.

(* ===================================================================== *)
(** * The extractor: shape of the result *)
(* ===================================================================== *)

Module ExtractorFacts.
Import JS Regex Types InstantMindMap MindMap Props Examples.

(** ** Results are independent of the clock, ids apart *)

Lemma eraseIds_name n : name (eraseIds n) = name n.
Proof. by destruct n. Qed.

Lemma eraseIds_type n : type (eraseIds n) = type n.
Proof. by destruct n. Qed.

Lemma eraseIds_promote n n' :
  eraseIds n = eraseIds n' -> eraseIds (promote n) = eraseIds (promote n').
Proof. destruct n, n'; simpl. intros H; injection H; intros; congruence. Qed.

Lemma eraseIds_leaf i i' n t w : eraseIds (leaf i n t w) = eraseIds (leaf i' n t w).
Proof. reflexivity. Qed.

Lemma alike_length l l' : alike l l' -> length l = length l'.
Proof.
  unfold alike. intros H. apply (f_equal (@length _)) in H.
  by rewrite !length_map in H.
Qed.

Lemma alike_app l1 l1' l2 l2' : alike l1 l1' -> alike l2 l2' -> alike (l1 ++ l2) (l1' ++ l2').
Proof. unfold alike. intros H1 H2. by rewrite !map_app, H1, H2. Qed.

Lemma blind_named s : blind (named s).
Proof.
  intros n n' H. unfold named.
  by rewrite <- (eraseIds_name n), <- (eraseIds_name n'), H.
Qed.

Lemma blind_fuzzy r : blind (fuzzy r).
Proof.
  intros n n' H. unfold fuzzy.
  by rewrite <- (eraseIds_name n), <- (eraseIds_name n'), H.
Qed.

Lemma blind_isOption : blind isOption.
Proof.
  intros n n' H. unfold isOption.
  by rewrite <- (eraseIds_type n), <- (eraseIds_type n'), H.
Qed.

Lemma alike_existsb p l l' : blind p -> alike l l' -> existsb p l = existsb p l'.
Proof.
  intros Hp. unfold alike. revert l'.
  induction l as [|n l IH]; intros [|n' l'] H; simpl in *; try discriminate; auto.
  injection H as Hn Hl. by rewrite (Hp n n' Hn), (IH l' Hl).
Qed.

Lemma alike_updateFirst p l l' :
  blind p -> alike l l' -> alike (updateFirst p promote l) (updateFirst p promote l').
Proof.
  intros Hp. unfold alike. revert l'.
  induction l as [|n l IH]; intros [|n' l'] H; simpl in *; try discriminate; auto.
  injection H as Hn Hl. rewrite (Hp n n' Hn).
  destruct (p n').
  - change (eraseIds (promote n) :: map eraseIds l
            = eraseIds (promote n') :: map eraseIds l').
    f_equal; [by apply eraseIds_promote|exact Hl].
  - change (eraseIds n :: map eraseIds (updateFirst p promote l)
            = eraseIds n' :: map eraseIds (updateFirst p promote l')).
    f_equal; [exact Hn|exact (IH l' Hl)].
Qed.

Lemma alike_fold {A} (f f' : list MindMapNode -> A -> list MindMapNode) (ms : list A) :
  (forall l l' m, alike l l' -> alike (f l m) (f' l' m)) ->
  forall l l', alike l l' -> alike (fold_left f ms l) (fold_left f' ms l').
Proof.
  intros Hf. induction ms as [|m ms IH]; intros l l' H; simpl; auto.
Qed.

Lemma map_imap {A B C} (g : B -> C) (l : list A) :
  forall f : nat -> A -> B, map g (imap f l) = imap (fun i a => g (f i a)) l.
Proof. induction l as [|a l IH]; intros f; simpl; [reflexivity|]. f_equal. apply IH. Qed.

Lemma alike_optionNodes ts ts' i i' m : alike (optionNodes ts i m) (optionNodes ts' i' m).
Proof. unfold alike, optionNodes. rewrite !map_imap. reflexivity. Qed.

Lemma alike_concat_imap {A} (l : list A) :
  forall f f' : nat -> A -> list MindMapNode,
    (forall i i' a, alike (f i a) (f' i' a)) ->
    alike (concat (imap f l)) (concat (imap f' l)).
Proof.
  induction l as [|a l IH]; intros f f' Hf; simpl; [reflexivity|].
  apply alike_app; [apply Hf|]. apply IH. intros i i' b. apply Hf.
Qed.

Lemma alike_step1 ts ts' text : alike (step1 ts text) (step1 ts' text).
Proof.
  unfold step1. apply alike_concat_imap. intros i i' m. apply alike_optionNodes.
Qed.

Lemma alike_pushBold ts ts' l l' im :
  alike l l' -> alike (pushBold ts l im) (pushBold ts' l' im).
Proof.
  intros H. unfold pushBold, someNamed.
  rewrite (alike_existsb _ l l' (blind_named _) H).
  destruct (_ && _); [|exact H]. by apply alike_app.
Qed.

Lemma alike_pushBullet ts ts' l l' m :
  alike l l' -> alike (pushBullet ts l m) (pushBullet ts' l' m).
Proof.
  intros H. unfold pushBullet, someNamed.
  rewrite (alike_existsb _ l l' (blind_named _) H).
  destruct (_ && _); [|exact H]. by apply alike_app.
Qed.

Lemma alike_pushNumbered ts ts' l l' m :
  alike l l' -> alike (pushNumbered ts l m) (pushNumbered ts' l' m).
Proof.
  intros H. unfold pushNumbered, someNamed.
  rewrite (alike_existsb _ l l' (blind_named _) H).
  destruct (_ && _); [|exact H]. by apply alike_app.
Qed.

Lemma alike_step5 ts ts' text l l' :
  alike l l' -> alike (step5 ts text l) (step5 ts' text l').
Proof.
  intros H. unfold step5.
  destruct (search true recPattern text) as [recMatch|]; [|exact H].
  destruct (_ =? _)%string; [exact H|].
  rewrite (alike_existsb _ l l' (blind_fuzzy _) H).
  destruct (existsb _ l').
  - apply alike_updateFirst; [apply blind_fuzzy|exact H].
  - by apply alike_app.
Qed.

Lemma alike_extract ts ts' text idx idx' :
  alike (extractFromAIMessage ts text idx) (extractFromAIMessage ts' text idx').
Proof.
  unfold extractFromAIMessage, step4, step3, step2.
  apply alike_step5.
  apply alike_fold; [intros; by apply alike_pushNumbered|].
  apply alike_fold; [intros; by apply alike_pushBullet|].
  apply alike_fold; [intros; by apply alike_pushBold|].
  apply alike_step1.
Qed.

Lemma alike_mineAll now now' ms : alike (mineAll now ms) (mineAll now' ms).
Proof.
  unfold mineAll. apply alike_concat_imap. intros i i' a. apply alike_extract.
Qed.

(** C9. Two runs of the extractor over the same message list, whatever the
    clock shows during either, return trees that agree on every name, kind,
    weight and recommendation flag and on the nesting and order of the
    children: the time read during extraction reaches the ids and nothing
    else. *)
Theorem C9_extraction_repeatable_up_to_ids now now' messages :
  eraseIds (generateInstantMindMap now messages)
  = eraseIds (generateInstantMindMap now' messages).
Proof.
  unfold generateInstantMindMap.
  destruct (length messages =? 0); [reflexivity|].
  destruct (_ =? _)%string; [reflexivity|].
  simpl. do 5 f_equal.
  apply alike_updateFirst; [apply blind_isOption|apply alike_mineAll].
Qed.

(** ** The root *)

(** C8. The extractor is a function of its message list (and of the clock)
    that always returns a node: the root "Thought Space", of kind root and
    weight 10, with a list of children; for the empty message list the list
    of children is empty. *)
Theorem C8_extract_total_empty_gives_minimal_root now :
  generateInstantMindMap now []
  = mkNode "root-instant" "Thought Space" TRoot (Some []) (Some 10%Z) None None
  /\ forall messages, exists children,
       generateInstantMindMap now messages
       = mkNode "root-instant" "Thought Space" TRoot (Some children) (Some 10%Z) None None.
Proof.
  split; [reflexivity|].
  intros messages. unfold generateInstantMindMap.
  destruct (length messages =? 0); [by eexists|].
  destruct (_ =? _)%string; by eexists.
Qed.

End ExtractorFacts.

(* ===================================================================== *)
(** * The extractor: reading a bracket list *)
(* ===================================================================== *)

Module BracketFacts.
Import JS Regex Types InstantMindMap Props StringFacts.

(** ** Trimming a padded choice *)

Lemma startsClean_trimStart w : startsClean w = true -> trimStart w = w.
Proof. destruct w as [|c w]; simpl; [done|]. by destruct (isSpace c). Qed.

Lemma endsClean_trimEnd w : endsClean w = true -> trimEnd w = w.
Proof.
  induction w as [|c w IH]; simpl; [done|].
  destruct w as [|d w].
  - simpl. by destruct (isSpace c).
  - intros H. rewrite (IH H). reflexivity.
Qed.

Lemma endsClean_nonempty w : endsClean w = true -> w <> "".
Proof. by destruct w. Qed.






(** ** Splitting at the pipes *)

Lemma splitChar_absent c w : indexOf c w = (-1)%Z -> splitChar c w = [w].
Proof.
  induction w as [|d w IH]; [done|].
  intros H. apply indexOf_absent_cons in H as [Hd Hw].
  simpl. destruct (Ascii.eqb_spec d c) as [E|_]; [contradiction|].
  by rewrite (IH Hw).
Qed.


(** ** Running the patterns of step 1 *)

Lemma chrMatch_refl ic c : chrMatch ic c c = true.
Proof. unfold chrMatch. destruct ic; apply Ascii.eqb_refl. Qed.

Lemma run_Lit {R} ic s (k : cont R) rest :
  forall pos cs,
    run ic (Lit s) k pos (s +:+ rest) cs = k (pos + String.length s) rest cs.
Proof.
  induction s as [|c s IH]; intros pos cs; simpl.
  - by rewrite Nat.add_0_r.
  - rewrite chrMatch_refl, IH. f_equal. lia.
Qed.

(** A greedy quantifier reads a whole run of characters of its class when
    the continuation succeeds on what follows the run. *)
Lemma rep_whole {R} p (k : cont R) body rest x :
  forall lo pos cs,
    (forall c, indexOf c body <> (-1)%Z -> p c = true) ->
    stopsAt p rest ->
    lo <= String.length body ->
    k (pos + String.length body) rest cs = Some x ->
    rep p k lo None pos cs (body +:+ rest) = Some x.
Proof.
  induction body as [|c body IH]; intros lo pos cs Hp Hstop Hlo Hk.
  - simpl in Hlo, Hk. replace lo with 0 by lia. rewrite Nat.add_0_r in Hk.
    rewrite append_nil_l.
    destruct rest as [|d rest]; simpl; [exact Hk|].
    simpl in Hstop. rewrite Hstop. exact Hk.
  - rewrite append_cons. simpl.
    rewrite (Hp c) by (simpl; rewrite Ascii.eqb_refl; lia). simpl.
    rewrite (IH (pred lo) (S pos) cs); [reflexivity| |exact Hstop| |].
    + intros d Hd. apply Hp. simpl.
      destruct (c =? d)%char; [lia|].
      destruct (Z.eqb_spec (indexOf d body) (-1)); [contradiction|].
      pose proof (indexOf_lower d body). lia.
    + simpl in Hlo. lia.
    + simpl in Hk. rewrite <- Hk. f_equal. lia.
Qed.

Lemma present_not_absent (c d : ascii) body :
  indexOf d body = (-1)%Z -> indexOf c body <> (-1)%Z -> c <> d.
Proof. intros Hd Hc ->. contradiction. Qed.

Lemma present_single (c d : ascii) : indexOf c (String d "") <> (-1)%Z -> c = d.
Proof.
  simpl. destruct (Ascii.eqb_spec d c) as [->|_]; [reflexivity|]. intros H. by destruct H.
Qed.

Lemma isNot_present d body c :
  indexOf d body = (-1)%Z -> indexOf c body <> (-1)%Z -> isNot [d] c = true.
Proof.
  intros Hd Hc. unfold isNot. simpl.
  destruct (Ascii.eqb_spec c d) as [E|_]; [|reflexivity].
  by destruct (present_not_absent c d body Hd Hc).
Qed.

Lemma startsClean_stops w rest : startsClean w = true -> stopsAt isSpace (w +:+ rest).
Proof.
  destruct w as [|c w]; [done|]. rewrite append_cons. simpl.
  by destruct (isSpace c).
Qed.

(** The pattern of the bracket lists, run on a bracket list. *)
Lemma execAt_optionsRe pos body post :
  startsClean body = true -> indexOf "]" body = (-1)%Z ->
  execAt true optionsRe pos ("[OPTIONS: " +:+ body +:+ "]" +:+ post)
  = Some (mkMatch pos (pos + (11 + String.length body))
                  ("[OPTIONS: " +:+ body +:+ "]") [(1, body)] post).
Proof.
  intros Hclean Hbody. unfold execAt, optionsRe, Cat. cbn [fold_right run].
  change ("[OPTIONS: " +:+ body +:+ "]" +:+ post)
    with ("[OPTIONS:" +:+ String " " (body +:+ "]" +:+ post)).
  rewrite run_Lit. unfold Star, Plus. cbn [run].
  change (String " " (body +:+ "]" +:+ post)) with (" " +:+ body +:+ "]" +:+ post).
  apply rep_whole.
  - intros c Hc. by rewrite (present_single c " " Hc).
  - by apply startsClean_stops.
  - simpl. lia.
  - apply rep_whole.
    + intros c Hc. by apply (isNot_present "]" body).
    + reflexivity.
    + destruct body; [discriminate|simpl; lia].
    + rewrite append_cons, append_nil_l. cbn [run].
      rewrite chrMatch_refl. simpl String.length.
      f_equal. f_equal.
      * lia.
      * replace (S (pos + 9 + 1 + String.length body) - pos)
          with (String.length ("[OPTIONS: " +:+ body +:+ "]")).
        -- change ("[OPTIONS:" +:+ " " +:+ body +:+ String "]" post)
             with ("[OPTIONS: " +:+ body +:+ "]" +:+ post).
           rewrite <- (append_assoc body "]" post).
           rewrite <- (append_assoc "[OPTIONS: " (body +:+ "]") post).
           apply take_append.
        -- rewrite !length_append. simpl. lia.
      * replace (pos + 9 + 1 + String.length body - (pos + 9 + 1))
          with (String.length body) by lia.
        by rewrite take_append.
Qed.

Lemma lowerChar_bracket d : lowerChar d = "["%char -> d = "["%char.
Proof.
  destruct d as [[] [] [] [] [] [] [] []]; vm_compute; intros H;
    first [reflexivity | discriminate H].
Qed.

(** Nothing but an opening bracket starts a bracket list. *)
Lemma execAt_optionsRe_miss pos s :
  stopsAt (fun d => (d =? "[")%char) s -> execAt true optionsRe pos s = None.
Proof.
  intros Hs. unfold execAt, optionsRe, Cat. cbn [fold_right Lit run].
  destruct s as [|d s]; [reflexivity|]. simpl in Hs.
  unfold chrMatch.
  destruct (Ascii.eqb_spec (lowerChar "[") (lowerChar d)) as [E|_]; [|reflexivity].
  symmetry in E. apply lowerChar_bracket in E. subst d.
  by rewrite Ascii.eqb_refl in Hs.
Qed.

Lemma absent_stops c s : indexOf c s = (-1)%Z -> stopsAt (fun d => (d =? c)%char) s.
Proof.
  destruct s as [|d s]; [done|]. intros H.
  apply indexOf_absent_cons in H as [Hd _]. simpl.
  by destruct (Ascii.eqb_spec d c).
Qed.

Lemma scan_miss s :
  forall pos, indexOf "[" s = (-1)%Z -> scan true optionsRe 0 pos s = [].
Proof.
  induction s as [|d s IH]; intros pos H; cbn [scan].
  - by rewrite execAt_optionsRe_miss.
  - rewrite execAt_optionsRe_miss by (by apply absent_stops).
    apply indexOf_absent_cons in H as [_ H]. by apply IH.
Qed.

Lemma scan_pre pre R :
  forall pos,
    indexOf "[" pre = (-1)%Z ->
    scan true optionsRe 0 pos (pre +:+ R)
    = scan true optionsRe 0 (pos + String.length pre) R.
Proof.
  induction pre as [|d pre IH]; intros pos H.
  - rewrite append_nil_l. simpl. by rewrite Nat.add_0_r.
  - rewrite append_cons. cbn [scan].
    apply indexOf_absent_cons in H as [Hd H].
    rewrite execAt_optionsRe_miss by (simpl; by destruct (Ascii.eqb_spec d "[")).
    rewrite (IH (S pos) H). f_equal. simpl. lia.
Qed.

Lemma scan_skip ic r w post :
  forall pos,
    scan ic r (String.length w) pos (w +:+ post)
    = scan ic r 0 (pos + String.length w) post.
Proof.
  induction w as [|d w IH]; intros pos.
  - rewrite append_nil_l. simpl String.length. by rewrite Nat.add_0_r.
  - rewrite append_cons. simpl. rewrite IH. f_equal. lia.
Qed.

(** The one match that a text with one bracket list has. *)
Lemma matchAll_optionsRe pre body post :
  indexOf "[" pre = (-1)%Z -> indexOf "[" post = (-1)%Z ->
  startsClean body = true -> indexOf "]" body = (-1)%Z ->
  map matched (matchAll true optionsRe (pre +:+ ("[OPTIONS: " +:+ body +:+ "]") +:+ post))
  = ["[OPTIONS: " +:+ body +:+ "]"].
Proof.
  intros Hpre Hpost Hclean Hbody. unfold matchAll.
  rewrite scan_pre by exact Hpre.
  rewrite (append_assoc "[OPTIONS: " (body +:+ "]") post), append_assoc.
  set (pos := 0 + String.length pre).
  change ("[OPTIONS: " +:+ body +:+ "]" +:+ post)
    with (String "[" ("OPTIONS: " +:+ body +:+ "]" +:+ post)).
  cbn [scan].
  change (String "[" ("OPTIONS: " +:+ body +:+ "]" +:+ post))
    with ("[OPTIONS: " +:+ body +:+ "]" +:+ post).
  rewrite execAt_optionsRe by assumption. cbn [lastIndex map matched].
  f_equal.
  replace (pos + (11 + String.length body) - pos - 1)
    with (String.length ("OPTIONS: " +:+ body +:+ "]"))
    by (rewrite !length_append; simpl; lia).
  rewrite <- (append_assoc body "]" post).
  rewrite <- (append_assoc "OPTIONS: " (body +:+ "]") post).
  rewrite scan_skip, scan_miss by exact Hpost. reflexivity.
Qed.

(** ** The choices of a bracket list *)



Lemma search_at_start ic r s m : execAt ic r 0 s = Some m -> search ic r s = Some m.
Proof. intros H. unfold search. destruct s; cbn [searchFrom]; by rewrite H. Qed.



End BracketFacts.

(* ===================================================================== *)
(** * The extractor: recommendation, bracket lists, headers, ids *)
(* ===================================================================== *)

Module MiningFacts.
Import JS Regex Types InstantMindMap MindMap Props Examples MiningProps IdProps.

(** ** Mined nodes have no children *)

Lemma leafy_promote n : leafy n -> leafy (promote n).
Proof. by destruct n. Qed.

Lemma Forall_updateFirst {A} (P : A -> Prop) p f (l : list A) :
  (forall x, P x -> P (f x)) -> Forall P l -> Forall P (updateFirst p f l).
Proof.
  intros Hf. induction 1 as [|x l Hx Hl IH]; simpl; [constructor|].
  destruct (p x); constructor; auto.
Qed.

Lemma Forall_concat_imap {A B} (P : B -> Prop) (l : list A) :
  forall f : nat -> A -> list B,
    (forall i a, Forall P (f i a)) -> Forall P (concat (imap f l)).
Proof.
  induction l as [|a l IH]; intros f Hf; simpl; [constructor|].
  apply Forall_app; split; [apply Hf|]. apply IH. intros i b. apply Hf.
Qed.

Lemma Forall_imap {A B} (P : B -> Prop) (l : list A) :
  forall f : nat -> A -> B, (forall i a, P (f i a)) -> Forall P (imap f l).
Proof.
  induction l as [|a l IH]; intros f Hf; simpl; constructor; [apply Hf|].
  apply IH. intros i b. apply Hf.
Qed.

Lemma Forall_fold {A B} (P : B -> Prop) (f : list B -> A -> list B) (ms : list A) :
  (forall l m, Forall P l -> Forall P (f l m)) ->
  forall l, Forall P l -> Forall P (fold_left f ms l).
Proof. intros Hf. induction ms as [|m ms IH]; intros l H; simpl; auto. Qed.

Lemma Forall_snoc {B} (P : B -> Prop) l x : Forall P l -> P x -> Forall P (l ++ [x]).
Proof. intros Hl Hx. apply Forall_app; split; [exact Hl|by constructor]. Qed.

Lemma leafy_extract ts text idx : Forall leafy (extractFromAIMessage ts text idx).
Proof.
  unfold extractFromAIMessage, step5, step4, step3, step2, step1.
  set (n1 := concat _).
  assert (H1 : Forall leafy n1).
  { apply Forall_concat_imap. intros i m. apply Forall_imap. reflexivity. }
  set (n2 := fold_left (pushBold ts) _ n1).
  assert (H2 : Forall leafy n2).
  { apply Forall_fold; [|exact H1]. intros l m Hl. unfold pushBold.
    destruct (_ && _); [|exact Hl]. by apply Forall_snoc. }
  set (n3 := fold_left (pushBullet ts) _ n2).
  assert (H3 : Forall leafy n3).
  { apply Forall_fold; [|exact H2]. intros l m Hl. unfold pushBullet.
    destruct (_ && _); [|exact Hl]. by apply Forall_snoc. }
  set (n4 := fold_left (pushNumbered ts) _ n3).
  assert (H4 : Forall leafy n4).
  { apply Forall_fold; [|exact H3]. intros l m Hl. unfold pushNumbered.
    destruct (_ && _); [|exact Hl]. by apply Forall_snoc. }
  destruct (search true recPattern text); [|exact H4].
  destruct (_ =? _)%string; [exact H4|].
  destruct (existsb _ n4).
  - apply Forall_updateFirst; [apply leafy_promote|exact H4].
  - by apply Forall_snoc.
Qed.

Lemma leafy_mineAll now ms : Forall leafy (mineAll now ms).
Proof. apply Forall_concat_imap. intros i m. apply leafy_extract. Qed.

Lemma flatNodes_leafy l : Forall leafy l -> flat_map flatNodes l = l.
Proof.
  induction 1 as [|n l Hn Hl IH]; simpl; [reflexivity|].
  destruct n as [i nm t ch w r c]. unfold leafy in Hn; simpl in Hn. subst ch.
  simpl. by rewrite IH.
Qed.

(** ** The first option is promoted *)

Lemma filter_updateFirst {A} (p : A -> bool) f (l : list A) :
  (forall x, p (f x) = p x) ->
  List.filter p (updateFirst p f l)
  = match List.filter p l with [] => [] | x :: r => f x :: r end.
Proof.
  intros Hf. induction l as [|x l IH]; simpl; [reflexivity|].
  destruct (p x) eqn:Hx; simpl.
  - by rewrite Hf, Hx.
  - by rewrite Hx, IH.
Qed.

Lemma isOption_promote n : isOption (promote n) = isOption n.
Proof. by destruct n. Qed.

(** The option nodes of the tree are the option nodes mined, the first of
    them promoted. *)
Lemma optionsOf_generate now messages :
  optionsOf (generateInstantMindMap now messages) = []
  \/ exists x r, optionsOf (generateInstantMindMap now messages) = promote x :: r.
Proof.
  unfold optionsOf, nodesOf, generateInstantMindMap.
  destruct (length messages =? 0); [by left|].
  destruct (_ =? _)%string; [by left|].
  set (mined := mineAll now _).
  assert (Hleafy : Forall leafy (updateFirst isOption promote mined)).
  { apply Forall_updateFirst; [apply leafy_promote|apply leafy_mineAll]. }
  cbn [rootWith flatNodes flat_map List.filter isOption type NodeType_eqb app].
  rewrite app_nil_r, (flatNodes_leafy _ Hleafy), filter_updateFirst by apply isOption_promote.
  destruct (List.filter _ mined) as [|x r]; [by left|right; eauto].
Qed.

(** C2, as the code has it. Whenever the tree holds an option node, the first
    option node in mining order carries the recommendation flag and weight
    10: the extractor forces it, whether or not the recommendation matcher
    of the message pass has promoted a node of its own. *)
Theorem C2_first_option_always_recommended now messages :
  match optionsOf (generateInstantMindMap now messages) with
  | [] => True
  | first :: _ => isRecommendation first = Some true /\ weight first = Some 10%Z
  end.
Proof.
  destruct (optionsOf_generate now messages) as [->|(x & r & ->)]; [exact I|].
  by destruct x.
Qed.

(** C2 as stated fails. In this conversation the recommendation matcher
    finds and promotes "Switch"; the extractor forces the first option
    "Stay" all the same, and two siblings carry the flag. *)
Lemma C2_two_recommended_siblings :
  map look (extractFromAIMessage (sameMs 1) listAndAdvice 0)
  = [("Stay", TOption, Some 7%Z, None);
     ("Switch", TOption, Some 10%Z, Some true);
     ("Negotiate", TOption, Some 5%Z, None)]
  /\ map look (optionsOf (generateInstantMindMap sameMs jobTalk))
     = [("Stay", TOption, Some 10%Z, Some true);
        ("Switch", TOption, Some 10%Z, Some true);
        ("Negotiate", TOption, Some 5%Z, None)]
  /\ length (List.filter recommended
               (optionsOf (generateInstantMindMap sameMs jobTalk))) = 2.
Proof. vm_compute. repeat split. Qed.

(** ** Bracket lists *)










(** ** Bold headers *)

Lemma snd_imap {A B} (l : list A) :
  forall g : nat -> A -> B * A,
    (forall i a, snd (g i a) = a) -> map snd (imap g l) = l.
Proof.
  induction l as [|a l IH]; intros g Hg; simpl; [reflexivity|].
  rewrite Hg. f_equal. apply IH. intros i b. apply Hg.
Qed.

Lemma snd_indexed {A} (l : list A) : map snd (indexed l) = l.
Proof. unfold indexed. by apply snd_imap. Qed.

Lemma holds_app_l label l l' : holds label l -> holds label (l ++ l').
Proof. intros (n & Hn & H). exists n. split; [set_solver|exact H]. Qed.

Lemma holds_snoc label l i w :
  holds label (l ++ [leaf i label (classify label) w]).
Proof. eexists. split; [apply elem_of_app; right; by left|by split]. Qed.

Lemma someNamed_snoc label l n :
  someNamed label (l ++ [n]) = someNamed label l || named label n.
Proof. unfold someNamed. rewrite existsb_app. simpl. by rewrite orb_false_r. Qed.

(** One header more: a label not yet named stays so or gets its node. *)
Lemma pushBold_keeps ts label nodes im :
  someNamed label nodes = false \/ holds label nodes ->
  someNamed label (pushBold ts nodes im) = false
  \/ holds label (pushBold ts nodes im).
Proof.
  intros [Hno|Hyes]; unfold pushBold.
  - destruct (_ && _); [|by left].
    destruct (String.eqb_spec (labelOf (snd im)) label) as [->|Hne].
    + right. apply holds_snoc.
    + left. rewrite someNamed_snoc, Hno. simpl. unfold named. simpl.
      by apply String.eqb_neq.
  - right. destruct (_ && _); [by apply holds_app_l|exact Hyes].
Qed.

Lemma pushBold_hit ts label nodes im :
  labelOf (snd im) = label -> String.length label < 40 ->
  someNamed label nodes = false \/ holds label nodes ->
  holds label (pushBold ts nodes im).
Proof.
  intros <- Hlen [Hno|Hyes]; unfold pushBold.
  - rewrite Hno. destruct (Nat.ltb_spec (String.length (labelOf (snd im))) 40); [|lia].
    simpl. apply holds_snoc.
  - destruct (_ && _); [by apply holds_app_l|exact Hyes].
Qed.

Lemma fold_pushBold_holds ts label ms :
  forall nodes, holds label nodes -> holds label (fold_left (pushBold ts) ms nodes).
Proof.
  induction ms as [|im ms IH]; intros nodes H; simpl; [exact H|].
  apply IH. destruct (pushBold_keeps ts label nodes im (or_intror H)) as [Hno|Hyes];
    [|exact Hyes].
  unfold pushBold in *. destruct (_ && _); [by apply holds_app_l|exact H].
Qed.

Lemma step2_holds ts label ms :
  forall nodes,
    label ∈ map (fun im => labelOf (snd im)) ms -> String.length label < 40 ->
    someNamed label nodes = false \/ holds label nodes ->
    holds label (fold_left (pushBold ts) ms nodes).
Proof.
  induction ms as [|im ms IH]; intros nodes Hin Hlen Hq; simpl in *.
  - by apply elem_of_nil in Hin.
  - apply elem_of_cons in Hin as [Hhere|Hlater].
    + apply fold_pushBold_holds. by apply pushBold_hit.
    + apply IH; [exact Hlater|exact Hlen|by apply pushBold_keeps].
Qed.

Lemma holds_fold {A} label (f : list MindMapNode -> A -> list MindMapNode) ms :
  (forall l m, holds label l -> holds label (f l m)) ->
  forall l, holds label l -> holds label (fold_left f ms l).
Proof. intros Hf. induction ms as [|m ms IH]; intros l H; simpl; auto. Qed.

Lemma holds_updateFirst label p l :
  holds label l -> holds label (updateFirst p promote l).
Proof.
  intros (n & Hn & Hname & Htype).
  induction l as [|x l IH]; [by apply elem_of_nil in Hn|]. simpl.
  apply elem_of_cons in Hn as [->|Hn].
  - destruct (p x).
    + exists (promote x). split; [by left|]. by destruct x.
    + exists x. split; [by left|by split].
  - destruct (p x).
    + exists n. split; [by right|by split].
    + destruct (IH Hn) as (n' & Hn' & H'). exists n'. split; [by right|exact H'].
Qed.

(** A header that step 2 does match, with a label (markers and final
    colon taken off, trimmed) under 40 characters that names no node of
    step 1: the nodes mined from the text hold a node with that label as its
    name, of the kind that the label decides. *)
Lemma matched_header_kind ts text idx label :
  label ∈ map labelOf (map matched (matchAll false boldRe text)) ->
  String.length label < 40 ->
  someNamed label (step1 ts text) = false ->
  (exists n, n ∈ extractFromAIMessage ts text idx
             /\ name n = label /\ type n = classify label)
  /\ classify label
     = (let lowerLabel := toLowerCase label in
        if includes lowerLabel "pro" || includes lowerLabel "advantage"
           || includes lowerLabel "benefit" then TPro
        else if includes lowerLabel "con" || includes lowerLabel "disadvantage"
                || includes lowerLabel "risk" then TCon
        else TOption)
  /\ classify "Risk Factors" = TCon.
Proof.
  intros Hin Hlen Hfresh. split; [|by split].
  change (holds label (extractFromAIMessage ts text idx)).
  unfold extractFromAIMessage, step5, step4, step3, step2.
  set (n2 := fold_left (pushBold ts) _ _).
  assert (H2 : holds label n2).
  { apply step2_holds; [|exact Hlen|by left].
    rewrite <- (snd_indexed (map matched (matchAll false boldRe text))) in Hin.
    by rewrite map_map in Hin. }
  set (n3 := fold_left (pushBullet ts) _ n2).
  assert (H3 : holds label n3).
  { apply holds_fold; [|exact H2]. intros l m Hl. unfold pushBullet.
    destruct (_ && _); [by apply holds_app_l|exact Hl]. }
  set (n4 := fold_left (pushNumbered ts) _ n3).
  assert (H4 : holds label n4).
  { apply holds_fold; [|exact H3]. intros l m Hl. unfold pushNumbered.
    destruct (_ && _); [by apply holds_app_l|exact Hl]. }
  destruct (search true recPattern text); [|exact H4].
  destruct (_ =? _)%string; [exact H4|].
  destruct (existsb _ n4); [by apply holds_updateFirst|by apply holds_app_l].
Qed.

(** Not every matched header with "risk" in its label comes out as con: a
    name that a choice of the bracket list has taken stays an option, and
    "pro" is asked before "risk". *)
Lemma matched_header_not_always_con :
  map look (extractFromAIMessage 17 listThenHeader 0)
  = [("Risk Factors", TOption, Some 7%Z, None); ("Other", TOption, Some 6%Z, None)]
  /\ map look (extractFromAIMessage 17 riskProfile 0)
     = [("Risk Profile", TPro, Some 6%Z, None)].
Proof. vm_compute. repeat split. Qed.

(** ** The header with the colon inside *)

Lemma rep_reaches {R} p (k : cont R) rest :
  forall lo hi pos cs x,
    rep p k lo hi pos cs rest = Some x ->
    exists n, k (pos + n) (drop n rest) cs = Some x.
Proof.
  induction rest as [|c rest IH]; intros lo hi pos cs x H; simpl in H.
  - destruct lo; [|discriminate]. exists 0. by rewrite Nat.add_0_r.
  - assert (Hstop : match lo with 0 => k pos (String c rest) cs | S _ => None end = Some x ->
                    exists n, k (pos + n) (drop n (String c rest)) cs = Some x).
    { destruct lo; [|discriminate]. intros Hk. exists 0. by rewrite Nat.add_0_r. }
    destruct (p c && hiLeft hi); [|by apply Hstop].
    destruct (rep p k (pred lo) (pred <$> hi) (S pos) cs rest) as [y|] eqn:E.
    + simpl in H. injection H as ->. apply IH in E as [n Hn].
      exists (S n). simpl. by rewrite Nat.add_succ_r.
    + simpl in H. by apply Hstop.
Qed.

Lemma includes_drop sub n :
  forall s, String.prefix sub (drop n s) = true -> includes s sub = true.
Proof.
  induction n as [|n IH]; intros s H.
  - destruct s; simpl in *; by rewrite H.
  - destruct s as [|c s]; simpl in H.
    + simpl. by rewrite H.
    + cbn [includes]. rewrite (IH s H). apply orb_true_r.
Qed.

(** A match of the pattern of step 2 ends in the closing markers and a
    colon after them. *)
Lemma execAt_boldRe pos rest m :
  execAt false boldRe pos rest = Some m -> includes rest "**:" = true.
Proof.
  unfold execAt, boldRe. cbn [Cat fold_right Lit run].
  destruct rest as [|d1 [|d2 rest]]; try discriminate.
  - by destruct (chrMatch false "*" d1).
  - destruct (chrMatch false "*" d1); [|discriminate].
    destruct (chrMatch false "*" d2); [|discriminate].
    unfold Plus. cbn [run]. intros H. apply rep_reaches in H as [n H].
    cbn beta in H.
    destruct (drop n rest) as [|e1 [|e2 [|e3 tail]]] eqn:E; try discriminate.
    + by destruct (chrMatch false "*" e1).
    + destruct (chrMatch false "*" e1); [|discriminate].
      by destruct (chrMatch false "*" e2).
    + unfold chrMatch in H.
      destruct (Ascii.eqb_spec "*" e1) as [<-|]; [|discriminate].
      destruct (Ascii.eqb_spec "*" e2) as [<-|]; [|discriminate].
      destruct (Ascii.eqb_spec ":" e3) as [<-|]; [|discriminate].
      assert (Hin : includes rest "**:" = true).
      { apply (includes_drop _ n). rewrite E. cbn [String.prefix].
        repeat (destruct (ascii_dec _ _) as [_|Hc]; [|by contradiction Hc]).
        by destruct tail. }
      change (String.prefix "**:" (String d1 (String d2 rest))
              || (String.prefix "**:" (String d2 rest) || includes rest "**:") = true).
      by rewrite Hin, !orb_true_r.
Qed.

Lemma scan_boldRe rest :
  forall pos, includes rest "**:" = false -> scan false boldRe 0 pos rest = [].
Proof.
  induction rest as [|c rest IH]; intros pos H.
  - simpl. destruct (execAt false boldRe pos "") eqn:E; [|reflexivity].
    apply execAt_boldRe in E. congruence.
  - cbn [scan]. destruct (execAt false boldRe pos (String c rest)) eqn:E.
    + apply execAt_boldRe in E. congruence.
    + apply IH. cbn [includes] in H. by apply orb_false_iff in H as [_ H].
Qed.

(** C3. The header as the specification and the comment of step 2 write
    it, with the colon inside the bold markers, is not mined.  The pattern of step 2
    wants the colon after the closing markers: in a text where no colon
    follows two asterisks it finds nothing, and step 2 adds no node.  So the
    message "**Risk Factors:** Market volatility" leaves no node, and the
    tree of the conversation is the root and the topic; with the colon
    moved behind the markers the node "Risk Factors" is there, of kind
    con. *)
Theorem C3_header_with_colon_inside_is_not_mined ts idx now :
  (forall text,
      includes text "**:" = false ->
      matchAll false boldRe text = []
      /\ forall nodes, step2 ts text nodes = nodes)
  /\ includes colonInside "**Risk Factors:**" = true
  /\ includes colonInside "**:" = false
  /\ extractFromAIMessage ts colonInside idx = []
  /\ map look (nodesOf (generateInstantMindMap now investTalk))
     = [("Thought Space", TRoot, Some 10%Z, None); ("Invest", TTopic, Some 8%Z, None)]
  /\ map look (extractFromAIMessage ts colonOutside idx)
     = [("Risk Factors", TCon, Some 6%Z, None)].
Proof.
  split.
  { intros text Habsent.
    assert (E : matchAll false boldRe text = []) by (by apply scan_boldRe).
    split; [exact E|]. intros nodes. unfold step2. by rewrite E. }
  split; [vm_compute; reflexivity|]. split; [vm_compute; reflexivity|].
  split; [vm_compute; reflexivity|]. split; vm_compute; reflexivity.
Qed.

(** ** Ids *)

(** Every node of every tree has an id that is not empty. *)
Lemma hasId_promote n : id n <> "" -> id (promote n) <> "".
Proof. by destruct n. Qed.

Lemma ids_extract ts text idx :
  Forall (fun n => id n <> "") (extractFromAIMessage ts text idx).
Proof.
  unfold extractFromAIMessage, step5, step4, step3, step2, step1.
  set (n1 := concat _).
  assert (H1 : Forall (fun n => id n <> "") n1).
  { apply Forall_concat_imap. intros i m. apply Forall_imap. discriminate. }
  set (n2 := fold_left (pushBold ts) _ n1).
  assert (H2 : Forall (fun n => id n <> "") n2).
  { apply Forall_fold; [|exact H1]. intros l m Hl. unfold pushBold.
    destruct (_ && _); [|exact Hl]. by apply Forall_snoc. }
  set (n3 := fold_left (pushBullet ts) _ n2).
  assert (H3 : Forall (fun n => id n <> "") n3).
  { apply Forall_fold; [|exact H2]. intros l m Hl. unfold pushBullet.
    destruct (_ && _); [|exact Hl]. by apply Forall_snoc. }
  set (n4 := fold_left (pushNumbered ts) _ n3).
  assert (H4 : Forall (fun n => id n <> "") n4).
  { apply Forall_fold; [|exact H3]. intros l m Hl. unfold pushNumbered.
    destruct (_ && _); [|exact Hl]. by apply Forall_snoc. }
  destruct (search true recPattern text); [|exact H4].
  destruct (_ =? _)%string; [exact H4|].
  destruct (existsb _ n4).
  - apply Forall_updateFirst; [apply hasId_promote|exact H4].
  - by apply Forall_snoc.
Qed.

Lemma ids_nonempty now messages :
  Forall (fun n => id n <> "") (nodesOf (generateInstantMindMap now messages)).
Proof.
  unfold nodesOf, generateInstantMindMap.
  destruct (length messages =? 0); [by repeat constructor|].
  destruct (_ =? _)%string; [by repeat constructor|].
  set (mined := mineAll now _).
  assert (Hleafy : Forall leafy (updateFirst isOption promote mined)).
  { apply Forall_updateFirst; [apply leafy_promote|apply leafy_mineAll]. }
  cbn [rootWith flatNodes flat_map app].
  rewrite app_nil_r, (flatNodes_leafy _ Hleafy).
  constructor; [discriminate|]. constructor; [discriminate|].
  apply Forall_updateFirst; [apply hasId_promote|].
  apply Forall_concat_imap. intros i m. apply ids_extract.
Qed.

(** C4 fails on the code. Two assistant messages mined within one millisecond
    give their first choices the same id: the index of the message is passed
    to [extractFromAIMessage] and enters no id. *)
Theorem C4_ids_collide_across_messages :
  map id (nodesOf (generateInstantMindMap sameMs twoLists))
  = ["root-instant"; "topic-1700000000000";
     "option-1700000000000-0-0"; "option-1700000000000-0-1";
     "option-1700000000000-0-0"; "option-1700000000000-0-1"]
  /\ ~ NoDup (map id (nodesOf (generateInstantMindMap sameMs twoLists))).
Proof.
  assert (E : map id (nodesOf (generateInstantMindMap sameMs twoLists))
              = ["root-instant"; "topic-1700000000000";
                 "option-1700000000000-0-0"; "option-1700000000000-0-1";
                 "option-1700000000000-0-0"; "option-1700000000000-0-1"])
    by (vm_compute; reflexivity).
  split; [exact E|]. rewrite E. intros H.
  apply NoDup_cons_1_2 in H. apply NoDup_cons_1_2 in H.
  apply NoDup_cons_1_1 in H. apply H. set_solver.
Qed.

End MiningFacts.

(* ===================================================================== *)
(** * The decoder *)
(* ===================================================================== *)

Module DecoderFacts.
Import JS Regex DeepseekService Props Examples StringFacts.

(** ** What removing text does to [indexOf] and [lastIndexOf] *)

(** Deleting matches cannot bring in a character that was not there. *)
Lemma replaceScan_absent ic r c rest :
  forall skip pos,
    indexOf c rest = (-1)%Z ->
    indexOf c (replaceScan ic r "" skip pos rest) = (-1)%Z.
Proof.
  induction rest as [|d rest IH]; intros skip pos H.
  - destruct skip; simpl; [destruct (execAt ic r pos "")|]; reflexivity.
  - apply indexOf_absent_cons in H as [Hd Hrest].
    assert (Hkeep : forall k p,
               indexOf c (String d (replaceScan ic r "" k p rest)) = (-1)%Z).
    { intros k p. apply indexOf_absent_cons. split; [exact Hd|by apply IH]. }
    destruct skip; simpl; [|by apply IH].
    destruct (execAt ic r pos (String d rest)) as [m|]; [|apply Hkeep].
    destruct (lastIndex m =? pos); [apply Hkeep|by apply IH].
Qed.

Lemma stripFences_absent c text :
  indexOf c text = (-1)%Z -> indexOf c (stripFences text) = (-1)%Z.
Proof.
  intros H. unfold stripFences, replaceAll. by do 2 apply replaceScan_absent.
Qed.

(** [lastIndexOf] after the first [n] characters have been dropped. *)
Lemma lastIndexOf_drop c s :
  forall n,
    lastIndexOf c (drop n s)
    = if (lastIndexOf c s <? Z.of_nat n)%Z then (-1)%Z
      else (lastIndexOf c s - Z.of_nat n)%Z.
Proof.
  induction s as [|d s IH]; intros [|n]; simpl drop.
  - reflexivity.
  - reflexivity.
  - destruct (Z.ltb_spec (lastIndexOf c (String d s)) (Z.of_nat 0)) as [H|H].
    + pose proof (lastIndexOf_lower c (String d s)). lia.
    + lia.
  - rewrite IH. simpl lastIndexOf.
    pose proof (lastIndexOf_lower c s) as Hlow.
    destruct (Z.eqb_spec (lastIndexOf c s) (-1)) as [E|E].
    + rewrite E. destruct (d =? c)%char.
      * destruct (Z.ltb_spec (-1) (Z.of_nat n)), (Z.ltb_spec 0 (Z.of_nat (S n))); lia.
      * destruct (Z.ltb_spec (-1) (Z.of_nat n)), (Z.ltb_spec (-1) (Z.of_nat (S n))); lia.
    + destruct (Z.ltb_spec (lastIndexOf c s) (Z.of_nat n)),
               (Z.ltb_spec (lastIndexOf c s + 1) (Z.of_nat (S n))); lia.
Qed.

Lemma startOf_earlier a b : startOf a b = earlier a b.
Proof.
  unfold startOf, earlier.
  destruct (Z.eqb_spec a (-1)), (Z.eqb_spec b (-1)), (Z.ltb_spec a b); simpl; lia.
Qed.

(** The slice of the code is the slice of the specification as soon as a
    closing brace or bracket stands at or after the structural start. *)
Lemma sliceOf_specSlice text :
  let cleaned := stripFences text in
  let start := earlier (indexOf "{" cleaned) (indexOf "[" cleaned) in
  let stop := Z.max (lastIndexOf "}" cleaned) (lastIndexOf "]" cleaned) in
  start <> (-1)%Z -> (start <= stop)%Z ->
  sliceOf text = inl (specSlice text).
Proof.
  intros cleaned start stop Hstart Hle.
  unfold sliceOf, specSlice. fold cleaned.
  rewrite startOf_earlier. fold start. fold stop.
  pose proof (indexOf_lower "{" cleaned) as Hb.
  pose proof (indexOf_lower "[" cleaned) as Hk.
  assert (Hs0 : (0 <= start)%Z).
  { subst start. unfold earlier in *.
    destruct (Z.eqb_spec (indexOf "{" cleaned) (-1)),
             (Z.eqb_spec (indexOf "[" cleaned) (-1)); lia. }
  destruct (Z.eqb_spec (indexOf "{" cleaned) (-1)) as [Eb|Eb];
    destruct (Z.eqb_spec (indexOf "[" cleaned) (-1)) as [Ek|Ek]; simpl;
    try (exfalso; apply Hstart; subst start; unfold earlier; rewrite Eb, Ek; reflexivity).
  all: unfold substringFrom; rewrite !lastIndexOf_drop, Z2Nat.id by exact Hs0.
  all: pose proof (lastIndexOf_lower "}" cleaned) as Hlb.
  all: pose proof (lastIndexOf_lower "]" cleaned) as Hlk.
  all: set (lb := lastIndexOf "}" cleaned) in *.
  all: set (lk := lastIndexOf "]" cleaned) in *.
  all: assert (Hend : Z.max (if (lb <? start)%Z then (-1)%Z else (lb - start)%Z)
                            (if (lk <? start)%Z then (-1)%Z else (lk - start)%Z)
                      = (stop - start)%Z)
         by (subst stop; destruct (Z.ltb_spec lb start), (Z.ltb_spec lk start); lia).
  all: rewrite Hend.
  all: destruct (Z.eqb_spec (stop - start) (-1)) as [E|_]; [lia|]; simpl.
  all: f_equal; unfold substring.
  all: rewrite Z.min_l, Z.max_r, Z.min_l, Z.max_r by lia.
  all: simpl drop; f_equal; lia.
Qed.

(** ** The reference parser needs its closing bracket *)

Lemma absent_skipWs c s : indexOf c s = (-1)%Z -> indexOf c (skipWs s) = (-1)%Z.
Proof.
  induction s as [|d s IH]; intros H; simpl; [exact H|].
  destruct (isJsonSpace d); [|exact H].
  apply indexOf_absent_cons in H as [_ H]. by apply IH.
Qed.

Lemma keeps_tail d s : keeps s (String d s).
Proof. intros c H. by apply indexOf_absent_cons in H as [_ H]. Qed.

Lemma keeps_trans a b c : keeps a b -> keeps b c -> keeps a c.
Proof. intros H1 H2 x Hx. auto. Qed.

Lemma keeps_skipWs_cons d rest s : skipWs s = String d rest -> keeps rest s.
Proof.
  intros E c H. apply (absent_skipWs c) in H. rewrite E in H.
  by apply indexOf_absent_cons in H as [_ H].
Qed.

Lemma parseString_keeps s :
  forall st str rest, parseString st s = Some (str, rest) -> keeps rest s.
Proof.
  induction s as [|c s IH]; intros st str rest H; simpl in H; [discriminate|].
  assert (Hcons : forall ch,
             match parseString Plain s with
             | Some (str0, rest') => Some (String ch str0, rest')
             | None => None
             end = Some (str, rest) -> keeps rest (String c s)).
  { intros ch E. destruct (parseString Plain s) as [[str0 rest']|] eqn:E0; [|discriminate].
    injection E as _ <-. eapply keeps_trans; [eapply IH, E0|apply keeps_tail]. }
  destruct st as [| |n acc].
  - destruct (c =? DQ)%char.
    { injection H as _ <-. apply keeps_tail. }
    destruct (c =? BS)%char.
    { eapply keeps_trans; [eapply IH, H|apply keeps_tail]. }
    destruct (code c <? 32)%N; [discriminate|]. eapply Hcons, H.
  - destruct (c =? "u")%char.
    { eapply keeps_trans; [eapply IH, H|apply keeps_tail]. }
    destruct (unescape c); [eapply Hcons, H|discriminate].
  - destruct (hexVal c); [|discriminate].
    destruct n as [|[|n]]; [discriminate| |].
    + destruct (_ <? _)%N; [eapply Hcons, H|discriminate].
    + eapply keeps_trans; [eapply IH, H|apply keeps_tail].
Qed.

Lemma keeps_drop n s : keeps (drop n s) s.
Proof. intros c H. by apply absent_drop. Qed.

Lemma parseLiteral_keeps s v rest : parseLiteral s = Some (v, rest) -> keeps rest s.
Proof.
  unfold parseLiteral. intros H.
  destruct (String.prefix "true" s); [injection H as _ <-; exact (keeps_drop 4 s)|].
  destruct (String.prefix "false" s); [injection H as _ <-; exact (keeps_drop 5 s)|].
  destruct (String.prefix "null" s); [injection H as _ <-; exact (keeps_drop 4 s)|].
  destruct (execAt false numberRe 0 s) as [m|] eqn:E; [|discriminate].
  injection H as _ <-.
  apply RegexFacts.execAt_advances in E as (_ & _ & ->). apply keeps_drop.
Qed.

Lemma parse_keeps fuel :
  (forall s v rest, parseValue fuel s = Some (v, rest) -> keeps rest s)
  /\ (forall s vs rest, parseElements fuel s = Some (vs, rest) -> keeps rest s)
  /\ (forall s ms rest, parseMembers fuel s = Some (ms, rest) -> keeps rest s).
Proof.
  induction fuel as [|fuel (IHv & IHe & IHm)]; [by repeat split|].
  split; [|split].
  - intros s v rest H. simpl in H.
    destruct (skipWs s) as [|c r] eqn:Es; [discriminate|].
    pose proof (keeps_skipWs_cons _ _ _ Es) as Hr.
    destruct (c =? "[")%char.
    { destruct (skipWs r) as [|d r'] eqn:Er; [discriminate|].
      destruct (d =? "]")%char.
      - injection H as _ <-.
        eapply keeps_trans; [eapply keeps_skipWs_cons, Er|exact Hr].
      - destruct (parseElements fuel r) as [[items r'']|] eqn:E; [|discriminate].
        injection H as _ <-. eapply keeps_trans; [eapply IHe, E|exact Hr]. }
    destruct (c =? "{")%char.
    { destruct (skipWs r) as [|d r'] eqn:Er; [discriminate|].
      destruct (d =? "}")%char.
      - injection H as _ <-.
        eapply keeps_trans; [eapply keeps_skipWs_cons, Er|exact Hr].
      - destruct (parseMembers fuel r) as [[members r'']|] eqn:E; [|discriminate].
        injection H as _ <-. eapply keeps_trans; [eapply IHm, E|exact Hr]. }
    destruct (c =? DQ)%char.
    { destruct (parseString Plain r) as [[str r']|] eqn:E; [|discriminate].
      injection H as _ <-. eapply keeps_trans; [eapply parseString_keeps, E|exact Hr]. }
    apply parseLiteral_keeps in H. intros x Hx. apply H.
    rewrite <- Es. by apply absent_skipWs.
  - intros s vs rest H. simpl in H.
    destruct (parseValue fuel s) as [[v r]|] eqn:Ev; [|discriminate].
    destruct (skipWs r) as [|c r'] eqn:Er; [discriminate|].
    assert (Hr' : keeps r' s).
    { eapply keeps_trans; [eapply keeps_skipWs_cons, Er|eapply IHv, Ev]. }
    destruct (c =? ",")%char.
    { destruct (parseElements fuel r') as [[vs' r'']|] eqn:E; [|discriminate].
      injection H as _ <-. eapply keeps_trans; [eapply IHe, E|exact Hr']. }
    destruct (c =? "]")%char; [|discriminate]. by injection H as _ <-.
  - intros s ms rest H. simpl in H.
    destruct (skipWs s) as [|q r] eqn:Es; [discriminate|].
    destruct (negb (q =? DQ)%char); [discriminate|].
    destruct (parseString Plain r) as [[key r1]|] eqn:Ek; [|discriminate].
    destruct (skipWs r1) as [|c r2] eqn:E1; [discriminate|].
    destruct (negb (c =? ":")%char); [discriminate|].
    destruct (parseValue fuel r2) as [[v r3]|] eqn:Ev; [|discriminate].
    destruct (skipWs r3) as [|d r4] eqn:E3; [discriminate|].
    assert (Hr4 : keeps r4 s).
    { eapply keeps_trans; [eapply keeps_skipWs_cons, E3|].
      eapply keeps_trans; [eapply IHv, Ev|].
      eapply keeps_trans; [eapply keeps_skipWs_cons, E1|].
      eapply keeps_trans; [eapply parseString_keeps, Ek|].
      eapply keeps_skipWs_cons, Es. }
    destruct (d =? ",")%char.
    { destruct (parseMembers fuel r4) as [[ms' r5]|] eqn:E; [|discriminate].
      injection H as _ <-. eapply keeps_trans; [eapply IHm, E|exact Hr4]. }
    destruct (d =? "}")%char; [|discriminate]. by injection H as _ <-.
Qed.

Lemma skipWs_absent_head c d r s :
  indexOf c s = (-1)%Z -> skipWs s = String d r -> d <> c.
Proof.
  intros H E. apply (absent_skipWs c) in H. rewrite E in H.
  by apply indexOf_absent_cons in H as [H _].
Qed.

(** Without a closing bracket no list of elements is read ... *)
Lemma parseElements_needs_bracket fuel :
  forall s, indexOf "]" s = (-1)%Z -> parseElements fuel s = None.
Proof.
  induction fuel as [|fuel IH]; intros s H; simpl; [reflexivity|].
  destruct (parseValue fuel s) as [[v r]|] eqn:Ev; [|reflexivity].
  apply (proj1 (parse_keeps fuel)) in Ev. apply Ev in H.
  destruct (skipWs r) as [|c r'] eqn:Er; [reflexivity|].
  destruct (Ascii.eqb_spec c ",").
  { rewrite IH; [reflexivity|]. by eapply keeps_skipWs_cons. }
  destruct (Ascii.eqb_spec c "]") as [->|_]; [|reflexivity].
  by destruct (skipWs_absent_head _ _ _ _ H Er).
Qed.

(** ... and without a closing brace no list of members. *)
Lemma parseMembers_needs_brace fuel :
  forall s, indexOf "}" s = (-1)%Z -> parseMembers fuel s = None.
Proof.
  induction fuel as [|fuel IH]; intros s H; simpl; [reflexivity|].
  destruct (skipWs s) as [|q r] eqn:Es; [reflexivity|].
  destruct (negb (q =? DQ)%char); [reflexivity|].
  destruct (parseString Plain r) as [[key r1]|] eqn:Ek; [|reflexivity].
  destruct (skipWs r1) as [|c r2] eqn:E1; [reflexivity|].
  destruct (negb (c =? ":")%char); [reflexivity|].
  destruct (parseValue fuel r2) as [[v r3]|] eqn:Ev; [|reflexivity].
  destruct (skipWs r3) as [|d r4] eqn:E3; [reflexivity|].
  assert (H3 : indexOf "}" r3 = (-1)%Z).
  { eapply (proj1 (parse_keeps fuel)); [exact Ev|].
    eapply keeps_skipWs_cons; [exact E1|].
    eapply parseString_keeps; [exact Ek|].
    eapply keeps_skipWs_cons; [exact Es|exact H]. }
  destruct (Ascii.eqb_spec d ",").
  { rewrite IH; [reflexivity|]. by eapply keeps_skipWs_cons. }
  destruct (Ascii.eqb_spec d "}") as [->|_]; [|reflexivity].
  by destruct (skipWs_absent_head _ _ _ _ H3 E3).
Qed.

Lemma parseValue_brace fuel s :
  parseValue (S fuel) (String "{" s)
  = match skipWs s with
    | "" => None
    | String d rest' =>
        if (d =? "}")%char then Some (JObj [], rest')
        else match parseMembers fuel s with
             | Some (members, rest'') => Some (JObj members, rest'')
             | None => None
             end
    end.
Proof. reflexivity. Qed.

Lemma parseValue_bracket fuel s :
  parseValue (S fuel) (String "[" s)
  = match skipWs s with
    | "" => None
    | String d rest' =>
        if (d =? "]")%char then Some (JArr [], rest')
        else match parseElements fuel s with
             | Some (items, rest'') => Some (JArr items, rest'')
             | None => None
             end
    end.
Proof. reflexivity. Qed.

(** A text that opens with a brace or a bracket and closes none is no JSON. *)
Lemma JSON_parse_needs_closer c s :
  c = "{"%char \/ c = "["%char ->
  indexOf "}" (String c s) = (-1)%Z -> indexOf "]" (String c s) = (-1)%Z ->
  JSON_parse (String c s) = None.
Proof.
  intros Hc Hbrace Hbracket. unfold JSON_parse.
  set (fuel := 2 * String.length (String c s)). clearbody fuel.
  assert (E : parseValue (S fuel) (String c s) = None); [|by rewrite E].
  apply indexOf_absent_cons in Hbrace as [_ Hbrace].
  apply indexOf_absent_cons in Hbracket as [_ Hbracket].
  destruct Hc as [-> | ->]; [rewrite parseValue_brace|rewrite parseValue_bracket].
  - destruct (skipWs s) as [|d r'] eqn:Er; [reflexivity|].
    destruct (Ascii.eqb_spec d "}") as [->|_].
    + by destruct (skipWs_absent_head _ _ _ _ Hbrace Er).
    + by rewrite parseMembers_needs_brace.
  - destruct (skipWs s) as [|d r'] eqn:Er; [reflexivity|].
    destruct (Ascii.eqb_spec d "]") as [->|_].
    + by destruct (skipWs_absent_head _ _ _ _ Hbracket Er).
    + by rewrite parseElements_needs_bracket.
Qed.

Lemma indexOf_drop c s :
  (0 <= indexOf c s)%Z ->
  exists s', drop (Z.to_nat (indexOf c s)) s = String c s'.
Proof.
  induction s as [|d s IH]; simpl; [lia|].
  destruct (Ascii.eqb_spec d c) as [->|_]; [intros _; by exists s|].
  pose proof (indexOf_lower c s).
  destruct (Z.eqb_spec (indexOf c s) (-1)); [lia|]. intros _.
  destruct IH as [s' Hs']; [lia|]. exists s'.
  replace (Z.to_nat (indexOf c s + 1)) with (S (Z.to_nat (indexOf c s))) by lia.
  exact Hs'.
Qed.

(** When no closing brace or bracket stands at or after the structural
    start, the code hands everything from the start on to the parser, which
    refuses it. *)
Lemma unclosed_is_ParseError text :
  let cleaned := stripFences text in
  let start := earlier (indexOf "{" cleaned) (indexOf "[" cleaned) in
  let stop := Z.max (lastIndexOf "}" cleaned) (lastIndexOf "]" cleaned) in
  start <> (-1)%Z -> (stop < start)%Z ->
  cleanAndParseJSON JSON_parse text = inr ParseError.
Proof.
  intros cleaned start stop Hstart Hlt.
  pose proof (indexOf_lower "{" cleaned) as Hb.
  pose proof (indexOf_lower "[" cleaned) as Hk.
  assert (Hopen : exists c s', (c = "{"%char \/ c = "["%char)
                               /\ drop (Z.to_nat start) cleaned = String c s').
  { subst start. unfold earlier in *.
    destruct (Z.eqb_spec (indexOf "{" cleaned) (-1)) as [Eb|Eb].
    - destruct (indexOf_drop "[" cleaned) as [s' Hs']; [lia|]. eauto.
    - destruct (Z.eqb_spec (indexOf "[" cleaned) (-1)) as [Ek|Ek].
      + destruct (indexOf_drop "{" cleaned) as [s' Hs']; [lia|]. eauto.
      + destruct (Z.min_spec (indexOf "{" cleaned) (indexOf "[" cleaned)) as [[_ ->]|[_ ->]].
        * destruct (indexOf_drop "{" cleaned) as [s' Hs']; [lia|]. eauto.
        * destruct (indexOf_drop "[" cleaned) as [s' Hs']; [lia|]. eauto. }
  destruct Hopen as (c & s' & Hc & Hdrop).
  assert (Hs0 : (0 <= start)%Z).
  { subst start. unfold earlier in *.
    destruct (Z.eqb_spec (indexOf "{" cleaned) (-1)),
             (Z.eqb_spec (indexOf "[" cleaned) (-1)); lia. }
  assert (Hlast : forall x, (lastIndexOf x cleaned <= stop)%Z ->
                            lastIndexOf x (String c s') = (-1)%Z).
  { intros x Hx. rewrite <- Hdrop, lastIndexOf_drop, Z2Nat.id by exact Hs0.
    destruct (Z.ltb_spec (lastIndexOf x cleaned) start); [reflexivity|lia]. }
  assert (Hslice : sliceOf text = inl (String c s')).
  { unfold sliceOf. fold cleaned. rewrite startOf_earlier. fold start.
    assert (Hany : (indexOf "{" cleaned =? -1)%Z && (indexOf "[" cleaned =? -1)%Z = false).
    { subst start. unfold earlier in Hstart.
      destruct (Z.eqb_spec (indexOf "{" cleaned) (-1)),
               (Z.eqb_spec (indexOf "[" cleaned) (-1)); simpl; try reflexivity; lia. }
    rewrite Hany. unfold substringFrom. rewrite Hdrop.
    rewrite !Hlast by (subst stop; lia). reflexivity. }
  unfold cleanAndParseJSON. rewrite Hslice.
  rewrite JSON_parse_needs_closer; [reflexivity|exact Hc| |];
    apply lastIndexOf_absent, Hlast; subst stop; lia.
Qed.

(** C6. The decoder strips the code fences, cuts the text from the earlier of
    the first brace and the first bracket to the later of the last closing
    brace and the last closing bracket, and decodes that slice.  It fails
    with the parse error when the text has neither a brace nor a bracket,
    and when the decoding of the slice fails (as it does when nothing closes
    after the structural start: the parser then gets, and refuses, all the
    text from the start on); it returns the decoded value otherwise.  The
    fenced reply decodes to the object with the member [a] of value 1; a
    text without JSON gives the parse error. *)
Theorem C6_decoder_slices_and_decodes {J} (parse : string -> option J) text :
  let cleaned := stripFences text in
  let start := earlier (indexOf "{" cleaned) (indexOf "[" cleaned) in
  let stop := Z.max (lastIndexOf "}" cleaned) (lastIndexOf "]" cleaned) in
  (indexOf "{" text = (-1)%Z -> indexOf "[" text = (-1)%Z ->
   cleanAndParseJSON parse text = inr ParseError)
  /\ (start <> (-1)%Z -> (start <= stop)%Z ->
      cleanAndParseJSON parse text
      = match parse (specSlice text) with
        | Some v => inl v
        | None => inr ParseError
        end)
  /\ (start <> (-1)%Z -> (stop < start)%Z ->
      cleanAndParseJSON JSON_parse text = inr ParseError)
  /\ cleanAndParseJSON JSON_parse fencedReply = inl objectA1
  /\ cleanAndParseJSON parse "no json here" = inr ParseError.
Proof.
  intros cleaned start stop. split; [|split; [|split; [|split]]].
  - intros Hb Hk. unfold cleanAndParseJSON, sliceOf.
    by rewrite (stripFences_absent _ _ Hb), (stripFences_absent _ _ Hk).
  - intros Hstart Hle. unfold cleanAndParseJSON.
    rewrite (sliceOf_specSlice text Hstart Hle).
    by destruct (parse (specSlice text)).
  - apply unclosed_is_ParseError.
  - vm_compute. reflexivity.
  - reflexivity.
Qed.

Lemma C6_witness :
  earlier (indexOf "{" (stripFences fencedReply)) (indexOf "[" (stripFences fencedReply))
  = 7%Z
  /\ Z.max (lastIndexOf "}" (stripFences fencedReply))
           (lastIndexOf "]" (stripFences fencedReply)) = 13%Z
  /\ specSlice fencedReply = "{" +:+ QUOTE +:+ "a" +:+ QUOTE +:+ ":1}"
  /\ cleanAndParseJSON JSON_parse fencedReply
     = match JSON_parse (specSlice fencedReply) with
       | Some v => inl v
       | None => inr ParseError
       end
  /\ indexOf "{" "no json here" = (-1)%Z
  /\ indexOf "[" "no json here" = (-1)%Z
  /\ cleanAndParseJSON JSON_parse "no json here" = inr ParseError
  /\ earlier (indexOf "{" (stripFences unclosedReply))
             (indexOf "[" (stripFences unclosedReply)) = 11%Z
  /\ Z.max (lastIndexOf "}" (stripFences unclosedReply))
           (lastIndexOf "]" (stripFences unclosedReply)) = 5%Z
  /\ cleanAndParseJSON JSON_parse unclosedReply = inr ParseError.
Proof.
  destruct (C6_decoder_slices_and_decodes JSON_parse fencedReply) as (_ & Hslice & _).
  destruct (C6_decoder_slices_and_decodes JSON_parse "no json here") as (Hnone & _).
  destruct (C6_decoder_slices_and_decodes JSON_parse unclosedReply) as (_ & _ & Hopen & _).
  split; [vm_compute; reflexivity|]. split; [vm_compute; reflexivity|].
  split; [vm_compute; reflexivity|].
  split; [apply Hslice; vm_compute; congruence|].
  split; [reflexivity|]. split; [reflexivity|].
  split; [apply Hnone; reflexivity|].
  split; [vm_compute; reflexivity|]. split; [vm_compute; reflexivity|].
  apply Hopen; vm_compute; congruence.
Defined.

End DecoderFacts.

(* ===================================================================== *)
(** * The mind-map component: merging a new tree into the view *)
(* ===================================================================== *)

Module MindMapFacts.
Import JS Regex Types MindMap Props Examples.

(** ** Induction on trees *)

Lemma MindMapNode_tree_ind (P : MindMapNode -> Prop) :
  (forall i n t w r c, P (mkNode i n t None w r c)) ->
  (forall i n t cs w r c, Forall P cs -> P (mkNode i n t (Some cs) w r c)) ->
  forall t, P t.
Proof.
  intros Hleaf Hnode. fix IH 1. intros [i n t [cs|] w r c]; [|apply Hleaf].
  apply Hnode. induction cs as [|c0 cs IHcs]; constructor; [apply IH|apply IHcs].
Qed.

(** ** Sanitized trees have ids everywhere *)

Lemma append_nonempty_r a b : b <> "" -> a +:+ b <> "".
Proof. intros Hb. destruct a; simpl; [exact Hb|discriminate]. Qed.

Lemma newId_nonempty id0 parentId rest :
  (if (id0 =? "")%string then parentId +:+ "-" +:+ rest else id0) <> "".
Proof.
  destruct (String.eqb_spec id0 "") as [_|Hne]; [|exact Hne].
  apply append_nonempty_r. discriminate.
Qed.

Lemma sanitizeData_ids t :
  forall depth index parentId,
    Forall (fun n => id n <> "") (flatNodes (sanitizeData t depth index parentId)).
Proof.
  induction t as [i n t w r c|i n t cs w r c IH] using MindMapNode_tree_ind;
    intros depth index parentId; simpl.
  - constructor; [apply newId_nonempty|constructor].
  - constructor; [apply newId_nonempty|].
    set (newId := if (i =? "")%string then _ else i). clearbody newId.
    generalize 0 as idx.
    induction IH as [|child cs Hchild _ IHcs]; intros idx; simpl; [constructor|].
    apply Forall_app; split; [apply Hchild|apply IHcs].
Qed.

Section Merge.
Context {number : Type}.
Implicit Types (n p : SimNode number) (l : list (SimNode number)).

(** ** The map of the previous nodes *)

Lemma fold_insert_other l :
  forall (m : gmap string (SimNode number)) k,
    k ∉ map key l ->
    fold_left (fun m n => <[key n := n]> m) l m !! k = m !! k.
Proof.
  induction l as [|n l IH]; intros m k Hk; simpl; [reflexivity|].
  simpl in Hk. rewrite IH by set_solver.
  apply lookup_insert_ne. set_solver.
Qed.

(** Of the entries with one key, the last one stays. *)
Lemma fold_insert_last l1 p l2 (m : gmap string (SimNode number)) :
  key p ∉ map key l2 ->
  fold_left (fun m n => <[key n := n]> m) (l1 ++ p :: l2) m !! key p = Some p.
Proof.
  intros Hk. rewrite fold_left_app. simpl.
  rewrite fold_insert_other by exact Hk. apply lookup_insert_eq.
Qed.

Lemma keys_filter (f : SimNode number -> bool) l k :
  k ∉ map key l -> k ∉ map key (List.filter f l).
Proof.
  intros Hk Hin. apply Hk.
  apply list_elem_of_In, in_map_iff in Hin as (n & <- & Hn).
  apply filter_In in Hn as [Hn _].
  apply list_elem_of_In, in_map. exact Hn.
Qed.

Lemma oldNodesMap_last l1 p l2 :
  key p <> "" -> key p ∉ map key l2 ->
  oldNodesMap (l1 ++ p :: l2) !! key p = Some p.
Proof.
  intros Hne Hk. unfold oldNodesMap.
  rewrite List.filter_app. simpl.
  destruct (String.eqb_spec (key p) "") as [E|_]; [contradiction|]. simpl.
  apply fold_insert_last. by apply keys_filter.
Qed.

Lemma oldNodesMap_absent l k : k ∉ map key l -> oldNodesMap l !! k = None.
Proof.
  intros Hk. unfold oldNodesMap.
  rewrite fold_insert_other by (by apply keys_filter). apply lookup_empty.
Qed.

(** ** The merge *)

Lemma mergeNodes_data l (nodes : list MindMapNode) :
  map node (mergeNodes l nodes) = nodes.
Proof.
  unfold mergeNodes. rewrite map_map. rewrite <- (map_id nodes) at 2.
  apply map_ext. intros a. unfold mergeNode.
  destruct (id a =? "")%string; [reflexivity|].
  by destruct (oldNodesMap l !! id a).
Qed.

Lemma mergeNodes_inv l (nodes : list MindMapNode) n :
  n ∈ mergeNodes l nodes ->
  exists newNode, newNode ∈ nodes /\ n = mergeNode (oldNodesMap l) newNode.
Proof.
  intros Hn. apply list_elem_of_In, in_map_iff in Hn as (a & <- & Ha).
  exists a. split; [by apply list_elem_of_In|reflexivity].
Qed.

Lemma mergeNode_key (old : gmap string (SimNode number)) a : key (mergeNode old a) = id a.
Proof.
  unfold mergeNode, key. destruct (id a =? "")%string; [reflexivity|].
  by destruct (old !! id a).
Qed.

(** ** The exit selection *)

Lemma exitFrom_absent dataKeys elements p :
  forall seen,
    p ∈ elements -> key p ∉ dataKeys -> p ∈ exitFrom seen dataKeys elements.
Proof.
  induction elements as [|e es IH]; intros seen Hp Hk; [by apply elem_of_nil in Hp|].
  simpl. apply elem_of_cons in Hp as [->|Hp].
  - rewrite (bool_decide_eq_false_2 _ Hk), orb_true_r. by left.
  - destruct (_ || _); [right|]; by apply IH.
Qed.

Lemma exitFrom_on_screen dataKeys (elements : list (SimNode number)) e :
  forall seen, e ∈ exitFrom seen dataKeys elements -> e ∈ elements.
Proof.
  induction elements as [|e0 es IH]; intros seen He; simpl in He; [exact He|].
  destruct (_ || _).
  - apply elem_of_cons in He as [->|He]; [by left|right; by eapply IH].
  - right. by eapply IH.
Qed.

(** With distinct keys on screen no element leaves for a preceding one. *)
Lemma exitFrom_filter dataKeys (elements : list (SimNode number)) :
  forall seen,
    NoDup (map key elements) ->
    (forall e, e ∈ elements -> key e ∉ seen) ->
    exitFrom seen dataKeys elements
    = List.filter (fun e => negb (bool_decide (key e ∈ dataKeys))) elements.
Proof.
  induction elements as [|e0 es IH]; intros seen Hnd Hseen; simpl; [reflexivity|].
  simpl in Hnd. apply NoDup_cons in Hnd as [Hfirst Hnd].
  rewrite (bool_decide_eq_false_2 (key e0 ∈ seen)) by (apply Hseen; by left).
  simpl. rewrite IH; [reflexivity|exact Hnd|].
  intros e He Hin. apply elem_of_cons in Hin as [Hin|Hin].
  - apply Hfirst. rewrite <- Hin. by apply list_elem_of_fmap_2.
  - revert Hin. apply Hseen. by right.
Qed.

Lemma mergeNodes_keys l (nodes : list MindMapNode) :
  map key (mergeNodes l nodes) = map id nodes.
Proof.
  unfold mergeNodes. rewrite map_map. apply map_ext. intros a. apply mergeNode_key.
Qed.

Lemma mainEffect_shown rawData (v : View number) elements :
  screen v = Some elements ->
  mainEffect rawData v
  = Some (mkDrawn (mergeNodes (nodesRef v) (flatOf rawData))
                  (match rawData with
                   | Some d => snd (flattenGraph (sanitizeData d 0 0 "root"))
                   | None => []
                   end)
                  (exitFrom [] (map id (flatOf rawData)) elements)).
Proof.
  intros Hscreen. unfold mainEffect, exitSelection. rewrite Hscreen.
  rewrite mergeNodes_keys. by destruct rawData.
Qed.

Lemma flatOf_ids rawData : Forall (fun a : MindMapNode => id a <> "") (flatOf rawData).
Proof. destruct rawData; simpl; [apply sanitizeData_ids|constructor]. Qed.

(** C5. One run of the drawing effect.  While no svg is rendered the run
    does nothing.  While one is, with whatever elements it holds: the
    reconciled set is the flattened new tree, node for node; a node whose id
    is that of a node held from the previous run (the last one with that id)
    takes over its [x], [y], [vx], [vy] as they are; a node whose id is not
    held leaves the merge with no position and no velocity; every element
    on screen whose id the new tree does not have is in the exit selection,
    the one that is animated out and removed; the exit selection holds
    elements on screen only; and when the ids on screen are distinct it is
    exactly the elements whose id the new tree does not have, in their
    order. *)
Theorem C5_reconciliation_of_what_is_on_screen rawData (v : View number) :
  (screen v = None -> mainEffect rawData v = None)
  /\ (forall elements,
        screen v = Some elements ->
        exists run,
          mainEffect rawData v = Some run
          /\ map node (reconciled run) = flatOf rawData
          /\ (forall n l1 p l2,
                n ∈ reconciled run ->
                nodesRef v = l1 ++ p :: l2 -> key p = key n -> key n ∉ map key l2 ->
                (x n, y n, vx n, vy n) = (x p, y p, vx p, vy p))
          /\ (forall n,
                n ∈ reconciled run ->
                key n ∉ map key (nodesRef v) ->
                (x n, y n, vx n, vy n) = (None, None, None, None))
          /\ (forall e,
                e ∈ elements ->
                key e ∉ map id (flatOf rawData) ->
                e ∈ exiting run)
          /\ (forall e, e ∈ exiting run -> e ∈ elements)
          /\ (NoDup (map key elements) ->
              exiting run
              = List.filter (fun e => negb (bool_decide (key e ∈ map id (flatOf rawData))))
                            elements)).
Proof.
  split; [intros Hscreen; unfold mainEffect; by rewrite Hscreen|].
  intros elements Hscreen. eexists. split; [by apply mainEffect_shown|].
  cbn [reconciled exiting].
  split; [apply mergeNodes_data|]. split; [|split; [|split; [|split]]].
  - intros n l1 p l2 Hn Hprev Hkey Hlast.
    apply mergeNodes_inv in Hn as (a & Ha & ->).
    rewrite mergeNode_key in Hkey, Hlast.
    assert (Hid : id a <> "").
    { pose proof (flatOf_ids rawData) as Hall.
      rewrite Forall_forall in Hall. by apply Hall. }
    unfold mergeNode. destruct (String.eqb_spec (id a) "") as [E|_]; [contradiction|].
    rewrite Hprev, <- Hkey, oldNodesMap_last; [reflexivity| |]; by rewrite Hkey.
  - intros n Hn Habsent.
    apply mergeNodes_inv in Hn as (a & Ha & ->).
    rewrite mergeNode_key in Habsent.
    unfold mergeNode. destruct (id a =? "")%string; [reflexivity|].
    by rewrite oldNodesMap_absent.
  - intros e He Habsent. by apply exitFrom_absent.
  - intros e. apply exitFrom_on_screen.
  - intros Hnd. apply exitFrom_filter; [exact Hnd|].
    intros e _. apply not_elem_of_nil.
Qed.

End Merge.

Lemma C5_witness :
  exists run,
    mainEffect (Some laterTree) earlierView = Some run
    /\ map key (reconciled run) = ["keep"; "new"]
    /\ (let kept := hd (placed "" 0 0) (reconciled run) in
        (x kept, y kept, vx kept, vy kept)
        = (Some 120%Z, Some (-40)%Z, Some 0%Z, Some 0%Z))
    /\ (let new := List.last (reconciled run) (placed "" 0 0) in
        (x new, y new, vx new, vy new) = (None, None, None, None))
    /\ exiting run = [placed "gone" 7 9].
Proof.
  destruct (C5_reconciliation_of_what_is_on_screen (Some laterTree) earlierView)
    as (_ & Hshown).
  destruct (Hshown _ eq_refl) as (run & Hrun & _ & Hkeep & Hnew & _ & _ & Hexact).
  assert (E : run = mkDrawn (mergeNodes (nodesRef earlierView) (flatOf (Some laterTree)))
                            [mkLink "keep" "new"] (exiting run)).
  { vm_compute in Hrun. injection Hrun as <-. reflexivity. }
  exists run. split; [exact Hrun|].
  split; [by rewrite E|]. split; [|split].
  - apply (Hkeep _ [] (placed "keep" 120 (-40)) [placed "gone" 7 9]).
    + rewrite E. vm_compute. set_solver.
    + reflexivity.
    + by rewrite E.
    + rewrite E. vm_compute. set_solver.
  - apply Hnew.
    + rewrite E. vm_compute. set_solver.
    + rewrite E. vm_compute. set_solver.
  - rewrite Hexact; [reflexivity|].
    apply (bool_decide_unpack _). vm_compute. exact I.
Defined.

(** C5 as stated fails. The view holds the nodes "keep" and "gone"; the
    data goes away, the placeholder is shown and the run does nothing; then
    a tree with "keep" and "new" comes.  The node "gone" is still held, the
    new tree does not have its id, and the run drops it with an empty exit
    selection: its element went with the svg. *)
Lemma C5_held_node_dropped_without_exit :
  (mainEffect None hiddenView = None)
  /\ (placed "gone" 7 9 ∈ nodesRef shownAgain)
  /\ ("gone" ∉ map id (flatOf (Some laterTree)))
  /\ (exists run,
        mainEffect (Some laterTree) shownAgain = Some run
        /\ map key (reconciled run) = ["keep"; "new"]
        /\ exiting run = []).
Proof.
  split; [reflexivity|]. split; [|split].
  - vm_compute. set_solver.
  - vm_compute. set_solver.
  - eexists. split; [reflexivity|]. split; reflexivity.
Qed.

End MindMapFacts.

(* ===================================================================== *)
(** * The orchestrator: partial and total failure *)
(* ===================================================================== *)

Module AppFacts.
Import Types DeepseekService App Props Examples.

Section Facts.
Context {P C D S B L : Type}.
Implicit Types (gens : Generations P C D S B L) (s : State P C D S B L).

Lemma safeGenerate_None {T} (p : Promise T) :
  safeGenerate p = None <-> rejected p.
Proof.
  unfold rejected; destruct p as [v|e]; simpl; split.
  - discriminate.
  - intros [e' He]; discriminate.
  - eauto.
  - reflexivity.
Qed.

Lemma nonEmpty_false {T} (p : Promise (list T)) :
  nonEmpty (safeGenerate p) = false <-> rejected p \/ p = Resolved [].
Proof.
  unfold rejected; destruct p as [[|v l]|e]; simpl; split; intros H; try done.
  - by right.
  - destruct H as [[e He]|He]; discriminate.
  - left; eauto.
Qed.

Lemma truthy_false {T} (p : Promise T) :
  truthy (safeGenerate p) = false <-> rejected p.
Proof.
  rewrite <- safeGenerate_None. destruct (safeGenerate p); simpl; split; done.
Qed.

Lemma anySuccess_false gens : anySuccess gens = false <-> allFailedOrEmpty gens.
Proof.
  unfold anySuccess, allFailedOrEmpty.
  rewrite !orb_false_iff, !truthy_false, nonEmpty_false. tauto.
Qed.

Lemma handleAnalyze_failure gens s :
  2 <= length (messages s) -> anySuccess gens = false ->
  handleAnalyze gens s =
  setIsVisLoading false
    (setVisError
       (Some "Could not generate analysis. Please try elaborating on your situation.") s).
Proof.
  intros Hlen Hall. unfold handleAnalyze.
  destruct (Nat.ltb_spec (length (messages s)) 2) as [Hlt|_]; [lia|].
  fold (anySuccess gens). rewrite Hall. reflexivity.
Qed.



(** C10. When every generation call fails (each [safeGenerate] gives [null],
    the projection gives no scenario), the handler leaves the seven
    visualization cells as they were: what was on display stays, the error
    message is set and the loading flag is lowered. *)
Theorem C10_total_failure_keeps_previous_analysis gens s :
  2 <= length (messages s) ->
  allFailedOrEmpty gens ->
  dataOf (handleAnalyze gens s) = dataOf s
  /\ messages (handleAnalyze gens s) = messages s
  /\ visError (handleAnalyze gens s) =
     Some "Could not generate analysis. Please try elaborating on your situation."
  /\ isVisLoading (handleAnalyze gens s) = false.
Proof.
  intros Hlen Hall. apply anySuccess_false in Hall.
  rewrite (handleAnalyze_failure gens s Hlen Hall). by repeat split.
Qed.

End Facts.


Lemma C10_witness :
  2 <= length (messages onDisplay)
  /\ allFailedOrEmpty noneBack
  /\ dataOf (handleAnalyze noneBack onDisplay) = dataOf onDisplay
  /\ visError (handleAnalyze noneBack onDisplay) =
     Some "Could not generate analysis. Please try elaborating on your situation.".
Proof.
  assert (Hlen : 2 <= length (messages onDisplay)) by (simpl; lia).
  assert (Hall : allFailedOrEmpty noneBack).
  { unfold allFailedOrEmpty, rejected, noneBack; simpl.
    repeat split; eauto. }
  destruct (C10_total_failure_keeps_previous_analysis noneBack onDisplay Hlen Hall)
    as (Hd & _ & He & _).
  split; [exact Hlen|]. split; [exact Hall|]. split; [exact Hd|exact He].
Defined.

End AppFacts.
(* ===================================================================== *)
(** * The mind-map component: sanitizing and flattening a tree *)
(* ===================================================================== *)

Module TreeFacts.
Import JS Regex Types MindMap Props Examples TreeProps.

Lemma sanitizeData_eq i n t ch w r c depth index parentId :
  sanitizeData (mkNode i n t ch w r c) depth index parentId
  = mkNode (newIdOf i n parentId depth index) n t
           (Some (match ch with
                  | Some cs => eachFrom depth (newIdOf i n parentId depth index) cs 0
                  | None => []
                  end))
           (Some (newWeightOf w)) r c.
Proof. destruct ch; reflexivity. Qed.

Lemma eachFrom_cons depth newId child cs idx :
  eachFrom depth newId (child :: cs) idx
  = sanitizeData child (S depth) idx newId :: eachFrom depth newId cs (S idx).
Proof. reflexivity. Qed.

Lemma newIdOf_nonempty i n p d k : newIdOf i n p d k <> "".
Proof. apply MindMapFacts.newId_nonempty. Qed.

Lemma newIdOf_kept i n p d k : i <> "" -> newIdOf i n p d k = i.
Proof. intros H. unfold newIdOf. by destruct (String.eqb_spec i ""). Qed.

Lemma newWeightOf_nonzero w : newWeightOf w <> 0%Z.
Proof.
  destruct w as [w|]; simpl; [|discriminate].
  destruct (Z.eqb_spec w 0); [discriminate|assumption].
Qed.

Lemma newWeightOf_kept w : w <> 0%Z -> newWeightOf (Some w) = w.
Proof. intros H. simpl. by destruct (Z.eqb_spec w 0). Qed.

(** X1. Whatever tree comes in, every node of the sanitized tree has a
    non-empty id, a [children] array and a weight that is not zero. *)
Theorem sanitizeData_makes_nodes_usable t depth index parentId :
  Forall usable (flatNodes (sanitizeData t depth index parentId)).
Proof.
  revert depth index parentId.
  induction t as [i n t w r c|i n t cs w r c IH] using MindMapFacts.MindMapNode_tree_ind;
    intros depth index parentId; rewrite sanitizeData_eq.
  - constructor; [|constructor].
    split; [apply newIdOf_nonempty|]. split; [by eexists|].
    eexists; split; [reflexivity|apply newWeightOf_nonzero].
  - cbn [flatNodes]. constructor.
    + split; [apply newIdOf_nonempty|]. split; [by eexists|].
      eexists; split; [reflexivity|apply newWeightOf_nonzero].
    + generalize (newIdOf i n parentId depth index) as newId. intros newId.
      generalize 0 as idx.
      induction IH as [|child cs Hchild _ IHcs]; intros idx; [constructor|].
      rewrite eachFrom_cons. cbn [flat_map].
      apply Forall_app; split; [apply Hchild|apply IHcs].
Qed.

(** X2. Sanitizing is idempotent: a second pass, at whatever depth, index
    and parent id, gives the tree of the first back. *)
Theorem sanitizeData_idempotent t :
  forall depth index parentId depth' index' parentId',
    sanitizeData (sanitizeData t depth index parentId) depth' index' parentId'
    = sanitizeData t depth index parentId.
Proof.
  induction t as [i n t w r c|i n t cs w r c IH] using MindMapFacts.MindMapNode_tree_ind;
    intros depth index parentId depth' index' parentId';
    rewrite (sanitizeData_eq i), sanitizeData_eq;
    rewrite (newIdOf_kept _ _ _ _ _ (newIdOf_nonempty _ _ _ _ _)),
            (newWeightOf_kept _ (newWeightOf_nonzero _)).
  - reflexivity.
  - do 2 f_equal.
    generalize (newIdOf i n parentId depth index) as newId. intros newId.
    generalize 0 at 1 3 as idx. generalize 0 as idx'.
    induction IH as [|child cs Hchild _ IHcs]; intros idx' idx; [reflexivity|].
    rewrite !eachFrom_cons. f_equal; [apply Hchild|apply IHcs].
Qed.

(** X3. Sanitizing keeps the shape and the content of the tree.  Ids and
    weights apart, and a missing [children] read as an empty array, the
    sanitized tree is the tree that came in: the same nesting, and node for
    node the same name, kind and flags.  So the nodes come out one for one
    and in the same order, and in each an id that was there and a weight that
    was there and not zero stay as they were. *)
Theorem sanitizeData_keeps_shape_and_content t depth index parentId :
  bare (sanitizeData t depth index parentId) = bare t
  /\ map content (flatNodes (sanitizeData t depth index parentId))
     = map content (flatNodes t)
  /\ Forall2 keptIn (flatNodes t) (flatNodes (sanitizeData t depth index parentId)).
Proof.
  revert depth index parentId.
  induction t as [i n t w r c|i n t cs w r c IH] using MindMapFacts.MindMapNode_tree_ind;
    intros depth index parentId; rewrite sanitizeData_eq.
  - split; [reflexivity|]. split; [reflexivity|]. constructor; [|constructor].
    split; simpl; [apply newIdOf_kept|].
    intros w' [= ->] Hw. by rewrite newWeightOf_kept.
  - cbn [flatNodes map bare].
    remember (newIdOf i n parentId depth index) as newId eqn:E.
    assert (Hkids : forall idx,
               map bare (eachFrom depth newId cs idx) = map bare cs
               /\ map content (flat_map flatNodes (eachFrom depth newId cs idx))
                  = map content (flat_map flatNodes cs)
               /\ Forall2 keptIn (flat_map flatNodes cs)
                          (flat_map flatNodes (eachFrom depth newId cs idx))).
    { clear E. induction IH as [|child cs Hchild _ IHcs]; intros idx;
        [by repeat split; constructor|].
      rewrite eachFrom_cons. cbn [flat_map map]. rewrite !map_app.
      destruct (Hchild (S depth) idx newId) as (H0 & H1 & H2).
      destruct (IHcs (S idx)) as (H3 & H4 & H5).
      split; [by rewrite H0, H3|].
      split; [by rewrite H1, H4|by apply Forall2_app]. }
    destruct (Hkids 0) as (H0 & H1 & H2). split; [by rewrite H0|]. split.
    + f_equal. exact H1.
    + constructor; [|exact H2].
      split; simpl.
      * intros Hi. subst newId. by apply newIdOf_kept.
      * intros w' [= ->] Hw. by rewrite newWeightOf_kept.
Qed.

(** ** Flattening *)

Lemma flatNodes_head t : exists rest, flatNodes t = t :: rest.
Proof. destruct t as [i n t [cs|] w r c]; by eexists. Qed.

Lemma flatLinks_targets t :
  Forall (fun n => id n <> "") (flatNodes t) ->
  map target (flatLinks t) = tl (map id (flatNodes t)).
Proof.
  induction t as [i n t w r c|i n t cs w r c IH] using MindMapFacts.MindMapNode_tree_ind;
    intros Hids; [reflexivity|].
  cbn [flatNodes flatLinks map tl]. cbn [flatNodes] in Hids.
  apply Forall_cons in Hids as [Hi Hids]. simpl in Hi.
  destruct (String.eqb_spec i "") as [|_]; [contradiction|]. cbn [negb andb].
  induction IH as [|child cs Hchild _ IHcs]; [reflexivity|].
  cbn [flat_map] in *. apply Forall_app in Hids as [Hc Hcs].
  rewrite !map_app, IHcs by exact Hcs. f_equal.
  destruct (flatNodes_head child) as [rest E].
  assert (Hid : id child <> "").
  { rewrite E in Hc. by apply Forall_cons in Hc as [? _]. }
  destruct (String.eqb_spec (id child) "") as [|_]; [contradiction|].
  cbn [negb app map]. rewrite Hchild by exact Hc. by rewrite E.
Qed.

Lemma flatLinks_sources t :
  Forall (fun l => source l ∈ map id (flatNodes t)) (flatLinks t).
Proof.
  induction t as [i n t w r c|i n t cs w r c IH] using MindMapFacts.MindMapNode_tree_ind;
    [constructor|].
  cbn [flatNodes flatLinks map].
  induction IH as [|child cs Hchild _ IHcs]; [constructor|].
  cbn [flat_map]. rewrite map_app. apply Forall_app; split; [apply Forall_app; split|].
  - destruct (_ && _); constructor; [|constructor]. apply elem_of_cons. by left.
  - eapply Forall_impl; [exact Hchild|]. intros l Hl. simpl in Hl.
    apply elem_of_cons. right. apply elem_of_app. by left.
  - eapply Forall_impl; [exact IHcs|]. intros l Hl. simpl in Hl.
    apply elem_of_cons in Hl as [Hl|Hl]; apply elem_of_cons; [by left|].
    right. apply elem_of_app. by right.
Qed.

(** The links are the edges, when no node lacks an id. *)
Lemma flatLinks_edges t :
  Forall (fun n => id n <> "") (flatNodes t) ->
  flatLinks t = map linkOf (edgesOf t).
Proof.
  induction t as [i n t w r c|i n t cs w r c IH] using MindMapFacts.MindMapNode_tree_ind;
    intros Hids; [reflexivity|].
  cbn [flatNodes] in Hids. apply Forall_cons in Hids as [Hi Hids]. simpl in Hi.
  cbn [flatLinks edgesOf].
  destruct (String.eqb_spec i "") as [|_]; [contradiction|]. cbn [negb andb].
  remember (mkNode i n t (Some cs) w r c) as parent eqn:Ep.
  assert (Hparent : id parent = i) by (by subst parent). clear Ep.
  induction IH as [|child cs Hchild _ IHcs]; [reflexivity|].
  cbn [flat_map] in *. apply Forall_app in Hids as [Hc Hcs].
  rewrite map_app, IHcs by exact Hcs. f_equal.
  destruct (flatNodes_head child) as [rest E].
  assert (Hid : id child <> "").
  { rewrite E in Hc. by apply Forall_cons in Hc as [? _]. }
  destruct (String.eqb_spec (id child) "") as [|_]; [contradiction|].
  cbn [negb app map]. unfold linkOf at 1. cbn [fst snd].
  by rewrite Hparent, Hchild.
Qed.

(** Every edge joins a node of the tree to one of its children ... *)
Lemma edgesOf_sound t :
  Forall (fun e => fst e ∈ flatNodes t
                   /\ exists cs, children (fst e) = Some cs /\ snd e ∈ cs)
         (edgesOf t).
Proof.
  induction t as [i n t w r c|i n t cs w r c IH] using MindMapFacts.MindMapNode_tree_ind;
    [constructor|].
  cbn [flatNodes edgesOf].
  set (parent := mkNode i n t (Some cs) w r c).
  assert (Hgen : forall kids,
             Forall (fun k => Forall (fun e => fst e ∈ flatNodes k
                                               /\ exists cs0, children (fst e) = Some cs0
                                                              /\ snd e ∈ cs0)
                                     (edgesOf k)) kids ->
             (forall child, child ∈ kids -> child ∈ cs) ->
             Forall (fun e => fst e ∈ parent :: flat_map flatNodes kids
                              /\ exists cs0, children (fst e) = Some cs0 /\ snd e ∈ cs0)
                    (flat_map (fun child => (parent, child) :: edgesOf child) kids)).
  { intros kids Hkids.
    induction Hkids as [|child kids' Hchild _ IHkids]; intros Hsub; [constructor|].
    cbn [flat_map]. constructor; [|apply Forall_app; split].
    - split; [by left|]. exists cs. split; [reflexivity|]. apply Hsub. by left.
    - eapply Forall_impl; [exact Hchild|]. intros e [He Hcs].
      split; [|exact Hcs]. right. apply elem_of_app. by left.
    - assert (Hrest : forall child0, child0 ∈ kids' -> child0 ∈ cs).
      { intros child0 H0. apply Hsub. by right. }
      eapply Forall_impl; [exact (IHkids Hrest)|]. intros e [He Hcs].
      split; [|exact Hcs].
      apply elem_of_cons in He as [He|He]; [rewrite He; by left|].
      right. apply elem_of_app. by right. }
  apply Hgen; [exact IH|auto].
Qed.

(** ... and every node of the tree is joined to each of its children. *)
Lemma edgesOf_complete t :
  forall p c cs,
    p ∈ flatNodes t -> children p = Some cs -> c ∈ cs -> (p, c) ∈ edgesOf t.
Proof.
  induction t as [i n t w r c0|i n t kids w r c0 IH] using MindMapFacts.MindMapNode_tree_ind;
    intros p c cs Hp Hcs Hc.
  - cbn [flatNodes] in Hp. apply list_elem_of_singleton in Hp as ->. discriminate.
  - cbn [flatNodes edgesOf] in *.
    remember (mkNode i n t (Some kids) w r c0) as parent eqn:Ep.
    apply elem_of_cons in Hp as [->|Hp].
    + assert (E : cs = kids) by (subst parent; by injection Hcs). subst cs.
      clear Ep Hcs IH.
      induction kids as [|k kids IHk]; [by apply elem_of_nil in Hc|].
      cbn [flat_map]. apply elem_of_cons in Hc as [->|Hc]; [by left|].
      right. apply elem_of_app. right. by apply IHk.
    + clear Ep.
      induction IH as [|k kids Hk _ IHk]; [by apply elem_of_nil in Hp|].
      cbn [flat_map] in *. apply elem_of_app in Hp as [Hp|Hp].
      * right. apply elem_of_app. left. by eapply Hk.
      * right. apply elem_of_app. right. by apply IHk.
Qed.

(** X4. The graph that [flattenGraph] makes of a sanitized tree is that
    tree.  The links are its edges, one link per edge and in the same
    order, each from the id of the parent to the id of the child; an edge
    joins a node of the graph to one of its own children, and every node of
    the graph is joined to each of its children.  So the targets of the
    links are the nodes after the first, in order, there is one link less
    than there are nodes, and every link starts at a node of the graph. *)
Theorem flattenGraph_links_are_the_edges t depth index parentId :
  let s := sanitizeData t depth index parentId in
  let g := flattenGraph s in
  snd g = map linkOf (edgesOf s)
  /\ Forall (fun e => fst e ∈ fst g
                      /\ exists cs, children (fst e) = Some cs /\ snd e ∈ cs)
            (edgesOf s)
  /\ (forall p c cs,
        p ∈ fst g -> children p = Some cs -> c ∈ cs -> (p, c) ∈ edgesOf s)
  /\ map target (snd g) = tl (map id (fst g))
  /\ length (snd g) + 1 = length (fst g)
  /\ Forall (fun l => source l ∈ map id (fst g)) (snd g).
Proof.
  cbn zeta. unfold flattenGraph. cbn [fst snd].
  set (s := sanitizeData t depth index parentId).
  assert (Hids : Forall (fun n => id n <> "") (flatNodes s)).
  { apply MindMapFacts.sanitizeData_ids. }
  pose proof (flatLinks_targets s Hids) as Ht.
  split; [by apply flatLinks_edges|].
  split; [apply edgesOf_sound|]. split; [apply edgesOf_complete|].
  split; [exact Ht|]. split; [|apply flatLinks_sources].
  apply (f_equal (@length _)) in Ht. rewrite length_map in Ht. rewrite Ht.
  destruct (flatNodes_head s) as [rest ->]. simpl. rewrite length_map. lia.
Qed.

End TreeFacts.
(* ===================================================================== *)
(** * The extractor: shape of the tree, names of the mined nodes *)
(* ===================================================================== *)

Module ShapeFacts.
Import JS Regex Types InstantMindMap MindMap Props Examples MiningProps.
Import MiningFacts.

Lemma minedLeaf_leaf i n t w :
  i <> "" -> t = TOption \/ t = TPro \/ t = TCon -> (w <= 10)%Z -> minedLeaf (leaf i n t w).
Proof. intros Hi Ht Hw. split; [reflexivity|]. split; [exact Ht|]. split; [exact Hi|]. by eexists. Qed.

Lemma minedLeaf_promote n : minedLeaf n -> minedLeaf (promote n).
Proof.
  destruct n as [i nm t ch w r c]. intros (Hc & Ht & Hi & _).
  split; [exact Hc|]. split; [exact Ht|]. split; [exact Hi|]. by eexists.
Qed.

Lemma classify_kind label :
  classify label = TOption \/ classify label = TPro \/ classify label = TCon.
Proof. unfold classify. destruct (_ || _); [tauto|]. destruct (_ || _); tauto. Qed.

Lemma minedLeaf_extract ts text idx : Forall minedLeaf (extractFromAIMessage ts text idx).
Proof.
  unfold extractFromAIMessage, step5, step4, step3, step2, step1.
  set (n1 := concat _).
  assert (H1 : Forall minedLeaf n1).
  { apply Forall_concat_imap. intros i m. apply Forall_imap. intros j choice.
    apply minedLeaf_leaf; [discriminate|tauto|lia]. }
  set (n2 := fold_left (pushBold ts) _ n1).
  assert (H2 : Forall minedLeaf n2).
  { apply Forall_fold; [|exact H1]. intros l m Hl. unfold pushBold.
    destruct (_ && _); [|exact Hl]. apply Forall_snoc; [exact Hl|].
    apply minedLeaf_leaf; [discriminate|apply classify_kind|lia]. }
  set (n3 := fold_left (pushBullet ts) _ n2).
  assert (H3 : Forall minedLeaf n3).
  { apply Forall_fold; [|exact H2]. intros l m Hl. unfold pushBullet.
    destruct (_ && _); [|exact Hl]. apply Forall_snoc; [exact Hl|].
    apply minedLeaf_leaf; [discriminate|tauto|lia]. }
  set (n4 := fold_left (pushNumbered ts) _ n3).
  assert (H4 : Forall minedLeaf n4).
  { apply Forall_fold; [|exact H3]. intros l m Hl. unfold pushNumbered.
    destruct (_ && _); [|exact Hl]. apply Forall_snoc; [exact Hl|].
    apply minedLeaf_leaf; [discriminate|tauto|lia]. }
  destruct (search true recPattern text); [|exact H4].
  destruct (_ =? _)%string; [exact H4|].
  destruct (existsb _ n4).
  - apply Forall_updateFirst; [apply minedLeaf_promote|exact H4].
  - apply Forall_snoc; [exact H4|].
    split; [reflexivity|]. split; [by left|]. split; [discriminate|]. by eexists.
Qed.

(** X6. Whatever the conversation, the tree is the root alone or the root
    over one topic node; the topic carries the name that [extractMainTopic]
    gives for the user's messages, and all there is below it are leaves of
    kind option, pro or con, each with an id and a weight of at most 10.  No
    node lies deeper, and no node of kind outcome is ever made. *)
Theorem instant_map_is_root_topic_leaves now messages :
  exists kids,
    generateInstantMindMap now messages = rootWith kids
    /\ (kids = []
        \/ exists topic mined,
             kids = [topic] /\ topicOver topic mined
             /\ name topic = extractMainTopic (userMessagesOf messages)
             /\ name topic <> ""
             /\ Forall minedLeaf mined).
Proof.
  unfold generateInstantMindMap.
  destruct (length messages =? 0); [exists []; by split; [|left]|].
  fold (userMessagesOf messages).
  destruct (String.eqb_spec (extractMainTopic (userMessagesOf messages)) "") as [|Hne];
    [exists []; by split; [|left]|].
  eexists. split; [reflexivity|]. right. eexists _, _.
  split; [reflexivity|]. split; [by repeat split|]. split; [reflexivity|].
  split; [exact Hne|].
  apply Forall_updateFirst; [apply minedLeaf_promote|].
  apply Forall_concat_imap. intros i m. apply minedLeaf_extract.
Qed.

(** ** Names *)

Lemma prefix_refl s : String.prefix s s = true.
Proof.
  induction s as [|c s IH]; [reflexivity|]. cbn [String.prefix].
  destruct (ascii_dec c c) as [_|H]; [exact IH|contradiction].
Qed.

Lemma includes_refl s : includes s s = true.
Proof. destruct s; [reflexivity|]. cbn [includes]. by rewrite prefix_refl. Qed.

Lemma someNamed_false s l : someNamed s l = false -> s ∉ map name l.
Proof.
  unfold someNamed. induction l as [|n l IH]; simpl; [set_solver|].
  intros H. apply orb_false_elim in H as [Hn Hl]. unfold named in Hn.
  apply String.eqb_neq in Hn. apply not_elem_of_cons. split; [congruence|by apply IH].
Qed.

Lemma fuzzy_false s l : existsb (fuzzy s) l = false -> s ∉ map name l.
Proof.
  induction l as [|n l IH]; simpl; [set_solver|].
  intros H. apply orb_false_elim in H as [Hn Hl].
  apply not_elem_of_cons. split; [|by apply IH].
  intros ->. unfold fuzzy in Hn. by rewrite includes_refl in Hn.
Qed.

Lemma names_updateFirst p l : map name (updateFirst p promote l) = map name l.
Proof.
  induction l as [|n l IH]; simpl; [reflexivity|].
  destruct (p n); simpl; [by destruct n|by rewrite IH].
Qed.

Lemma grows_snoc base l n : grows base l -> name n ∉ map name l -> grows base (l ++ [n]).
Proof.
  intros (added & E & Hnodup & Hbase) Hnew. rewrite E in Hnew.
  apply not_elem_of_app in Hnew as [Hb Ha].
  exists (added ++ [name n]). split; [by rewrite map_app, E, app_assoc|]. split.
  - apply NoDup_app. split; [exact Hnodup|]. split; [|apply NoDup_singleton].
    intros x Hx Hx'. apply list_elem_of_singleton in Hx'. by subst.
  - apply Forall_app. split; [exact Hbase|by constructor].
Qed.

Lemma grows_fold {A} base (f : list MindMapNode -> A -> list MindMapNode) ms :
  (forall l m, grows base l -> grows base (f l m)) ->
  forall l, grows base l -> grows base (fold_left f ms l).
Proof. intros Hf. induction ms as [|m ms IH]; intros l H; simpl; auto. Qed.

(** X7. The steps after the bracket lists never add a name that is already
    there: the names of the nodes mined from a message are those of its
    bracket-list choices, followed by names that occur once each and that no
    choice has. *)
Theorem later_steps_add_only_new_names ts text idx :
  exists added,
    map name (extractFromAIMessage ts text idx) = map name (step1 ts text) ++ added
    /\ NoDup added
    /\ Forall (fun x => x ∉ map name (step1 ts text)) added.
Proof.
  change (grows (map name (step1 ts text)) (extractFromAIMessage ts text idx)).
  unfold extractFromAIMessage. set (n1 := step1 ts text).
  assert (H1 : grows (map name n1) n1).
  { exists []. split; [by rewrite app_nil_r|]. split; constructor. }
  assert (H2 : grows (map name n1) (step2 ts text n1)).
  { apply grows_fold; [|exact H1]. intros l m Hl. unfold pushBold.
    destruct (_ && _) eqn:E; [|exact Hl]. apply andb_prop in E as [_ E].
    apply negb_true_iff in E. apply grows_snoc; [exact Hl|]. by apply someNamed_false. }
  assert (H3 : grows (map name n1) (step3 ts text (step2 ts text n1))).
  { apply grows_fold; [|exact H2]. intros l m Hl. unfold pushBullet.
    destruct (_ && _) eqn:E; [|exact Hl]. apply andb_prop in E as [_ E].
    apply negb_true_iff in E. apply grows_snoc; [exact Hl|]. by apply someNamed_false. }
  assert (H4 : grows (map name n1) (step4 ts text (step3 ts text (step2 ts text n1)))).
  { apply grows_fold; [|exact H3]. intros l m Hl. unfold pushNumbered.
    destruct (_ && _) eqn:E; [|exact Hl]. apply andb_prop in E as [_ E].
    apply negb_true_iff in E. apply grows_snoc; [exact Hl|]. by apply someNamed_false. }
  unfold step5. destruct (search true recPattern text); [|exact H4].
  destruct (_ =? _)%string; [exact H4|].
  destruct (existsb _ _) eqn:E.
  - destruct H4 as (added & E4 & H4). exists added. by rewrite names_updateFirst.
  - apply grows_snoc; [exact H4|]. by apply fuzzy_false.
Qed.

End ShapeFacts.
(* ===================================================================== *)
(** * The extractor: ids within one message *)
(* ===================================================================== *)

Module IdFacts.
Import JS Regex Types InstantMindMap MindMap Props Examples StringFacts IdProps.

(** ** Rendering is injective *)

Lemma append_inv_l a x y : a +:+ x = a +:+ y -> x = y.
Proof.
  induction a as [|c a IH]; [by rewrite !append_nil_l|].
  rewrite !append_cons. intros [= H]. by apply IH.
Qed.

Lemma digits_no_dash d : indexOf "-" (NilEmpty.string_of_uint d) = (-1)%Z.
Proof. induction d; simpl; try reflexivity; by rewrite IHd. Qed.

Lemma showNat_no_dash n : indexOf "-" (showNat n) = (-1)%Z.
Proof.
  unfold showNat, NilZero.string_of_uint.
  destruct (Nat.to_uint n); try reflexivity; apply (digits_no_dash (_ _)).
Qed.

Lemma to_uint_not_nil n : Nat.to_uint n <> Decimal.Nil.
Proof.
  intros E. pose proof (DecimalNat.Unsigned.of_to n) as H. rewrite E in H.
  simpl in H. subst n. discriminate E.
Qed.

Lemma showNat_inj n n' : showNat n = showNat n' -> n = n'.
Proof.
  unfold showNat. intros E. apply DecimalNat.Unsigned.to_uint_inj.
  apply (f_equal NilZero.uint_of_string) in E.
  rewrite !NilZero.usu in E by apply to_uint_not_nil. by injection E.
Qed.

(** Two texts cut at their first dash are equal part by part. *)
Lemma split_at_dash a a' b b' :
  indexOf "-" a = (-1)%Z -> indexOf "-" a' = (-1)%Z ->
  a +:+ String "-" b = a' +:+ String "-" b' -> a = a' /\ b = b'.
Proof.
  revert a'. induction a as [|c a IH]; intros [|c' a'] Ha Ha'.
  - rewrite !append_nil_l. by intros [= ->].
  - rewrite append_nil_l, append_cons. intros [= <- _].
    apply indexOf_absent_cons in Ha' as [Hc _]. contradiction.
  - rewrite append_nil_l, append_cons. intros [= -> _].
    apply indexOf_absent_cons in Ha as [Hc _]. contradiction.
  - rewrite !append_cons. intros [= <- E].
    apply indexOf_absent_cons in Ha as [_ Ha].
    apply indexOf_absent_cons in Ha' as [_ Ha'].
    destruct (IH a' Ha Ha' E) as [-> ->]. by split.
Qed.

Lemma stepOf_render ts k : take 2 (render ts k) = stepOf k.
Proof. by destruct k. Qed.

Lemma render_inj ts k k' : render ts k = render ts k' -> k = k'.
Proof.
  intros E. pose proof (f_equal (take 2) E) as Hstep. rewrite !stepOf_render in Hstep.
  destruct k, k'; try discriminate Hstep; clear Hstep; unfold render in E.
  - do 3 apply append_inv_l in E.
    change ("-" +:+ showNat j) with (String "-" (showNat j)) in E.
    change ("-" +:+ showNat j0) with (String "-" (showNat j0)) in E.
    apply split_at_dash in E as [Ei Ej]; try apply showNat_no_dash.
    by rewrite (showNat_inj _ _ Ei), (showNat_inj _ _ Ej).
  - do 3 apply append_inv_l in E. by rewrite (showNat_inj _ _ E).
  - do 3 apply append_inv_l in E. by rewrite (showNat_inj _ _ E).
  - do 3 apply append_inv_l in E. by rewrite (showNat_inj _ _ E).
  - reflexivity.
Qed.

(** ** The ids of step 1 *)

Lemma NoDup_snoc {A} (l : list A) x : NoDup l -> x ∉ l -> NoDup (l ++ [x]).
Proof.
  intros Hl Hx. apply NoDup_app. split; [exact Hl|]. split; [|apply NoDup_singleton].
  intros y Hy Hy'. apply list_elem_of_singleton in Hy'. by subst.
Qed.

(** The choices of one bracket list, numbered by [g]. *)
Lemma block_keys a (l : list string) :
  forall g : nat -> nat,
    (forall j j', g j = g j' -> j = j') ->
    NoDup (imap (fun j (_ : string) => KOption a (g j)) l)
    /\ (forall key, key ∈ imap (fun j (_ : string) => KOption a (g j)) l ->
          exists j, key = KOption a (g j)).
Proof.
  induction l as [|c l IH]; intros g Hg; cbn [imap].
  - split; [constructor|]. intros key H. by apply elem_of_nil in H.
  - destruct (IH (g ∘ S)) as [Hnodup Hin].
    { intros j j' E. apply Hg in E. by injection E. }
    split.
    + apply NoDup_cons. split; [|exact Hnodup].
      intros H. apply Hin in H as (j & E). injection E as E. by apply Hg in E.
    + intros key H. apply elem_of_cons in H as [->|H]; [by exists 0|].
      apply Hin in H as (j & ->). by exists (S j).
Qed.

(** The bracket lists of a text, numbered by [h]. *)
Lemma blocks_keys (ms : list string) :
  forall h : nat -> nat,
    (forall i i', h i = h i' -> i = i') ->
    NoDup (concat (imap (fun i m => imap (fun j (_ : string) => KOption (h i) j)
                                         (choicesOf m)) ms))
    /\ (forall key,
          key ∈ concat (imap (fun i m => imap (fun j (_ : string) => KOption (h i) j)
                                              (choicesOf m)) ms) ->
          exists i j, key = KOption (h i) j).
Proof.
  induction ms as [|m ms IH]; intros h Hh; cbn [imap concat].
  - split; [constructor|]. intros key H. by apply elem_of_nil in H.
  - destruct (IH (h ∘ S)) as [Hnodup Hin].
    { intros i i' E. apply Hh in E. by injection E. }
    destruct (block_keys (h 0) (choicesOf m) (fun j => j)) as [Hb Hbin]; [auto|].
    split.
    + apply NoDup_app. split; [exact Hb|]. split; [|exact Hnodup].
      intros key Hk Hk'. apply Hbin in Hk as (j & ->).
      apply Hin in Hk' as (i & j' & E). injection E as E _.
      apply Hh in E. discriminate E.
    + intros key H. apply elem_of_app in H as [H|H].
      * apply Hbin in H as (j & ->). by exists 0, j.
      * apply Hin in H as (i & j & ->). by exists (S i), j.
Qed.

Lemma ids_concat_imap {A} ts (f : nat -> A -> list MindMapNode)
    (g : nat -> A -> list idKey) (l : list A) :
  (forall i a, map id (f i a) = map (render ts) (g i a)) ->
  map id (concat (imap f l)) = map (render ts) (concat (imap g l)).
Proof.
  revert f g. induction l as [|a l IH]; intros f g H; cbn [imap concat]; [reflexivity|].
  rewrite !map_app, H. f_equal. apply IH. intros i b. apply H.
Qed.

Lemma step1_tracked ts text : exists keys, tracked ts 0 (step1 ts text) keys.
Proof.
  unfold step1. set (ms := map matched _).
  destruct (blocks_keys ms (fun i => i)) as [Hnodup Hin]; [auto|].
  eexists. split; [|split; [exact Hnodup|]].
  - apply ids_concat_imap. intros i m. unfold optionNodes.
    rewrite !ExtractorFacts.map_imap. reflexivity.
  - repeat split.
    + intros i H. apply Hin in H as (? & ? & ?). discriminate.
    + intros n H. apply Hin in H as (? & ? & ?). discriminate.
    + intros n H. apply Hin in H as (? & ? & ?). discriminate.
    + intros H. apply Hin in H as (? & ? & ?). discriminate.
Qed.

(** ** The steps that push one node at a time *)

Lemma tracked_snoc ts k k' nodes keys n key :
  tracked ts k nodes keys ->
  id n = render ts key ->
  k <= k' ->
  match key with
  | KBold i => k <= i < k'
  | KBullet m | KNum m => m = length keys
  | _ => False
  end ->
  tracked ts k' (nodes ++ [n]) (keys ++ [key]).
Proof.
  intros (Hids & Hnodup & Hbold & Hbullet & Hnum & Hrec) Hn Hk Hkey.
  assert (Hnew : key ∉ keys).
  { intros H. destruct key as [| i | m | m |]; try contradiction.
    - apply Hbold in H. lia.
    - apply Hbullet in H. lia.
    - apply Hnum in H. lia. }
  split; [rewrite !map_app, Hids; cbn [map]; by rewrite Hn|].
  split; [by apply NoDup_snoc|].
  rewrite length_app. cbn [length]. repeat split.
  - intros i H. apply elem_of_app in H as [H|H]; [apply Hbold in H; lia|].
    apply list_elem_of_singleton in H. subst key. lia.
  - intros m H. apply elem_of_app in H as [H|H]; [apply Hbullet in H; lia|].
    apply list_elem_of_singleton in H. subst key. lia.
  - intros m H. apply elem_of_app in H as [H|H]; [apply Hnum in H; lia|].
    apply list_elem_of_singleton in H. subst key. lia.
  - intros H. apply elem_of_app in H as [H|H]; [contradiction|].
    apply list_elem_of_singleton in H. subst key. contradiction.
Qed.

Lemma tracked_length ts k nodes keys : tracked ts k nodes keys -> length nodes = length keys.
Proof. intros (H & _). apply (f_equal (@length _)) in H. by rewrite !length_map in H. Qed.

Lemma step2_tracked ts (ms : list string) :
  forall h k nodes keys,
    (forall i, h i < h (S i)) -> k <= h 0 ->
    tracked ts k nodes keys ->
    exists k' keys',
      tracked ts k' (fold_left (pushBold ts) (imap (fun i m => (h i, m)) ms) nodes) keys'.
Proof.
  induction ms as [|m ms IH]; intros h k nodes keys Hh Hk H; cbn [imap fold_left].
  - by exists k, keys.
  - assert (Hstep : exists keys',
               tracked ts (S (h 0)) (pushBold ts nodes (h 0, m)) keys').
    { unfold pushBold. cbn [fst snd]. destruct (_ && _).
      - eexists. apply (tracked_snoc ts k (S (h 0)) nodes keys _ (KBold (h 0)));
          [exact H|reflexivity|lia|lia].
      - exists keys. destruct H as (Hids & Hnodup & Hbold & Hrest).
        split; [exact Hids|]. split; [exact Hnodup|]. split; [|exact Hrest].
        intros i Hi. apply Hbold in Hi. lia. }
    destruct Hstep as [keys' H'].
    apply (IH (h ∘ S) (S (h 0)) _ keys'); [intros i; apply Hh|apply Hh|exact H'].
Qed.

Lemma tracked_fold {A} ts (f : list MindMapNode -> A -> list MindMapNode) (ms : list A) :
  (forall k nodes keys m,
      tracked ts k nodes keys -> exists keys', tracked ts k (f nodes m) keys') ->
  forall k nodes keys,
    tracked ts k nodes keys -> exists keys', tracked ts k (fold_left f ms nodes) keys'.
Proof.
  intros Hf. induction ms as [|m ms IH]; intros k nodes keys H; cbn [fold_left].
  - by exists keys.
  - destruct (Hf k nodes keys m H) as [keys' H']. by apply (IH k _ keys').
Qed.

Lemma names_ids_updateFirst p l : map id (updateFirst p promote l) = map id l.
Proof.
  induction l as [|n l IH]; simpl; [reflexivity|].
  destruct (p n); simpl; [by destruct n|by rewrite IH].
Qed.

Lemma extract_tracked ts text idx :
  exists keys,
    map id (extractFromAIMessage ts text idx) = map (render ts) keys /\ NoDup keys.
Proof.
  unfold extractFromAIMessage.
  destruct (step1_tracked ts text) as [keys1 H1].
  destruct (step2_tracked ts (map matched (matchAll false boldRe text)) (fun i => i)
              0 _ keys1 Nat.lt_succ_diag_r (le_n 0) H1) as (k & keys2 & H2).
  change (imap (fun i m => (i, m)) ?l) with (indexed l) in H2.
  fold (step2 ts text (step1 ts text)) in H2.
  destruct (tracked_fold ts (pushBullet ts) (matchAll false bulletPattern text)) 
    with (k := k) (nodes := step2 ts text (step1 ts text)) (keys := keys2)
    as [keys3 H3]; [|exact H2|].
  { intros k0 nodes keys m H. unfold pushBullet. destruct (_ && _); [|by exists keys].
    eexists. apply (tracked_snoc ts k0 k0 nodes keys _ (KBullet (length nodes)));
      [exact H|reflexivity|lia|]. apply (tracked_length _ _ _ _ H). }
  fold (step3 ts text (step2 ts text (step1 ts text))) in H3.
  destruct (tracked_fold ts (pushNumbered ts) (matchAll false numberedPattern text)) 
    with (k := k) (nodes := step3 ts text (step2 ts text (step1 ts text))) (keys := keys3)
    as [keys4 H4]; [|exact H3|].
  { intros k0 nodes keys m H. unfold pushNumbered. destruct (_ && _); [|by exists keys].
    eexists. apply (tracked_snoc ts k0 k0 nodes keys _ (KNum (length nodes)));
      [exact H|reflexivity|lia|]. apply (tracked_length _ _ _ _ H). }
  fold (step4 ts text (step3 ts text (step2 ts text (step1 ts text)))) in H4.
  destruct H4 as (Hids & Hnodup & _ & _ & _ & Hrec).
  unfold step5. destruct (search true recPattern text); [|by exists keys4].
  destruct (_ =? _)%string; [by exists keys4|].
  destruct (existsb _ _).
  - exists keys4. by rewrite names_ids_updateFirst.
  - exists (keys4 ++ [KRec]). split; [by rewrite !map_app, Hids|].
    by apply NoDup_snoc.
Qed.

(** X8. Within one assistant message no id is written twice: the ids of
    the nodes mined from it are pairwise distinct, whatever the text and the
    reading of the clock. *)
Theorem ids_are_distinct_within_a_message ts text idx :
  NoDup (map id (extractFromAIMessage ts text idx)).
Proof.
  destruct (extract_tracked ts text idx) as (keys & -> & Hnodup).
  apply (NoDup_fmap_2_strong _); [|exact Hnodup].
  intros k k' _ _. apply render_inj.
Qed.

(** ** The ids of a whole tree *)

Lemma step_not_root ts k s : take 2 s = "ro" \/ take 2 s = "to" -> s <> render ts k.
Proof.
  intros Hs ->. rewrite stepOf_render in Hs. destruct k, Hs; discriminate.
Qed.

Lemma not_in_rendered ts s keys :
  take 2 s = "ro" \/ take 2 s = "to" -> s ∉ map (render ts) keys.
Proof.
  intros Hs H. apply list_elem_of_fmap_1 in H as (k & E & _).
  by apply (step_not_root ts k s).
Qed.

(** X9. In the tree of a conversation with at most one assistant message
    all ids are pairwise distinct: those of the mined nodes among themselves,
    and from the ids of the root and of the topic. *)
Theorem ids_are_distinct_for_one_answer now messages :
  length (aiMessagesOf messages) <= 1 ->
  NoDup (map id (nodesOf (generateInstantMindMap now messages))).
Proof.
  intros Hone. unfold nodesOf, generateInstantMindMap.
  destruct (length messages =? 0); [vm_compute; apply NoDup_singleton|].
  destruct (_ =? _)%string; [vm_compute; apply NoDup_singleton|].
  fold (aiMessagesOf messages).
  set (mined := mineAll now (aiMessagesOf messages)).
  assert (Hleafy : Forall leafy (updateFirst isOption promote mined)).
  { apply MiningFacts.Forall_updateFirst;
      [apply MiningFacts.leafy_promote|apply MiningFacts.leafy_mineAll]. }
  cbn [rootWith flatNodes flat_map app].
  rewrite app_nil_r, (MiningFacts.flatNodes_leafy _ Hleafy).
  cbn [map id]. rewrite names_ids_updateFirst.
  assert (Hkeys : exists ts keys, map id mined = map (render ts) keys /\ NoDup keys).
  { unfold mined, mineAll. destruct (aiMessagesOf messages) as [|m [|m' ms]].
    - exists 0%Z, []. by split; [|constructor].
    - cbn [imap concat]. rewrite app_nil_r. exists (now 1).
      apply extract_tracked.
    - simpl in Hone. lia. }
  destruct Hkeys as (ts & keys & -> & Hnodup).
  apply NoDup_cons. split; [|apply NoDup_cons; split].
  - apply not_elem_of_cons. split; [discriminate|].
    apply not_in_rendered. by left.
  - apply not_in_rendered. by right.
  - apply (NoDup_fmap_2_strong _); [|exact Hnodup].
    intros k k' _ _. apply render_inj.
Qed.

Lemma one_answer_witness :
  length (aiMessagesOf jobTalk) <= 1
  /\ NoDup (map id (nodesOf (generateInstantMindMap sameMs jobTalk))).
Proof.
  assert (H : length (aiMessagesOf jobTalk) <= 1) by (vm_compute; lia).
  split; [exact H|].
  exact (ids_are_distinct_for_one_answer sameMs jobTalk H).
Defined.

End IdFacts.
(* ===================================================================== *)
(** * The extractor: its scanning loops, its topic *)
(* ===================================================================== *)

Module LoopFacts.
Import JS Regex Types InstantMindMap Props Examples StringFacts RegexFacts.

(** ** A match lies within the text *)

Lemma rep_within {R} p (k : cont R) rest :
  forall lo hi pos cs x,
    rep p k lo hi pos cs rest = Some x ->
    exists pos' cs',
      k pos' (drop (pos' - pos) rest) cs' = Some x
      /\ pos + lo <= pos' /\ pos' <= pos + String.length rest.
Proof.
  induction rest as [|c rest IH]; intros lo hi pos cs x H; simpl in H.
  - destruct lo; [|discriminate]. exists pos, cs.
    rewrite Nat.sub_diag. split; [exact H|simpl; lia].
  - assert (Hstop : match lo with 0 => k pos (String c rest) cs | S _ => None end = Some x ->
                    exists pos' cs',
                      k pos' (drop (pos' - pos) (String c rest)) cs' = Some x
                      /\ pos + lo <= pos' /\ pos' <= pos + String.length (String c rest)).
    { destruct lo; [|discriminate]. intros Hk.
      exists pos, cs. rewrite Nat.sub_diag. split; [exact Hk|simpl; lia]. }
    destruct (p c && hiLeft hi); [|auto].
    apply orElse_Some in H as [H|[_ H]]; [|auto].
    apply IH in H as (pos' & cs' & Hk & Hle & Hin).
    exists pos', cs'. split; [|simpl; lia].
    replace (pos' - pos) with (S (pos' - S pos)) by lia. exact Hk.
Qed.

Lemma length_drop n s : String.length (drop n s) = String.length s - n.
Proof.
  revert s. induction n as [|n IH]; intros [|c s]; simpl; try lia. apply IH.
Qed.

Lemma run_within {R} ic r :
  forall (k : cont R) pos rest cs x,
    run ic r k pos rest cs = Some x ->
    exists pos' cs',
      k pos' (drop (pos' - pos) rest) cs' = Some x
      /\ pos + minLen r <= pos' /\ pos' <= pos + String.length rest.
Proof.
  induction r as [| | |c|p|r1 IH1 r2 IH2|r1 IH1 r2 IH2|p lo hi|i r1 IH1];
    intros k pos rest cs x H; simpl in H |- *.
  - exists pos, cs. rewrite Nat.sub_diag. split; [exact H|lia].
  - destruct (pos =? 0); [|discriminate].
    exists pos, cs. rewrite Nat.sub_diag. split; [exact H|lia].
  - destruct rest; [|discriminate].
    exists pos, cs. rewrite Nat.sub_diag. split; [exact H|simpl; lia].
  - destruct rest as [|d rest]; [discriminate|].
    destruct (chrMatch ic c d); [|discriminate].
    exists (S pos), cs. replace (S pos - pos) with 1 by lia. split; [exact H|simpl; lia].
  - destruct rest as [|d rest]; [discriminate|].
    destruct (p d); [|discriminate].
    exists (S pos), cs. replace (S pos - pos) with 1 by lia. split; [exact H|simpl; lia].
  - apply IH1 in H as (pos1 & cs1 & H & Hle1 & Hin1).
    apply IH2 in H as (pos2 & cs2 & H & Hle2 & Hin2).
    rewrite length_drop in Hin2.
    exists pos2, cs2. split; [|lia].
    rewrite drop_drop in H. replace (pos2 - pos) with (pos1 - pos + (pos2 - pos1)) by lia.
    exact H.
  - apply orElse_Some in H as [H|[_ H]].
    + apply IH1 in H as (pos1 & cs1 & H & Hle & Hin).
      exists pos1, cs1. split; [exact H|lia].
    + apply IH2 in H as (pos1 & cs1 & H & Hle & Hin).
      exists pos1, cs1. split; [exact H|lia].
  - apply (rep_within p k rest lo hi pos cs x H).
  - apply IH1 in H as (pos1 & cs1 & H & Hle & Hin).
    exists pos1, ((i, take (pos1 - pos) rest) :: cs1). split; [exact H|lia].
Qed.

Lemma execAt_within ic r pos rest m :
  execAt ic r pos rest = Some m ->
  pos + minLen r <= lastIndex m /\ lastIndex m <= pos + String.length rest.
Proof.
  unfold execAt. intros H.
  apply run_within in H as (pos' & cs' & H & Hle & Hin).
  injection H as <-. simpl. lia.
Qed.

(** A loop over the matches of an expression that reads [k] characters or
    more makes at most one turn per [k] characters of the text. *)
Lemma scan_count ic r k rest :
  k <= minLen r -> 1 <= k ->
  forall skip pos,
    k * length (scan ic r skip pos rest) <= String.length rest - skip.
Proof.
  intros Hk Hpos. induction rest as [|c rest IH]; intros skip pos; cbn [scan].
  - destruct skip; [|simpl; lia].
    destruct (execAt ic r pos "") as [m|] eqn:E; [|simpl; lia].
    apply execAt_within in E. simpl in E. lia.
  - destruct skip as [|skip].
    + destruct (execAt ic r pos (String c rest)) as [m|] eqn:E.
      * apply execAt_within in E. simpl String.length in *.
        specialize (IH (lastIndex m - pos - 1) (S pos)). simpl length. lia.
      * specialize (IH 0 (S pos)). simpl String.length. lia.
    + specialize (IH skip (S pos)). simpl String.length. lia.
Qed.

(** X10. The two [while (pattern.exec(text))] loops of the extractor make
    progress: a match of the bullet pattern or of the numbered pattern
    spans five characters of the text or more, so that each loop ends after
    at most one turn per five characters. *)
Theorem scanning_loops_are_bounded text :
  5 * length (matchAll false bulletPattern text) <= String.length text
  /\ 5 * length (matchAll false numberedPattern text) <= String.length text.
Proof.
  unfold matchAll. split.
  - pose proof (scan_count false bulletPattern 5 text) as H.
    specialize (H ltac:(simpl; lia) ltac:(lia) 0 0). lia.
  - pose proof (scan_count false numberedPattern 5 text) as H.
    specialize (H ltac:(simpl; lia) ltac:(lia) 0 0). lia.
Qed.

End LoopFacts.

Module TopicFacts.
Import JS Regex Types InstantMindMap Props Examples StringFacts RegexFacts TopicProps.

(** ** The first pattern on a question that opens with its words *)

Lemma run_Lit_ic {R} s (k : cont R) rest :
  forall t pos cs,
    toLowerCase t = toLowerCase s ->
    run true (Lit s) k pos (t +:+ rest) cs = k (pos + String.length s) rest cs.
Proof.
  induction s as [|c s IH]; intros [|d t] pos cs E; try discriminate.
  - rewrite append_nil_l. simpl. by rewrite Nat.add_0_r.
  - injection E as Ec Et. rewrite append_cons. cbn [Lit run]. unfold chrMatch.
    rewrite Ec, Ascii.eqb_refl, (IH t) by exact Et. simpl String.length.
    f_equal. lia.
Qed.

Lemma allOf_present p w c : allOf p w = true -> indexOf c w <> (-1)%Z -> p c = true.
Proof.
  induction w as [|d w IH]; simpl; [by intros _ []|].
  intros H. apply andb_prop in H as [Hd Hw].
  destruct (Ascii.eqb_spec d c) as [->|_]; [by intros _|].
  destruct (Z.eqb_spec (indexOf c w) (-1)); [by intros []|]. intros _. by apply IH.
Qed.

(** The optional question mark never stops a match. *)
Lemma rep_optional {R} c (k : cont R) pos cs rest :
  (forall pos' rest', exists x, k pos' rest' cs = Some x) ->
  exists x pos' rest', rep (Ascii.eqb c) k 0 (Some 1) pos cs rest = Some x
                  /\ k pos' rest' cs = Some x.
Proof.
  intros Hk. destruct rest as [|d rest]; cbn [rep].
  - destruct (Hk pos "") as [x Hx]. by exists x, pos, "".
  - destruct (Ascii.eqb c d); cbn [andb hiLeft].
    + cbn [fmap option_fmap option_map pred].
      destruct rest as [|e rest]; cbn [rep].
      * destruct (Hk (S pos) "") as [x Hx]. exists x, (S pos), "".
        by rewrite Hx.
      * rewrite andb_false_r. destruct (Hk (S pos) (String e rest)) as [x Hx].
        exists x, (S pos), (String e rest). by rewrite Hx.
    + destruct (Hk pos (String d rest)) as [x Hx]. by exists x, pos, (String d rest).
Qed.

Lemma execAt_should_i opening w rest :
  toLowerCase opening = "should i " -> wordsThen w rest ->
  exists m,
    execAt true (nth 0 patterns Eps) 0 (opening +:+ w +:+ rest) = Some m
    /\ groups m = [(1, w)].
Proof.
  intros Hopen (Hne & Hall & Hstop).
  unfold execAt. cbn [nth patterns Cat fold_right]. cbn [run].
  rewrite (run_Lit_ic "should i " _ (w +:+ rest) opening 0 [] Hopen).
  unfold Plus, OptC. cbn [run].
  set (kfin := fun (e : nat) (rest' : string) (cs : caps) =>
                 Some (mkMatch 0 e (take (e - 0) (opening +:+ w +:+ rest)) cs rest')).
  destruct (rep_optional "?" (fun p r c => kfin p r c)
              (0 + String.length "should i " + String.length w)
              [(1, take (0 + String.length "should i " + String.length w
                         - (0 + String.length "should i ")) (w +:+ rest))] rest)
    as (x & pos' & rest' & Hrep & Hx).
  { intros p r. by eexists. }
  exists x. split.
  - apply BracketFacts.rep_whole.
    + intros c. by apply allOf_present.
    + exact Hstop.
    + destruct w; [contradiction|simpl; lia].
    + exact Hrep.
  - unfold kfin in Hx. injection Hx as <-. cbn [groups].
    by rewrite Nat.sub_0_r, take_append.
Qed.

(** X11. A first question that opens with "Should I" (in any case) names
    the topic: the words that follow, up to the first character that is
    neither a letter, a digit, an underscore nor white space, are the topic,
    trimmed and with their first letter in upper case.  No later message
    changes it. *)
Theorem should_i_question_names_the_topic opening w rest others :
  toLowerCase opening = "should i " -> wordsThen w rest ->
  extractMainTopic (mkMessage user (opening +:+ w +:+ rest) :: others)
  = capitalize (trim w).
Proof.
  intros Hopen Hw.
  destruct (execAt_should_i opening w rest Hopen Hw) as (m & Hm & Hg).
  unfold extractMainTopic. cbn [text].
  change patterns with (nth 0 patterns Eps :: tl patterns). cbn [firstPattern].
  rewrite (BracketFacts.search_at_start _ _ _ _ Hm).
  unfold group2or1. by rewrite Hg.
Qed.

Lemma should_i_witness :
  toLowerCase "Should I " = "should i "
  /\ wordsThen "switch jobs" "? I am not sure."
  /\ extractMainTopic [mkMessage user "Should I switch jobs? I am not sure.";
                       mkMessage user "Or stay?"]
     = "Switch jobs".
Proof.
  assert (Hopen : toLowerCase "Should I " = "should i ") by reflexivity.
  assert (Hw : wordsThen "switch jobs" "? I am not sure.").
  { split; [discriminate|]. split; reflexivity. }
  split; [exact Hopen|]. split; [exact Hw|].
  exact (should_i_question_names_the_topic "Should I " "switch jobs" "? I am not sure."
           [mkMessage user "Or stay?"] Hopen Hw).
Defined.

End TopicFacts.
(* ===================================================================== *)
(** * The decoder: what it returns, what it leaves alone *)
(* ===================================================================== *)

Module SliceFacts.
Import JS Regex Types DeepseekService Props Examples StringFacts.

(** ** The slice opens with a brace or a bracket *)

Lemma take_cons n c s : take (S n) (String c s) = String c (take n s).
Proof. reflexivity. Qed.

Lemma sliceOf_opens text s :
  sliceOf text = inl s ->
  exists c rest, s = String c rest /\ (c = "{"%char \/ c = "["%char).
Proof.
  unfold sliceOf. set (cleaned := stripFences text).
  pose proof (indexOf_lower "{" cleaned) as Hb.
  pose proof (indexOf_lower "[" cleaned) as Hk.
  destruct (_ && _) eqn:E; [discriminate|]. intros [= <-].
  assert (Hstart : exists c, (c = "{"%char \/ c = "["%char)
                     /\ startOf (indexOf "{" cleaned) (indexOf "[" cleaned)
                        = indexOf c cleaned
                     /\ (0 <= indexOf c cleaned)%Z).
  { unfold startOf.
    destruct (Z.eqb_spec (indexOf "{" cleaned) (-1)) as [Eb|Eb],
             (Z.eqb_spec (indexOf "[" cleaned) (-1)) as [Ek|Ek];
      simpl in E |- *; try discriminate.
    - exists "["%char. split; [by right|]. split; [reflexivity|lia].
    - exists "{"%char. split; [by left|]. split; [reflexivity|lia].
    - destruct (_ <? _)%Z.
      + exists "{"%char. split; [by left|]. split; [reflexivity|lia].
      + exists "["%char. split; [by right|]. split; [reflexivity|lia]. }
  destruct Hstart as (c & Hc & -> & Hpos). unfold substringFrom.
  destruct (DecoderFacts.indexOf_drop c cleaned Hpos) as [rest ->].
  set (end_ := Z.max _ _).
  exists c. destruct (Z.eqb_spec end_ (-1)) as [_|Hne]; simpl negb; cbv iota.
  - by exists rest.
  - assert (Hend : (0 <= end_)%Z).
    { pose proof (lastIndexOf_lower "}" (String c rest)).
      pose proof (lastIndexOf_lower "]" (String c rest)). lia. }
    unfold substring. rewrite Z.min_l, Z.max_r by lia.
    change (Z.to_nat 0) with 0. rewrite Nat.sub_0_r.
    change (drop 0 (String c rest)) with (String c rest).
    replace (Z.to_nat (end_ + 1)) with (S (Z.to_nat end_)) by lia.
    rewrite take_cons. by eexists.
Qed.

Lemma JSON_parse_structure c rest v :
  c = "{"%char \/ c = "["%char ->
  JSON_parse (String c rest) = Some v ->
  (exists members, v = JObj members) \/ (exists items, v = JArr items).
Proof.
  intros Hc. unfold JSON_parse.
  set (fuel := 2 * String.length (String c rest)). clearbody fuel.
  destruct Hc as [-> | ->].
  - rewrite DecoderFacts.parseValue_brace.
    destruct (skipWs rest) as [|d rest']; [discriminate|].
    destruct (d =? "}")%char.
    + destruct (skipWs rest'); [|discriminate]. intros [= <-]. left. by eexists.
    + destruct (parseMembers fuel rest) as [[members rest'']|]; [|discriminate].
      destruct (skipWs rest''); [|discriminate]. intros [= <-]. left. by eexists.
  - rewrite DecoderFacts.parseValue_bracket.
    destruct (skipWs rest) as [|d rest']; [discriminate|].
    destruct (d =? "]")%char.
    + destruct (skipWs rest'); [|discriminate]. intros [= <-]. right. by eexists.
    + destruct (parseElements fuel rest) as [[items rest'']|]; [|discriminate].
      destruct (skipWs rest''); [|discriminate]. intros [= <-]. right. by eexists.
Qed.

(** X12. What the decoder returns is an object or an array, never a bare
    string, number, boolean or [null]: the text it hands to the parser
    always opens with a brace or a bracket. *)
Theorem decoder_returns_object_or_array text v :
  cleanAndParseJSON JSON_parse text = inl v ->
  (exists members, v = JObj members) \/ (exists items, v = JArr items).
Proof.
  unfold cleanAndParseJSON. destruct (sliceOf text) as [s|e] eqn:E; [|discriminate].
  apply sliceOf_opens in E as (c & rest & -> & Hc).
  destruct (JSON_parse (String c rest)) as [v'|] eqn:Ev; [|discriminate].
  intros [= <-]. by apply (JSON_parse_structure c rest).
Qed.

Lemma decoder_structure_witness :
  cleanAndParseJSON JSON_parse fencedReply = inl objectA1
  /\ ((exists members, objectA1 = JObj members) \/ (exists items, objectA1 = JArr items)).
Proof.
  assert (H : cleanAndParseJSON JSON_parse fencedReply = inl objectA1) by reflexivity.
  split; [exact H|].
  exact (decoder_returns_object_or_array fencedReply objectA1 H).
Defined.

(** ** A reply that is JSON already *)

Lemma execAt_Lit_miss c lit pos rest :
  indexOf c rest = (-1)%Z -> execAt false (Lit (String c lit)) pos rest = None.
Proof.
  intros H. unfold execAt. cbn [Lit run]. destruct rest as [|d rest]; [reflexivity|].
  apply indexOf_absent_cons in H as [Hd _]. unfold chrMatch.
  destruct (Ascii.eqb_spec c d) as [->|_]; [contradiction|reflexivity].
Qed.

Lemma replaceScan_miss c lit repl rest :
  forall pos,
    indexOf c rest = (-1)%Z ->
    replaceScan false (Lit (String c lit)) repl 0 pos rest = rest.
Proof.
  induction rest as [|d rest IH]; intros pos H; cbn [replaceScan];
    rewrite (execAt_Lit_miss c lit pos _ H); [reflexivity|].
  apply indexOf_absent_cons in H as [_ H]. by rewrite IH.
Qed.

Lemma stripFences_clean text : indexOf "`" text = (-1)%Z -> stripFences text = text.
Proof.
  intros H. unfold stripFences, replaceAll, fenceRe, fenceJsonRe.
  rewrite (replaceScan_miss "`" "``json" "" text 0 H).
  exact (replaceScan_miss "`" "``" "" text 0 H).
Qed.

Lemma lastIndexOf_upper c s : (lastIndexOf c s < Z.of_nat (String.length s))%Z.
Proof.
  induction s as [|d s IH]; simpl String.length; cbn [lastIndexOf]; [lia|].
  destruct (Z.eqb_spec (lastIndexOf c s) (-1)); [destruct (d =? c)%char|]; lia.
Qed.

Lemma lastIndexOf_end c s :
  lastIndexOf c (s +:+ String c "") = Z.of_nat (String.length s).
Proof.
  induction s as [|d s IH].
  - rewrite append_nil_l. cbn [lastIndexOf]. simpl. by rewrite Ascii.eqb_refl.
  - rewrite append_cons. cbn [lastIndexOf]. rewrite IH. simpl String.length.
    destruct (Z.eqb_spec (Z.of_nat (String.length s)) (-1)); lia.
Qed.

Lemma take_all s : take (String.length s) s = s.
Proof. induction s as [|c s IH]; simpl; [reflexivity|]. by rewrite IH. Qed.

Lemma indexOf_head c s : indexOf c (String c s) = 0%Z.
Proof. simpl. by rewrite Ascii.eqb_refl. Qed.

Lemma indexOf_tail_range c d s :
  d <> c -> indexOf c (String d s) = (-1)%Z \/ (1 <= indexOf c (String d s))%Z.
Proof.
  intros Hne. pose proof (indexOf_lower c s). simpl.
  destruct (Ascii.eqb_spec d c) as [|_]; [contradiction|].
  destruct (Z.eqb_spec (indexOf c s) (-1)); lia.
Qed.

Lemma startOf_zero a b :
  (a = 0 /\ (b = -1 \/ 1 <= b))%Z \/ (b = 0 /\ (a = -1 \/ 1 <= a))%Z ->
  startOf a b = 0%Z /\ (a =? -1)%Z && (b =? -1)%Z = false.
Proof.
  unfold startOf. intros H.
  destruct (Z.eqb_spec a (-1)), (Z.eqb_spec b (-1)), (Z.ltb_spec a b); simpl; lia.
Qed.

Lemma sliceOf_clean opening closing body :
  opening = "{"%char \/ opening = "["%char ->
  closing = "}"%char \/ closing = "]"%char ->
  indexOf "`" body = (-1)%Z ->
  sliceOf (String opening (body +:+ String closing ""))
  = inl (String opening (body +:+ String closing "")).
Proof.
  intros Hopen Hclose Hbody.
  set (text := String opening (body +:+ String closing "")).
  assert (Htick : indexOf "`" text = (-1)%Z).
  { unfold text. apply indexOf_absent_cons. split.
    - destruct Hopen as [-> | ->]; discriminate.
    - apply absent_append. split; [exact Hbody|].
      destruct Hclose as [-> | ->]; reflexivity. }
  unfold sliceOf. rewrite (stripFences_clean text Htick).
  assert (Hstart : startOf (indexOf "{" text) (indexOf "[" text) = 0%Z
                   /\ (indexOf "{" text =? -1)%Z && (indexOf "[" text =? -1)%Z = false).
  { apply startOf_zero. unfold text.
    destruct Hopen as [-> | ->]; [left|right];
      (split; [apply indexOf_head|by apply indexOf_tail_range]). }
  destruct Hstart as [-> ->]. unfold substringFrom. change (Z.to_nat 0) with 0.
  change (drop 0 text) with text.
  set (end_ := Z.max _ _).
  assert (Hend : end_ = Z.of_nat (String.length (String opening body))).
  { pose proof (lastIndexOf_upper "}" text) as Hb.
    pose proof (lastIndexOf_upper "]" text) as Hk.
    assert (Hlen : String.length text = S (String.length (String opening body))).
    { unfold text. simpl. rewrite length_append. simpl. lia. }
    rewrite Hlen in Hb, Hk.
    assert (Hlast : lastIndexOf closing text
                    = Z.of_nat (String.length (String opening body))).
    { unfold text. rewrite <- append_cons. apply lastIndexOf_end. }
    unfold end_. destruct Hclose as [-> | ->]; rewrite Hlast; lia. }
  rewrite Hend.
  destruct (Z.eqb_spec (Z.of_nat (String.length (String opening body))) (-1)); [lia|].
  simpl negb. cbv iota. f_equal. unfold substring.
  rewrite Z.min_l, Z.max_r by lia. change (Z.to_nat 0) with 0. rewrite Nat.sub_0_r.
  change (drop 0 text) with text.
  replace (Z.to_nat (Z.of_nat (String.length (String opening body)) + 1))
    with (String.length text); [apply take_all|].
  unfold text. simpl. rewrite length_append. simpl. lia.
Qed.

(** X13. A reply that is an object or an array already (it opens with a
    brace or a bracket, closes with one, and holds no backtick) reaches the
    parser as it stands, and the decoder returns what the parser makes of
    it. *)
Theorem clean_reply_is_parsed_as_it_stands {J} (parse : string -> option J)
    opening closing body :
  opening = "{"%char \/ opening = "["%char ->
  closing = "}"%char \/ closing = "]"%char ->
  indexOf "`" body = (-1)%Z ->
  cleanAndParseJSON parse (String opening (body +:+ String closing ""))
  = match parse (String opening (body +:+ String closing "")) with
    | Some v => inl v
    | None => inr ParseError
    end.
Proof.
  intros Hopen Hclose Hbody. unfold cleanAndParseJSON.
  rewrite (sliceOf_clean opening closing body Hopen Hclose Hbody).
  by destruct (parse _).
Qed.

Lemma clean_reply_witness :
  indexOf "`" (QUOTE +:+ "a" +:+ QUOTE +:+ ":[1,2]") = (-1)%Z
  /\ cleanAndParseJSON JSON_parse ("{" +:+ QUOTE +:+ "a" +:+ QUOTE +:+ ":[1,2]}")
     = inl (JObj [("a", JArr [JNum "1"; JNum "2"])]).
Proof.
  split; [reflexivity|].
  exact (clean_reply_is_parsed_as_it_stands JSON_parse "{" "}"
           (QUOTE +:+ "a" +:+ QUOTE +:+ ":[1,2]")
           (or_introl eq_refl) (or_introl eq_refl) eq_refl).
Defined.

End SliceFacts.
(* ===================================================================== *)
(** * The chat stream: framing of the events *)
(* ===================================================================== *)

Module StreamFacts.
Import JS DeepseekService ChatStream Props StreamProps StreamExamples StringFacts.

(** ** Splitting at blank lines *)

Lemma splitBlank_eq c d rest :
  splitBlank (String c (String d rest))
  = if (c =? LF)%char && (d =? LF)%char then "" :: splitBlank rest
    else onHead c (splitBlank (String d rest)).
Proof. reflexivity. Qed.

Lemma splitBlank_nonempty s : splitBlank s <> [].
Proof.
  destruct s as [|c [|d rest]]; [discriminate..|]. rewrite splitBlank_eq.
  destruct (_ && _); [discriminate|]. by destruct (splitBlank (String d rest)).
Qed.

Lemma splitBlank_sep rest : splitBlank (String LF (String LF rest)) = "" :: splitBlank rest.
Proof. reflexivity. Qed.

Lemma splitBlank_step c d rest :
  (c =? LF)%char && (d =? LF)%char = false ->
  splitBlank (String c (String d rest)) = onHead c (splitBlank (String d rest)).
Proof. intros H. by rewrite splitBlank_eq, H. Qed.

Lemma removelast_onHead c l : l <> [] -> removelast (onHead c l) = match removelast l with
                                                  | [] => []
                                                  | _ => onHead c (removelast l)
                                                  end.
Proof. destruct l as [|w [|w' ws]]; intros H; [contradiction| |]; reflexivity. Qed.

(** A text in one piece is that piece. *)
Lemma splitBlank_single :
  forall n s, String.length s <= n -> forall w, splitBlank s = [w] -> w = s.
Proof.
  induction n as [|n IH]; intros s Hlen w.
  - destruct s; [by intros [= <-]|simpl in Hlen; lia].
  - destruct s as [|c [|d rest]]; [by intros [= <-]..|].
    simpl in Hlen. rewrite splitBlank_eq.
    pose proof (splitBlank_nonempty rest) as Hrest.
    pose proof (splitBlank_nonempty (String d rest)) as Hne.
    destruct (_ && _).
    + intros [= _ H]. contradiction.
    + destruct (splitBlank (String d rest)) as [|w' [|w'' ws]] eqn:Es;
        [contradiction| |discriminate].
      intros [= <-]. f_equal. apply (IH (String d rest)); [simpl; lia|exact Es].
Qed.

(** The pieces of a text that goes on: the complete pieces of the text so
    far stay, and the last piece is split again with what follows. *)
Lemma splitBlank_app b :
  forall n a, String.length a <= n ->
    splitBlank (a +:+ b)
    = removelast (splitBlank a) ++ splitBlank (List.last (splitBlank a) "" +:+ b).
Proof.
  induction n as [|n IH]; intros a Hlen.
  - destruct a; [reflexivity|simpl in Hlen; lia].
  - destruct a as [|c [|d rest]]; [reflexivity|reflexivity|].
    simpl in Hlen. rewrite !append_cons.
    destruct ((c =? LF)%char && (d =? LF)%char) eqn:E.
    + apply andb_prop in E as [Ec Ed].
      apply Ascii.eqb_eq in Ec, Ed. subst c d.
      rewrite !splitBlank_sep, IH by lia.
      pose proof (splitBlank_nonempty rest) as Hne.
      destruct (splitBlank rest) as [|w ws]; [contradiction|]. reflexivity.
    + rewrite !splitBlank_step by exact E.
      rewrite <- append_cons, (IH (String d rest)) by (simpl; lia).
      pose proof (splitBlank_nonempty (String d rest)) as Hne.
      destruct (splitBlank (String d rest)) as [|w [|w' ws]] eqn:Es; [contradiction| |].
      * cbn [removelast List.last onHead app]. rewrite append_cons.
        apply (splitBlank_single (S (String.length rest))) in Es; [|simpl; lia].
        subst w. rewrite append_cons. by rewrite splitBlank_step.
      * reflexivity.
Qed.

Lemma splitBlank_line s : indexOf LF s = (-1)%Z -> splitBlank s = [s].
Proof.
  induction s as [|c s IH]; [reflexivity|]. intros H.
  apply indexOf_absent_cons in H as [Hc Hs]. destruct s as [|d rest]; [reflexivity|].
  rewrite splitBlank_step, (IH Hs); [reflexivity|].
  destruct (Ascii.eqb_spec c LF); [contradiction|reflexivity].
Qed.

Lemma splitBlank_event w s :
  indexOf LF w = (-1)%Z ->
  splitBlank (w +:+ String LF (String LF s)) = w :: splitBlank s.
Proof.
  induction w as [|c w IH]; [reflexivity|]. intros H.
  apply indexOf_absent_cons in H as [Hc Hw]. rewrite append_cons.
  assert (E : exists d rest, w +:+ String LF (String LF s) = String d rest).
  { destruct w; [rewrite append_nil_l|rewrite append_cons]; by eexists _, _. }
  destruct E as (d & rest & E). rewrite E, splitBlank_step.
  - by rewrite <- E, (IH Hw).
  - destruct (Ascii.eqb_spec c LF); [contradiction|reflexivity].
Qed.

(** ** The reading loop *)

Section Reading.
Context (JSON_parse : string -> option json).
Context (isZero : string -> bool) (show : json -> string).

Local Abbreviation eventContent := (eventContent JSON_parse isZero).
Local Abbreviation contentOf := (contentOf JSON_parse isZero).
Local Abbreviation deliver := (deliver JSON_parse isZero show).
Local Abbreviation onChunk := (onChunk JSON_parse isZero show).
Local Abbreviation readAll := (readAll JSON_parse isZero show).
Local Abbreviation toStr := (toStr show).

Lemma whole_app a b : whole (a ++ b) = whole a +:+ whole b.
Proof.
  induction a as [|x a IH]; simpl; [by rewrite append_nil_l|].
  by rewrite IH, append_assoc.
Qed.

Lemma omap_cons_list {A B} (f : A -> option B) x (l : list A) :
  omap f (x :: l) = match f x with Some y => y :: omap f l | None => omap f l end.
Proof. reflexivity. Qed.

Lemma deliver_fold evs :
  forall r,
    fold_left deliver evs r
    = mkReading (buffer r)
                (fullResponse r +:+ whole (map toStr (omap eventContent evs)))
                (yielded r ++ omap eventContent evs).
Proof.
  induction evs as [|e evs IH]; intros [b f y]; cbn [fold_left].
  - cbn. by rewrite append_nil_r, app_nil_r.
  - rewrite IH, omap_cons_list. unfold ChatStream.deliver.
    destruct (eventContent e) as [c|]; [|reflexivity].
    cbn [buffer fullResponse yielded map whole fold_right].
    by rewrite append_assoc, <- app_assoc.
Qed.

Lemma onChunk_eq r chunk :
  onChunk r chunk
  = let events := splitBlank (buffer r +:+ chunk) in
    mkReading (List.last events "")
              (fullResponse r
               +:+ whole (map toStr (omap eventContent (removelast events))))
              (yielded r ++ omap eventContent (removelast events)).
Proof. unfold ChatStream.onChunk. cbn zeta. by rewrite deliver_fold. Qed.

Lemma removelast_app_nonempty {A} (l l' : list A) :
  l' <> [] -> removelast (l ++ l') = l ++ removelast l'.
Proof. intros H. by apply removelast_app. Qed.

Lemma last_app_nonempty {A} (l l' : list A) d :
  l' <> [] -> List.last (l ++ l') d = List.last l' d.
Proof.
  intros H. induction l as [|x l IH]; [reflexivity|].
  cbn [app]. destruct (l ++ l') eqn:E; [|exact IH].
  apply app_eq_nil in E as [_ E]. contradiction.
Qed.

Lemma omap_app_list {A B} (f : A -> option B) (l l' : list A) :
  omap f (l ++ l') = omap f l ++ omap f l'.
Proof. induction l as [|x l IH]; cbn; [reflexivity|]. rewrite IH. by destruct (f x). Qed.

(** Two chunks read one after the other leave what their concatenation,
    read at once, leaves. *)
Lemma onChunk_app r a b : onChunk (onChunk r a) b = onChunk r (a +:+ b).
Proof.
  rewrite !onChunk_eq. cbn zeta. cbn [buffer fullResponse yielded].
  rewrite <- append_assoc.
  rewrite (splitBlank_app b _ (buffer r +:+ a) (le_n _)).
  pose proof (splitBlank_nonempty (List.last (splitBlank (buffer r +:+ a)) "" +:+ b)) as Hne.
  rewrite removelast_app_nonempty, last_app_nonempty by exact Hne.
  rewrite omap_app_list, map_app, whole_app, append_assoc, app_assoc.
  reflexivity.
Qed.

Lemma fold_onChunk chunks :
  forall r a, fold_left onChunk chunks (onChunk r a) = onChunk r (a +:+ whole chunks).
Proof.
  induction chunks as [|c chunks IH]; intros r a; cbn [fold_left whole fold_right].
  - by rewrite append_nil_r.
  - by rewrite onChunk_app, IH, append_assoc.
Qed.

Lemma readAll_whole chunks : readAll chunks = onChunk (mkReading "" "" []) (whole chunks).
Proof.
  unfold ChatStream.readAll.
  change (mkReading "" "" []) with (onChunk (mkReading "" "" []) "") at 1.
  by rewrite fold_onChunk, append_nil_l.
Qed.

(** X14. What the reading loop yields, the answer it builds and the text it
    is left with do not depend on how the network cuts the stream: the
    chunks read one by one give what their concatenation gives when it
    comes as one chunk. *)
Theorem reading_is_independent_of_chunking chunks :
  readAll chunks = readAll [whole chunks].
Proof.
  rewrite (readAll_whole chunks), (readAll_whole [whole chunks]).
  cbn [whole fold_right]. by rewrite append_nil_r.
Qed.

(** ** Events as a server writes them *)

Lemma endsClean_append a d : endsClean d = true -> endsClean (a +:+ d) = true.
Proof.
  intros H. induction a as [|c a IH]; [by rewrite append_nil_l|].
  rewrite append_cons. cbn [endsClean]. destruct (a +:+ d) eqn:E; [|exact IH].
  destruct a; [rewrite append_nil_l in E; by subst|by rewrite append_cons in E].
Qed.

Lemma prefix_append a b : String.prefix a (a +:+ b) = true.
Proof.
  induction a as [|c a IH]; [by destruct b|]. rewrite append_cons. cbn [String.prefix].
  destruct (ascii_dec c c) as [_|H]; [exact IH|contradiction].
Qed.

Lemma trim_payload d : payload d -> trim d = d.
Proof.
  intros (Hs & He & _). unfold trim.
  by rewrite (BracketFacts.startsClean_trimStart d Hs), (BracketFacts.endsClean_trimEnd d He).
Qed.

Lemma eventContent_payload d :
  payload d ->
  eventContent ("data: " +:+ d)
  = if (d =? "[DONE]")%string then None else contentOf d.
Proof.
  intros Hd. pose proof Hd as (Hs & He & Hlf).
  unfold ChatStream.eventContent, dataLineOf.
  rewrite BracketFacts.splitChar_absent.
  2:{ apply absent_append. by split. }
  cbn [map]. unfold trim at 1.
  rewrite BracketFacts.startsClean_trimStart by reflexivity.
  rewrite BracketFacts.endsClean_trimEnd by (by apply endsClean_append).
  cbn [List.find]. rewrite prefix_append.
  change 6 with (String.length "data: "). rewrite drop_append.
  by rewrite (trim_payload d Hd).
Qed.

Lemma eventOf_app d s :
  eventOf d +:+ s = ("data: " +:+ d) +:+ String LF (String LF s).
Proof.
  unfold eventOf. rewrite !append_assoc. by rewrite !append_cons, append_nil_l.
Qed.

Lemma splitBlank_events ds tail :
  Forall payload ds -> indexOf LF tail = (-1)%Z ->
  splitBlank (whole (map eventOf ds) +:+ tail)
  = map (String.append "data: ") ds ++ [tail].
Proof.
  intros Hds Htail. induction Hds as [|d ds Hd _ IH]; cbn [map app].
  - change (whole []) with "". rewrite append_nil_l. by apply splitBlank_line.
  - change (whole (eventOf d :: map eventOf ds))
      with (eventOf d +:+ whole (map eventOf ds)).
    rewrite append_assoc, eventOf_app, splitBlank_event, IH; [reflexivity|].
    destruct Hd as (_ & _ & Hlf). apply absent_append. by split.
Qed.

(** X15. A stream of well-formed events, each a line [data: ] with its
    payload and a blank line after it, is decoded payload by payload, in
    order and whatever the chunks it arrives in: the end marker yields
    nothing, every other payload yields what the parser finds in it.  A last
    event that no blank line ends is never delivered: it stays in the
    buffer when the stream is done. *)
Theorem well_formed_events_are_decoded ds tail chunks :
  Forall payload ds -> indexOf LF tail = (-1)%Z ->
  whole chunks = whole (map eventOf ds) +:+ tail ->
  yielded (readAll chunks)
  = omap (fun d => if (d =? "[DONE]")%string then None else contentOf d) ds
  /\ buffer (readAll chunks) = tail.
Proof.
  intros Hds Htail Hwhole.
  rewrite readAll_whole, onChunk_eq. cbn zeta. cbn [buffer yielded app].
  rewrite append_nil_l, Hwhole, (splitBlank_events ds tail Hds Htail).
  rewrite removelast_last, last_last. split; [|reflexivity].
  clear Hwhole. induction Hds as [|d ds Hd _ IH]; [reflexivity|].
  cbn [map]. rewrite !omap_cons_list, IH.
  change (String.append "data: " d) with ("data: " +:+ d).
  by rewrite (eventContent_payload d Hd).
Qed.

(** ** The conversation history *)

Lemma readAll_answer chunks :
  fullResponse (readAll chunks) = whole (map toStr (yielded (readAll chunks))).
Proof.
  rewrite readAll_whole, onChunk_eq. cbn zeta. cbn [fullResponse yielded app].
  by rewrite append_nil_l.
Qed.

(** X16. A send always leaves the user's message in the conversation
    history.  When the generator ends without throwing, the assistant's
    answer follows it, and that answer is what was yielded, piece after
    piece; when it throws (the call fails, the response has no body, a read
    fails) no answer is recorded. *)
Theorem send_records_what_was_yielded callDeepSeek conversationHistory message :
  let sent :=
    sendMessageStream JSON_parse isZero show callDeepSeek conversationHistory message in
  history sent
  = conversationHistory ++ mkChat "user" message ::
    match thrown sent with
    | Some _ => []
    | None => [mkChat "assistant" (whole (map toStr (yields sent)))]
    end.
Proof.
  cbn zeta. unfold sendMessageStream.
  destruct (callDeepSeek _) as [e| |chunks [e|]]; cbn [history thrown yields];
    try reflexivity.
  by rewrite readAll_answer, <- app_assoc.
Qed.

End Reading.

Lemma events_witness :
  Forall payload helloPayloads
  /\ indexOf LF helloTail = (-1)%Z
  /\ whole helloChunks = whole (map eventOf helloPayloads) +:+ helloTail
  /\ yielded (readAll JSON_parse noZero showNothing helloChunks) = [JStr "Hel"; JStr "lo"]
  /\ buffer (readAll JSON_parse noZero showNothing helloChunks) = helloTail.
Proof.
  assert (Hds : Forall payload helloPayloads).
  { repeat constructor. }
  assert (Htail : indexOf LF helloTail = (-1)%Z) by reflexivity.
  assert (Hwhole : whole helloChunks = whole (map eventOf helloPayloads) +:+ helloTail).
  { vm_compute. reflexivity. }
  split; [exact Hds|]. split; [exact Htail|]. split; [exact Hwhole|].
  exact (well_formed_events_are_decoded JSON_parse noZero showNothing
           helloPayloads helloTail helloChunks Hds Htail Hwhole).
Defined.

End StreamFacts.
(* ===================================================================== *)
(** * The chat handlers: what a send leaves in the message list *)
(* ===================================================================== *)

Module ChatFacts.
Import JS Types DeepseekService App Chat StreamProps StreamExamples ChatExamples StringFacts.

Lemma mapLast_snoc {A} (f : A -> A) l x : mapLast f (l ++ [x]) = l ++ [f x].
Proof.
  induction l as [|y l IH]; [reflexivity|]. cbn [app mapLast].
  rewrite IH. by destruct (l ++ [x]) eqn:E; [destruct l; discriminate|].
Qed.

(** The loop keeps the messages before the answer as they are and the text
    of the answer equal to what has been yielded so far. *)
Lemma fold_onPiece pieces :
  forall before answer full,
    text answer = full ->
    fold_left onPiece pieces (full, before ++ [answer])
    = (full +:+ whole pieces, before ++ [withText (full +:+ whole pieces) answer]).
Proof.
  induction pieces as [|p pieces IH]; intros before answer full Hfull.
  - cbn. rewrite append_nil_r. destruct answer; simpl in *. by subst.
  - cbn [fold_left]. unfold onPiece at 2. cbn [fst snd].
    rewrite mapLast_snoc, IH by reflexivity.
    change (whole (p :: pieces)) with (p +:+ whole pieces).
    by rewrite append_assoc.
Qed.

(** X17. A send appends the user's message and one answer to the list, and
    leaves the messages before them untouched.  The text of the answer is
    what the stream has yielded, piece after piece.  When the stream ends
    well the answer is marked as no longer streaming; when it throws, also
    before the first piece, the answer stays as it is, still marked as
    streaming, and a message with the text of the error follows it. *)
Theorem handleSend_appends_question_and_answer now mindMap pieces thrown s :
  trim (input s) <> "" ->
  messages (handleSend now mindMap pieces thrown s)
  = messages s
    ++ [mkEntry user (input s) (now 0) None]
    ++ match thrown with
       | None => [mkEntry model (whole pieces) (now 1) (Some false)]
       | Some error =>
           [mkEntry model (whole pieces) (now 1) (Some true);
            mkEntry model ("Error: " +:+ errorMessageOf error) (now 2) None]
       end.
Proof.
  intros Hinput. unfold handleSend.
  destruct (String.eqb_spec (trim (input s)) "") as [|_]; [contradiction|].
  cbn [messages]. rewrite fold_onPiece by reflexivity. cbn [snd].
  rewrite append_nil_l. destruct thrown as [error|].
  - by rewrite <- !app_assoc.
  - by rewrite mapLast_snoc, <- app_assoc.
Qed.

Lemma handleSend_witness :
  trim (input askingAgain) <> ""
  /\ messages (handleSend ticking (Rejected timeout) ["It "; "dep"] (Some timeout) askingAgain)
     = [mkEntry user "Hi" 1 None; mkEntry model "Hello." 2 (Some false);
        mkEntry user "Should I move?" 100 None;
        mkEntry model "It dep" 101 (Some true);
        mkEntry model "Error: timeout" 102 None].
Proof.
  assert (H : trim (input askingAgain) <> "") by discriminate.
  split; [exact H|].
  exact (handleSend_appends_question_and_answer
           ticking (Rejected timeout) ["It "; "dep"] (Some timeout) askingAgain H).
Defined.

(** X18. A quick action sends its prompt whatever it is: once its timer
    has fired, [handleQuickAction] appends the prompt and the answer to the
    list as [handleSend] does, also for a blank prompt, which [handleSend]
    ignores.  For a prompt that is not blank it leaves every cell as
    [handleSend] leaves it when the prompt stands in the input box. *)
Theorem handleQuickAction_sends_every_prompt now mindMap pieces thrown prompt s :
  messages (handleQuickAction now mindMap pieces thrown prompt s)
  = messages s
    ++ [mkEntry user prompt (now 0) None]
    ++ match thrown with
       | None => [mkEntry model (whole pieces) (now 1) (Some false)]
       | Some error =>
           [mkEntry model (whole pieces) (now 1) (Some true);
            mkEntry model ("Error: " +:+ errorMessageOf error) (now 2) None]
       end
  /\ (trim prompt <> "" ->
      handleQuickAction now mindMap pieces thrown prompt s
      = handleSend now mindMap pieces thrown
          (mkState (messages s) prompt (isChatLoading s) (mindMapData s))).
Proof.
  split.
  - unfold handleQuickAction. cbn [messages].
    rewrite fold_onPiece by reflexivity. cbn [snd].
    rewrite append_nil_l. destruct thrown as [error|].
    + by rewrite <- !app_assoc.
    + by rewrite mapLast_snoc, <- app_assoc.
  - intros Hprompt. unfold handleSend, handleQuickAction.
    cbn [input messages mindMapData].
    by destruct (String.eqb_spec (trim prompt) "") as [|_].
Qed.

(** X19. Screen and history agree after a send that ends well: the answer
    shown in the message list is, character for character, the content
    recorded for the assistant in the conversation history of the service,
    and the question before it is the content recorded for the user. *)
Theorem screen_and_history_agree JSON_parse isZero show callDeepSeek
    conversationHistory now mindMap s chunks :
  trim (input s) <> "" ->
  callDeepSeek (conversationHistory ++ [ChatStream.mkChat "user" (input s)])
  = ChatStream.Body chunks None ->
  exists answer,
    fst (sendAndRecord JSON_parse isZero show callDeepSeek conversationHistory
                       now mindMap s)
    = mkState (messages s ++ [mkEntry user (input s) (now 0) None;
                              mkEntry model answer (now 1) (Some false)])
              "" false
              (match mindMap with
               | Resolved mapData => Some mapData
               | Rejected _ => mindMapData s
               end)
    /\ snd (sendAndRecord JSON_parse isZero show callDeepSeek conversationHistory
                          now mindMap s)
       = conversationHistory ++ [ChatStream.mkChat "user" (input s);
                                 ChatStream.mkChat "assistant" answer].
Proof.
  intros Hinput Hcall. unfold sendAndRecord, ChatStream.sendMessageStream.
  rewrite Hcall. cbn [fst snd ChatStream.yields ChatStream.thrown ChatStream.history].
  exists (ChatStream.fullResponse (ChatStream.readAll JSON_parse isZero show chunks)).
  split.
  - unfold handleSend.
    destruct (String.eqb_spec (trim (input s)) "") as [|_]; [contradiction|].
    rewrite fold_onPiece by reflexivity. cbn [snd].
    rewrite append_nil_l, mapLast_snoc, <- app_assoc.
    by rewrite StreamFacts.readAll_answer.
  - by rewrite <- app_assoc.
Qed.

Lemma screen_and_history_witness :
  trim (input askingAgain) <> ""
  /\ exists answer,
       fst (sendAndRecord JSON_parse noZero showNothing
              (fun _ => ChatStream.Body helloChunks None) [] ticking
              (Rejected timeout) askingAgain)
       = mkState (messages askingAgain
                  ++ [mkEntry user (input askingAgain) (ticking 0) None;
                      mkEntry model answer (ticking 1) (Some false)])
                 "" false None
       /\ snd (sendAndRecord JSON_parse noZero showNothing
                 (fun _ => ChatStream.Body helloChunks None) [] ticking
                 (Rejected timeout) askingAgain)
          = [ChatStream.mkChat "user" (input askingAgain);
             ChatStream.mkChat "assistant" answer].
Proof.
  assert (H : trim (input askingAgain) <> "") by discriminate.
  split; [exact H|].
  exact (screen_and_history_agree JSON_parse noZero showNothing
           (fun _ => ChatStream.Body helloChunks None) [] ticking
           (Rejected timeout) askingAgain helloChunks H eq_refl).
Defined.

End ChatFacts.
(* ===================================================================== *)
(** * The generation calls: their context and their outcomes *)
(* ===================================================================== *)

Module GenerationFacts.
Import JS Types DeepseekService App Generation GenerationProps StringFacts.

(** ** The context of the mind-map call *)

Lemma length_take_le n s : String.length (take n s) <= n.
Proof.
  revert s. induction n as [|n IH]; intros [|c s]; simpl; try lia.
  specialize (IH s). lia.
Qed.

Lemma length_join_le sep k parts :
  Forall (fun p => String.length p <= k) parts ->
  parts <> [] ->
  String.length (join sep parts) + String.length sep
  <= length parts * (k + String.length sep).
Proof.
  induction 1 as [|p parts Hp Hparts IH]; intros Hne; [contradiction|].
  destruct parts as [|q parts].
  - simpl. lia.
  - change (join sep (p :: q :: parts)) with (p +:+ sep +:+ join sep (q :: parts)).
    rewrite !length_append. specialize (IH ltac:(discriminate)).
    simpl length in *. lia.
Qed.

Lemma length_shortLine m : String.length (shortLine m) <= 207.
Proof.
  unfold shortLine. rewrite !length_append.
  pose proof (length_take_le 200 (text m)) as H. unfold slice0.
  destruct (Types.role m); cbn [upperRole String.length]; lia.
Qed.

Lemma length_recentHistory {A} (history : list A) : length (recentHistory history) <= 10.
Proof. unfold recentHistory. rewrite length_skipn. lia. Qed.

Lemma recentHistory_app {A} (old recent : list A) :
  length recent = 10 -> recentHistory (old ++ recent) = recent.
Proof.
  intros H. unfold recentHistory. rewrite length_app, H.
  replace (length old + 10 - 10) with (length old + 0) by lia.
  by rewrite skipn_app, skipn_all2, Nat.add_comm, Nat.add_sub by lia.
Qed.

(** X20. The context that [generateMindMapData] puts in its prompt is read
    off the last ten messages only, and off the first 200 characters of
    each: it is never longer than 2079 characters, however long the
    conversation, and messages before the last ten do not change it. *)
Theorem mindMapContext_is_bounded history :
  String.length (mindMapContext history) <= 2079
  /\ (forall old recent,
        history = old ++ recent -> length recent = 10 ->
        mindMapContext history = mindMapContext recent).
Proof.
  split.
  - unfold mindMapContext.
    destruct (recentHistory history) as [|m ms] eqn:E; [simpl; lia|].
    pose proof (length_join_le (String ChatStream.LF "") 207 (map shortLine (m :: ms))) as H.
    rewrite length_map in H.
    pose proof (length_recentHistory history) as Hlen. rewrite E in Hlen.
    assert (Hall : Forall (fun p => String.length p <= 207) (map shortLine (m :: ms))).
    { apply Forall_forall. intros p Hp. apply list_elem_of_fmap_1 in Hp as (m' & -> & _).
      apply length_shortLine. }
    specialize (H Hall ltac:(discriminate)).
    change (String.length (String ChatStream.LF "")) with 1 in H.
    set (ctx := join _ _) in *. clearbody ctx. lia.
  - intros old recent -> Hlen. unfold mindMapContext.
    rewrite recentHistory_app by exact Hlen.
    pose proof (recentHistory_app [] recent Hlen) as E. cbn [app] in E.
    by rewrite E.
Qed.

(** ** The outcomes of a generation *)

(** X21. A generation call ends in one of five ways.  It returns what the
    decoder has made of the content of the reply, and that is an object or
    an array, never a value that a truthiness test could take for a failure.
    Or it throws: the reason the request was rejected with, the [TypeError]
    of a reply that is [null], the call's own "No ... generated" when the
    reply holds no content, or the decoder's parse error. *)
Theorem generation_outcomes isZero typeError noData reply :
  match generate isZero typeError noData reply with
  | inl v => structured v
  | inr e =>
      reply = Rejected e \/ e = typeError \/ e = mkError noData \/ e = ParseError
  end.
Proof.
  unfold generate. destruct reply as [data|reason]; [|by left].
  assert (H : forall text : option json,
             match (if negb (ChatStream.truthyU isZero text) then inr (mkError noData)
                    else match text with
                         | Some (JStr s) => cleanAndParseJSON JSON_parse s
                         | _ => inr ParseError
                         end) with
             | inl v => structured v
             | inr e =>
                 Resolved data = Rejected e \/ e = typeError \/ e = mkError noData
                 \/ e = ParseError
             end).
  { intros text. destruct (negb _); [tauto|].
    destruct text as [[| | |s| |]|]; try tauto.
    destruct (cleanAndParseJSON JSON_parse s) as [v|e] eqn:E.
    - unfold cleanAndParseJSON in E.
      destruct (sliceOf s) as [cut|] eqn:Ecut; [|discriminate].
      apply SliceFacts.sliceOf_opens in Ecut as (c & rest & -> & Hc).
      destruct (JSON_parse (String c rest)) as [v'|] eqn:Ev; [|discriminate].
      injection E as <-. by apply (SliceFacts.JSON_parse_structure c rest).
    - unfold cleanAndParseJSON in E.
      destruct (sliceOf s) as [cut|]; [destruct (JSON_parse cut)|]; try discriminate;
        injection E as <-; tauto. }
  destruct data; try apply H. tauto.
Qed.

End GenerationFacts.
